(** * DataPrism tooling: CDN build manifest, deployment orchestrator,
      provider retry loop and deployment validator

    A shallow embedding of the TypeScript sources

    - [tools/build/manifest-plugin.ts] and [tools/build/types.ts]
      (module [Build]),
    - [tools/build/jekyll-plugin.ts] (module [Jekyll]),
    - [tools/deployment/deploy.ts] (modules [Deploy] and [Cli]),
    - [tools/deployment/providers/base-provider.ts] (modules [Provider]
      and [ProviderValidation]),
    - [tools/deployment/providers/github-pages.ts] (module
      [GitHubPages]),
    - [tools/deployment/validator.ts] (module [Validator]),

    followed by the properties proved about them.  JavaScript values are
    modelled as the code uses them: byte strings as [string], numbers that
    hold sizes and durations as [Z], a [Map] as an association list in
    insertion order, a plain object used as a dictionary as a [gmap] (or an
    association list where enumeration order is observed), [undefined] as
    [None], and a thrown exception as the [Throw] branch of [Completion]. *)

From Stdlib Require Import ZArith List Bool Ascii String Lia.
From stdpp Require Import gmap strings list sorting pretty.

Local Open Scope Z_scope.
#[local] Set Warnings "-register-all,-clear-no-such-hyp".

(* ================================================================== *)
(** * Part I: definitions                                              *)
(* ================================================================== *)

(** ** Completions: a value returned or an error thrown *)

Inductive Completion (A : Type) : Type :=
  | Return (v : A)
  | Throw (message : string).
Arguments Return {A} v.
Arguments Throw {A} message.

Definition cbind {A B} (m : Completion A) (k : A → Completion B) : Completion B :=
  match m with
  | Return v => k v
  | Throw e => Throw e
  end.

#[global] Instance completion_ret : MRet Completion := @Return.
#[global] Instance completion_bind : MBind Completion := λ A B k m, cbind m k.

(** [try { body } catch (error) { handler(error.message) }] *)
Definition try_catch {A} (body : Completion A) (handler : string → Completion A)
  : Completion A :=
  match body with
  | Return v => Return v
  | Throw e => handler e
  end.

Definition returned {A} (c : Completion A) : bool :=
  match c with Return _ => true | Throw _ => false end.

(** ** JavaScript string and object primitives *)

Module JS.

(** [s.startsWith(p)] *)
Definition startsWith (s p : string) : bool := String.prefix p s.

(** [s.includes(p)]: [p] occurs in [s] as a contiguous substring. *)
Fixpoint includes (s p : string) : bool :=
  String.prefix p s ||
  match s with
  | EmptyString => false
  | String _ s' => includes s' p
  end.

(** [s.endsWith(p)] *)
Definition endsWith (s p : string) : bool :=
  let n := String.length s in
  let m := String.length p in
  (m <=? n)%nat && String.eqb (String.substring (n - m) m s) p.

Definition mapChars (f : ascii → ascii) : string → string :=
  fix go (s : string) : string :=
    match s with
    | EmptyString => EmptyString
    | String c s' => String (f c) (go s')
    end.

Definition isUpper (c : ascii) : bool :=
  let n := N_of_ascii c in ((65 <=? n) && (n <=? 90))%N.
Definition isLower (c : ascii) : bool :=
  let n := N_of_ascii c in ((97 <=? n) && (n <=? 122))%N.
Definition isDigit (c : ascii) : bool :=
  let n := N_of_ascii c in ((48 <=? n) && (n <=? 57))%N.

(** [s.toLowerCase()] of a string of ASCII characters.  The bytes
    of other characters (UTF-8 sequences) are left as they are, where
    JavaScript lower-cases further letters: a statement that depends
    on the difference is made for ASCII strings. *)
Definition lowerChar (c : ascii) : ascii :=
  if isUpper c then ascii_of_N (N_of_ascii c + 32) else c.
Definition toLowerCase : string → string := mapChars lowerChar.

(** [s.split(sep)] for a one-character separator: never empty. *)
Fixpoint split_go (sep : ascii) (cur : string) (s : string) : list string :=
  match s with
  | EmptyString => [String.rev cur]
  | String c s' =>
      if Ascii.eqb c sep then String.rev cur :: split_go sep EmptyString s'
      else split_go sep (String c cur) s'
  end.
Definition split (sep : ascii) (s : string) : list string :=
  split_go sep EmptyString s.

(** [arr.pop()] of a freshly split string: its last element. *)
Definition pop (l : list string) : option string := last l.

(** [s.replace(c, d)] with a one-character pattern: the first
    occurrence only. *)
Fixpoint replaceFirst (c d : ascii) (s : string) : string :=
  match s with
  | EmptyString => EmptyString
  | String x s' =>
      if Ascii.eqb x c then String d s' else String x (replaceFirst c d s')
  end.

(** [arr.join(sep)] *)
Definition join (sep : string) (l : list string) : string := String.concat sep l.

(** Truthiness of a string: [""] is falsy. *)
Definition truthy (s : string) : bool := negb (String.eqb s "").

(** [a || b] on optional strings ([undefined] and [""] are falsy). *)
Definition orElse (a : option string) (b : string) : string :=
  match a with
  | Some s => if truthy s then s else b
  | None => b
  end.

(** The lower-case names a plain object [{}] inherits from
    [Object.prototype]: reading [obj[k]] for one of them yields the
    inherited member (truthy) although [obj] has no such entry. *)
Definition inheritedKey (k : string) : bool :=
  String.eqb k "constructor" || String.eqb k "__proto__".

(** [obj[k] = v] on a plain object whose values are strings: the
    assignment to ["__proto__"] goes to the inherited setter, which
    ignores a value that is not an object, so no entry is created. *)
Definition setProp (k v : string) (o : gmap string string) : gmap string string :=
  if String.eqb k "__proto__" then o else <[k := v]> o.

(** [map.set(k, v)] on a [Map]: an existing key keeps its position,
    a new key goes last. *)
Fixpoint mapSet {V} (k : string) (v : V) (m : list (string * V)) : list (string * V) :=
  match m with
  | [] => [(k, v)]
  | (k', v') :: m' =>
      if String.eqb k' k then (k', v) :: m' else (k', v') :: mapSet k v m'
  end.

(** [Array.from(map.values())] and the keys, in insertion order. *)
Definition mapValues {V} (m : list (string * V)) : list V := map snd m.
Definition mapKeys {V} (m : list (string * V)) : list string := map fst m.

(** [path.basename]'s last portion of a POSIX path without a trailing
    separator. *)
Definition lastPortion (p : string) : string :=
  match pop (split "/" p) with Some b => b | None => p end.

(** Position of the last ["."] of [s], if any. *)
Fixpoint lastDot_go (s : string) (i : nat) (found : option nat) : option nat :=
  match s with
  | EmptyString => found
  | String c s' =>
      lastDot_go s' (S i) (if Ascii.eqb c "." then Some i else found)
  end.
Definition lastDot (s : string) : option nat := lastDot_go s 0%nat None.

(** [path.extname(p)]: from the last ["."] of the last portion to its
    end; empty when there is none, when the only one is the first
    character, and for [".."]. *)
Definition extname (p : string) : string :=
  let b := lastPortion p in
  if String.eqb b ".." then EmptyString
  else match lastDot b with
       | Some (S i) => String.substring (S i) (String.length b - S i) b
       | _ => EmptyString
       end.

(** [path.basename(p, ext)] *)
Definition basename (p ext : string) : string :=
  let b := lastPortion p in
  if endsWith b ext && negb (String.eqb b ext)
  then String.substring 0 (String.length b - String.length ext) b
  else b.

(** [Math.floor(n * 0.7)] for an integer [0 <= n]: the double nearest
    to 0.7 is [6305039478318694 / 2^53]; the exact product is rounded
    to 53 significant bits, ties to even, and then floored. *)
Definition floorMul07 (n : Z) : Z :=
  let p := n * 6305039478318694 in
  let bits := Z.log2 p + 1 in
  if bits <=? 53 then Z.shiftr p 53
  else
    let sh := bits - 53 in
    let q := Z.shiftr p sh in
    let r := p - Z.shiftl q sh in
    let half := Z.shiftl 1 (sh - 1) in
    let q' := if (half <? r) || ((r =? half) && Z.odd q) then q + 1 else q in
    Z.shiftr (Z.shiftl q' sh) 53.

End JS.

(** ** SHA-256 and SHA-384 (FIPS 180-4), as Node's [crypto] computes them *)

Module Sha2.

(** The constants of the family are derived as the standard defines
    them: the first bits of the fractional parts of the cube roots
    and of the square roots of the first primes. *)
Definition isPrime (n : Z) : bool :=
  forallb (λ d, negb (n mod d =? 0)) (seqZ 2 (n - 2)).

(** The first 80 primes: the primes up to 409. *)
Definition primes : list Z := Eval vm_compute in filter (λ n, isPrime n = true) (seqZ 2 408).

(** Integer cube root, one bit of the root at a time. *)
Fixpoint cbrtBits (bits : nat) (n root : Z) : Z :=
  match bits with
  | O => root
  | S bits' =>
      let root' := root + 2 ^ Z.of_nat bits' in
      cbrtBits bits' n (if root' ^ 3 <=? n then root' else root)
  end.

(** The first [w] bits of the fractional part of the cube root and
    of the square root of a prime below 512. *)
Definition fracCbrt (w prime : Z) : Z :=
  cbrtBits (Z.to_nat (w + 3)) (prime * 2 ^ (3 * w)) 0 mod 2 ^ w.

Definition fracSqrt (w prime : Z) : Z := Z.sqrt (prime * 2 ^ (2 * w)) mod 2 ^ w.

Definition K256 : list Z := Eval vm_compute in fracCbrt 32 <$> take 64 primes.
Definition H256 : list Z := Eval vm_compute in fracSqrt 32 <$> take 8 primes.
Definition K512 : list Z := Eval vm_compute in fracCbrt 64 <$> take 80 primes.
Definition H384 : list Z := Eval vm_compute in fracSqrt 64 <$> take 8 (drop 8 primes).

(** One hash function of the family: the word size, the constants,
    the rotation and shift amounts of the four sigma functions, the
    number of bytes of the length field, and the number of words of
    the digest. *)
Record Params := {
  wordBits : Z;
  roundConstants : list Z;
  initialHash : list Z;
  bigSigma0 : Z * Z * Z;
  bigSigma1 : Z * Z * Z;
  smallSigma0 : Z * Z * Z;
  smallSigma1 : Z * Z * Z;
  lengthBytes : nat;
  digestWords : nat;
}.

Definition sha256_params : Params :=
  {| wordBits := 32; roundConstants := K256; initialHash := H256;
     bigSigma0 := (2, 13, 22); bigSigma1 := (6, 11, 25);
     smallSigma0 := (7, 18, 3); smallSigma1 := (17, 19, 10);
     lengthBytes := 8; digestWords := 8 |}.

Definition sha384_params : Params :=
  {| wordBits := 64; roundConstants := K512; initialHash := H384;
     bigSigma0 := (28, 34, 39); bigSigma1 := (14, 18, 41);
     smallSigma0 := (1, 8, 7); smallSigma1 := (19, 61, 6);
     lengthBytes := 16; digestWords := 6 |}.

Section Family.
Variable p : Params.

Definition modulus : Z := 2 ^ wordBits p.
Definition wrap (x : Z) : Z := x mod modulus.
Definition add (x y : Z) : Z := wrap (x + y).
Definition rotr (n x : Z) : Z :=
  wrap (Z.lor (Z.shiftr x n) (Z.shiftl x (wordBits p - n))).
Definition shr (n x : Z) : Z := Z.shiftr x n.
Definition ch (x y z : Z) : Z :=
  Z.lxor (Z.land x y) (Z.land (Z.lxor x (modulus - 1)) z).
Definition maj (x y z : Z) : Z :=
  Z.lxor (Z.lxor (Z.land x y) (Z.land x z)) (Z.land y z).

(** The upper-case sigmas rotate three times; the lower-case ones
    rotate twice and shift once. *)
Definition bigSigma (s : Z * Z * Z) (x : Z) : Z :=
  let '(a, b, c) := s in Z.lxor (Z.lxor (rotr a x) (rotr b x)) (rotr c x).
Definition smallSigma (s : Z * Z * Z) (x : Z) : Z :=
  let '(a, b, c) := s in Z.lxor (Z.lxor (rotr a x) (rotr b x)) (shr c x).

Definition wordBytes : nat := Z.to_nat (wordBits p / 8).
Definition blockBytes : nat := (16 * wordBytes)%nat.

(** Big-endian bytes of a number, and back. *)
Fixpoint toBytes (n : nat) (x : Z) : list Z :=
  match n with
  | O => []
  | S n' => toBytes n' (x / 256) ++ [x mod 256]
  end.
Definition fromBytes (bs : list Z) : Z := foldl (λ acc b, acc * 256 + b) 0 bs.

(** The message followed by the byte [0x80], zero bytes, and its
    length in bits, up to a whole number of blocks. *)
Definition pad (msg : list Z) : list Z :=
  let len := length msg in
  let used := ((len + 1 + lengthBytes p) mod blockBytes)%nat in
  let zeros := if (used =? 0)%nat then 0%nat else (blockBytes - used)%nat in
  msg ++ [128] ++ replicate zeros 0 ++ toBytes (lengthBytes p) (8 * Z.of_nat len).

Fixpoint chunks (fuel size : nat) (l : list Z) : list (list Z) :=
  match fuel with
  | O => []
  | S fuel' =>
      match l with
      | [] => []
      | _ => take size l :: chunks fuel' size (drop size l)
      end
  end.

(** The message schedule, newest word first: each new word comes
    from the words 2, 7, 15 and 16 places back. *)
Fixpoint extend (n : nat) (recent : list Z) : list Z :=
  match n with
  | O => recent
  | S n' =>
      let at_ i := nth i recent 0 in
      let word :=
        add (add (smallSigma (smallSigma1 p) (at_ 1%nat)) (at_ 6%nat))
            (add (smallSigma (smallSigma0 p) (at_ 14%nat)) (at_ 15%nat)) in
      extend n' (word :: recent)
  end.

Definition schedule (block : list Z) : list Z :=
  let words := map fromBytes (chunks 16 wordBytes block) in
  rev (extend (length (roundConstants p) - 16) (rev words)).

(** One round on the eight working variables. *)
Definition round (state : list Z) (kw : Z * Z) : list Z :=
  match state with
  | [a; b; c; d; e; f; g; h] =>
      let t1 := add (add (add h (bigSigma (bigSigma1 p) e)) (ch e f g))
                    (add (fst kw) (snd kw)) in
      let t2 := add (bigSigma (bigSigma0 p) a) (maj a b c) in
      [add t1 t2; a; b; c; add d t1; e; f; g]
  | _ => state
  end.

Definition compress (hash block : list Z) : list Z :=
  let final := foldl round hash (combine (roundConstants p) (schedule block)) in
  zip_with add hash final.

Definition hexDigit (n : Z) : ascii :=
  if n <? 10 then ascii_of_N (Z.to_N n + 48) else ascii_of_N (Z.to_N n + 87).

Definition hexOfBytes (bs : list Z) : string :=
  foldr (λ b acc, String (hexDigit (b / 16)) (String (hexDigit (b mod 16)) acc))
    EmptyString bs.

Definition bytesOfString (s : string) : list Z :=
  (fix go (s : string) : list Z :=
     match s with
     | EmptyString => []
     | String c s' => Z.of_N (N_of_ascii c) :: go s'
     end) s.

(** [createHash(alg).update(data).digest('hex')] *)
Definition digestHex (data : string) : string :=
  let padded := pad (bytesOfString data) in
  let blocks := chunks (length padded) blockBytes padded in
  let hash := foldl compress (initialHash p) blocks in
  hexOfBytes (flat_map (toBytes wordBytes) (take (digestWords p) hash)).

End Family.

Definition sha256 : string → string := digestHex sha256_params.
Definition sha384 : string → string := digestHex sha384_params.

End Sha2.
(** ** Node's [Buffer] encodings and [crypto] digests *)

Module Encoding.

Definition hexVal (c : ascii) : option N :=
  let n := N_of_ascii c in
  if JS.isDigit c then Some (n - 48)%N
  else if ((97 <=? n) && (n <=? 102))%N then Some (n - 87)%N
  else if ((65 <=? n) && (n <=? 70))%N then Some (n - 55)%N
  else None.

(** [Buffer.from(s, 'hex')]: two digits a byte, stopping at the first
    pair that is not hexadecimal; a trailing single digit is dropped. *)
Fixpoint fromHex (s : string) : list N :=
  match s with
  | String a (String b s') =>
      match hexVal a, hexVal b with
      | Some h, Some l => (16 * h + l)%N :: fromHex s'
      | _, _ => []
      end
  | _ => []
  end.

Definition base64Char (n : N) : ascii :=
  if (n <? 26)%N then ascii_of_N (n + 65)
  else if (n <? 52)%N then ascii_of_N (n - 26 + 97)
  else if (n <? 62)%N then ascii_of_N (n - 52 + 48)
  else if (n =? 62)%N then "+"%char else "/"%char.

(** [buf.toString('base64')] *)
Fixpoint toBase64 (bytes : list N) : string :=
  match bytes with
  | [] => EmptyString
  | [a] =>
      String (base64Char (a / 4))
        (String (base64Char (a mod 4 * 16)) "==")
  | [a; b] =>
      String (base64Char (a / 4))
        (String (base64Char (a mod 4 * 16 + b / 16))
           (String (base64Char (b mod 16 * 4)) "="))
  | a :: b :: c :: rest =>
      String (base64Char (a / 4))
        (String (base64Char (a mod 4 * 16 + b / 16))
           (String (base64Char (b mod 16 * 4 + c / 64))
              (String (base64Char (c mod 64)) (toBase64 rest))))
  end%N.

End Encoding.

(** [createHash(alg).update(data).digest('hex')] for the two algorithms
    the tooling uses.  The digests are library code of Node; the model
    is parametric in them. *)
Class Crypto := {
  sha384_hex : string → string;
  sha256_hex : string → string;
}.

(** ** The build manifest plugin ([manifest-plugin.ts], [types.ts]) *)

Module Build.

Inductive Target := github_pages | cloudflare_pages | netlify | vercel.

Record OptimizationConfig := {
  compression : string;
  treeshaking : bool;
  codesplitting : bool;
  wasmOptimization : bool;
  minification : bool;
}.

(** [CacheConfig]: durations in seconds.  The fields [wasm] and
    [plugins] carry a prefix here, the manifest has fields of the
    same names. *)
Record CacheConfig := {
  staticAssets : Z;
  manifests : Z;
  cache_wasm : Z;
  cache_plugins : Z;
}.

Record AssetConfig := {
  integrity_enabled : bool;
  versioning : string;
  caching : CacheConfig;
  baseUrl : option string;
}.

Record CDNBuildConfig := {
  target : Target;
  optimization : OptimizationConfig;
  assets_config : AssetConfig;
}.

Definition targetName (t : Target) : string :=
  match t with
  | github_pages => "github-pages"
  | cloudflare_pages => "cloudflare-pages"
  | netlify => "netlify"
  | vercel => "vercel"
  end.

Definition DEFAULT_CDN_CONFIG : CDNBuildConfig := {|
  target := github_pages;
  optimization := {| compression := "both"; treeshaking := true;
                     codesplitting := true; wasmOptimization := true;
                     minification := true |};
  assets_config := {| integrity_enabled := true; versioning := "hash";
                      caching := {| staticAssets := 31536000; manifests := 3600;
                                    cache_wasm := 31536000; cache_plugins := 86400 |};
                      baseUrl := None |};
|}.

(** [SIZE_LIMITS], in the order [Object.entries] enumerates it. *)
Definition SIZE_LIMITS : list (string * Z) :=
  [ ("core.min.js", 2 * 1024 * 1024);
    ("orchestration.min.js", 800 * 1024);
    ("plugin-framework.min.js", 500 * 1024);
    ("wasm", 3 * 1024 * 1024 / 2);
    ("plugin", 500 * 1024);
    ("total", 5 * 1024 * 1024) ].
Definition SIZE_LIMITS_total : Z := 5 * 1024 * 1024.

Record AssetInfo := {
  filename : string;
  size : Z;
  compressedSize : Z;
  hash : string;
  mimeType : string;
  cacheDuration : Z;
  lastModified : string;
}.

Record WasmAssetInfo := {
  wasm_base : AssetInfo;
  streamingCompilation : bool;
  memoryRequirement : Z;
  crossOriginIsolation : bool;
}.

Record PluginAssetInfo := {
  plugin_base : AssetInfo;
  id : string;
  name : string;
  version : string;
  category : string;
  dependencies : list string;
  entry : string;
  exports : list string;
}.

(** A quotient of two JavaScript numbers, kept unevaluated (the code
    computes it in double precision; [0 / 0] is [NaN]). *)
Record Ratio := { numerator : Z; denominator : Z }.

Record BuildMetadata := {
  buildDate : string;
  buildId : string;
  nodeVersion : string;
  gitCommit : option string;
  gitBranch : option string;
  meta_target : string;
  meta_optimization : OptimizationConfig;
  totalBundleSize : Z;
  compressionRatio : Ratio;
}.

Record BrowserCompatibility := {
  chrome : string; firefox : string; safari : string; edge : string;
  webAssembly : bool; es2020 : bool;
}.

(** [manifest.assets]; a category is [None] where the code leaves it
    [undefined] (an empty asset map). *)
Record ManifestAssets := {
  core : option AssetInfo;
  orchestration : option AssetInfo;
  pluginFramework : option AssetInfo;
  plugins : list PluginAssetInfo;
  wasm : list WasmAssetInfo;
}.

Record AssetManifest := {
  manifest_version : string;
  timestamp : string;
  buildHash : string;
  assets : ManifestAssets;
  integrity : gmap string string;
  metadata : BuildMetadata;
  compatibility : BrowserCompatibility;
}.

(** What a run reads from its process: the environment variable
    [npm_package_version], [process.version], the output of the two
    [git rev-parse] commands ([None] when the command fails), and the
    clock: [clock n] is the ISO string of the [n]-th [new Date()] of
    the process. *)
Record Env := {
  npm_package_version : option string;
  process_version : string;
  git_rev_parse_HEAD : option string;
  git_rev_parse_abbrev_ref_HEAD : option string;
  clock : nat → string;
}.

(** The closure state of one [manifestPlugin(options)] instance; it
    lives as long as the plugin, across calls of [generateBundle]. *)
Record PluginState := {
  assetMap : list (string * AssetInfo);
  pluginAssets : list PluginAssetInfo;
  wasmAssets : list WasmAssetInfo;
}.

Definition initialState : PluginState :=
  {| assetMap := []; pluginAssets := []; wasmAssets := [] |}.

(** An entry of Rollup's output bundle: [asset.type] is ['asset'] (with
    its [source]) or ['chunk'] (with its [code]); [Buffer.from] turns
    either into bytes. *)
Inductive BundleItem :=
  | asset (source : string)
  | chunk (code : string).

(** What [generateBundle] does to the outside: files handed to
    [this.emitFile] and the one [console.warn] of the size check. *)
Inductive Emitted :=
  | ManifestJson (m : AssetManifest)
  | TextFile (text : string).

Inductive Effect :=
  | EmitFile (fileName : string) (source : Emitted)
  | ConsoleWarn (issues : list string).

Definition lookupTable (table : list (string * string)) (k : string) : option string :=
  snd <$> find (λ kv, String.eqb (fst kv) k) table.

Definition getMimeType (filename : string) : string :=
  let ext := JS.toLowerCase (JS.extname filename) in
  let mimeTypes :=
    [ (".js", "application/javascript");
      (".wasm", "application/wasm");
      (".json", "application/json");
      (".map", "application/json");
      (".css", "text/css");
      (".html", "text/html") ] in
  JS.orElse (lookupTable mimeTypes ext) "application/octet-stream".

Definition getCacheDuration (filename : string) (config : CDNBuildConfig) : Z :=
  let c := caching (assets_config config) in
  if JS.includes filename "manifest" then manifests c
  else if JS.endsWith filename ".wasm" then cache_wasm c
  else if JS.includes filename "plugin" then cache_plugins c
  else staticAssets c.

Definition estimateWasmMemory (source : string) : Z :=
  let size := Z.of_nat (String.length source) in
  Z.max (size * 2) (1024 * 1024).

Section WithCrypto.
Context `{Crypto}.

(** [createAssetInfo]; [t] is the number of clock readings made
    before the call, which makes one. *)
Definition createAssetInfo (env : Env) (t : nat) (filename source : string)
    (config : CDNBuildConfig) : AssetInfo :=
  let content := source in
  let hash := sha384_hex content in
  let size := Z.of_nat (String.length content) in
  let compressedSize := JS.floorMul07 size in
  {| filename := filename;
     size := size;
     compressedSize := compressedSize;
     hash := hash;
     mimeType := getMimeType filename;
     cacheDuration := getCacheDuration filename config;
     lastModified := clock env t |}.

Definition createWasmAssetInfo (env : Env) (t : nat) (filename source : string)
    (config : CDNBuildConfig) : WasmAssetInfo :=
  let baseInfo := createAssetInfo env t filename source config in
  {| wasm_base := baseInfo;
     streamingCompilation := wasmOptimization (optimization config);
     memoryRequirement := estimateWasmMemory source;
     crossOriginIsolation := true |}.

(** [createPluginAssetInfo]; the code's return type admits [null],
    which it never returns. *)
Definition createPluginAssetInfo (env : Env) (t : nat) (filename source : string)
    (config : CDNBuildConfig) : option PluginAssetInfo :=
  let baseInfo := createAssetInfo env t filename source config in
  let pluginName := JS.basename filename (JS.extname filename) in
  let pluginId :=
    JS.mapChars (λ c, if Ascii.eqb c "-" || Ascii.eqb c "_" then "."%char else c)
      pluginName in
  Some {| plugin_base := baseInfo;
          id := pluginId;
          name := pluginName;
          version := "1.0.0";
          category := "utility";
          dependencies := [];
          entry := filename;
          exports := ["default"] |}.

(** [generateIntegrityMap]; the [wasm] and [plugins] arguments are
    not read. *)
Definition integrityValue (a : AssetInfo) : string :=
  "sha384-" +:+ Encoding.toBase64 (Encoding.fromHex (hash a)).

Definition generateIntegrityMap (assets : list (string * AssetInfo))
    (wasm : list WasmAssetInfo) (plugins : list PluginAssetInfo)
    : gmap string string :=
  foldl (λ integrity kv, JS.setProp (fst kv) (integrityValue (snd kv)) integrity)
    ∅ assets.

Definition sumBy (f : AssetInfo → Z) (l : list AssetInfo) : Z :=
  foldl (λ sum a, sum + f a) 0 l.

(** [l.find(p) || other] on asset objects (always truthy). *)
Definition findOr (p : AssetInfo → bool) (l : list AssetInfo)
    (other : option AssetInfo) : option AssetInfo :=
  match find p l with
  | Some a => Some a
  | None => other
  end.

(** [generateManifest]; it reads the clock twice. *)
Definition generateManifest (env : Env) (t : nat)
    (assets : list (string * AssetInfo))
    (plugins : list PluginAssetInfo) (wasm : list WasmAssetInfo)
    (config : CDNBuildConfig) : AssetManifest :=
  let buildHash :=
    String.substring 0 8
      (sha256_hex (JS.join "" (map hash (JS.mapValues assets)))) in
  let totalBundleSize := sumBy size (JS.mapValues assets) in
  let totalCompressedSize := sumBy compressedSize (JS.mapValues assets) in
  let assetsList := JS.mapValues assets in
  let coreAsset :=
    findOr (λ a, JS.includes (filename a) "core") assetsList (head assetsList) in
  let orchestrationAsset :=
    findOr (λ a, JS.includes (filename a) "orchestration") assetsList coreAsset in
  let pluginFrameworkAsset :=
    findOr (λ a, JS.includes (filename a) "plugin-framework") assetsList coreAsset in
  {| manifest_version := JS.orElse (npm_package_version env) "1.0.0";
     timestamp := clock env t;
     buildHash := buildHash;
     assets := {| core := coreAsset;
                  orchestration := orchestrationAsset;
                  pluginFramework := pluginFrameworkAsset;
                  plugins := plugins;
                  wasm := wasm |};
     integrity := generateIntegrityMap assets wasm plugins;
     metadata := {| buildDate := clock env (S t);
                    buildId := buildHash;
                    nodeVersion := process_version env;
                    gitCommit := git_rev_parse_HEAD env;
                    gitBranch := git_rev_parse_abbrev_ref_HEAD env;
                    meta_target := targetName (target config);
                    meta_optimization := optimization config;
                    totalBundleSize := totalBundleSize;
                    compressionRatio :=
                      {| numerator := totalCompressedSize;
                         denominator := totalBundleSize |} |};
     compatibility := {| chrome := "90+"; firefox := "88+"; safari := "14+";
                         edge := "90+"; webAssembly := true; es2020 := true |} |}.

(** The text of one size issue and of the total-size issue. *)
Definition fileIssue (filename : string) (size limit : Z) : string :=
  filename +:+ " exceeds size limit: " +:+ pretty size +:+ " > "
    +:+ pretty limit +:+ " bytes".
Definition totalIssue (totalSize : Z) : string :=
  "Total bundle size exceeds limit: " +:+ pretty totalSize +:+ " > "
    +:+ pretty SIZE_LIMITS_total +:+ " bytes".

(** The [issues] array [validateBundleSizes] builds. *)
Definition sizeIssues (assets : list (string * AssetInfo)) : list string :=
  let perFile :=
    flat_map (λ kv : string * AssetInfo,
      let (filename, asset) := kv in
      flat_map (λ pl : string * Z,
        let (pattern, limit) := pl in
        if JS.includes filename pattern && (limit <? size asset)
        then [fileIssue filename (size asset) limit] else [])
        SIZE_LIMITS)
      assets in
  let totalSize := sumBy size (JS.mapValues assets) in
  perFile ++ (if SIZE_LIMITS_total <? totalSize then [totalIssue totalSize] else []).

(** [validateBundleSizes]: it returns nothing; its one effect is the
    warning, made when there is an issue. *)
Definition validateBundleSizes (assets : list (string * AssetInfo))
    (config : CDNBuildConfig) : list Effect :=
  let issues := sizeIssues assets in
  if (0 <? length issues)%nat then [ConsoleWarn issues] else [].

Definition dq : string := String (ascii_of_nat 34) EmptyString.
Definition nl : string := String (ascii_of_nat 10) EmptyString.

Definition generateCORSHeaders (config : CDNBuildConfig) : string :=
  let baseUrl := JS.orElse (baseUrl (assets_config config)) "/*" in
  String.concat nl
    [ baseUrl;
      "  Access-Control-Allow-Origin: *";
      "  Access-Control-Allow-Methods: GET, HEAD, OPTIONS";
      "  Access-Control-Allow-Headers: Content-Type, Authorization";
      "  Cross-Origin-Embedder-Policy: require-corp";
      "  Cross-Origin-Opener-Policy: same-origin";
      "  X-Content-Type-Options: nosniff";
      "  X-Frame-Options: DENY";
      "  X-XSS-Protection: 1; mode=block";
      "  ";
      "*.wasm";
      "  Content-Type: application/wasm";
      "  Cache-Control: public, max-age=31536000, immutable";
      "  ";
      "*.js";
      "  Content-Type: application/javascript";
      "  Cache-Control: public, max-age=31536000, immutable";
      "  ";
      "manifest.json";
      "  Content-Type: application/json";
      "  Cache-Control: public, max-age=3600" ].

Definition jsonStrings (l : list string) : string :=
  "[" +:+ String.concat "," (map (λ s, dq +:+ s +:+ dq) l) +:+ "]".

Definition generateProviderConfigs (manifest : AssetManifest)
    (config : CDNBuildConfig) : list Effect :=
  (match target config with
   | github_pages =>
       [ EmitFile "_config.yml"
           (TextFile (String.concat nl
              [ "# GitHub Pages Jekyll Configuration";
                "plugins: " +:+ jsonStrings ["jekyll-gist"];
                "include: " +:+ jsonStrings ["_*"; ".nojekyll"];
                "exclude: " +:+ jsonStrings ["node_modules/"; "Gemfile*"] ]));
         EmitFile ".nojekyll" (TextFile "") ]
   | _ => []
   end)
  ++ [ EmitFile "_headers" (TextFile (generateCORSHeaders config)) ].

(** One step of the [forEach] over [Object.entries(bundle)]. *)
Definition processEntry (env : Env) (config : CDNBuildConfig)
    (acc : PluginState * nat) (e : string * BundleItem) : PluginState * nat :=
  let (st, t) := acc in
  let (filename, item) := e in
  match item with
  | asset source =>
      let assetInfo := createAssetInfo env t filename source config in
      let assetMap' := JS.mapSet filename assetInfo (assetMap st) in
      if JS.endsWith filename ".wasm" then
        ({| assetMap := assetMap';
            pluginAssets := pluginAssets st;
            wasmAssets := wasmAssets st ++
              [createWasmAssetInfo env (S t) filename source config] |},
         S (S t))
      else if JS.includes filename "plugin" then
        ({| assetMap := assetMap';
            pluginAssets := pluginAssets st ++
              option_list (createPluginAssetInfo env (S t) filename source config);
            wasmAssets := wasmAssets st |},
         S (S t))
      else
        ({| assetMap := assetMap';
            pluginAssets := pluginAssets st;
            wasmAssets := wasmAssets st |}, S t)
  | chunk code =>
      let assetInfo := createAssetInfo env t filename code config in
      ({| assetMap := JS.mapSet filename assetInfo (assetMap st);
          pluginAssets := pluginAssets st;
          wasmAssets := wasmAssets st |}, S t)
  end.

(** The [generateBundle] hook: the new closure state, the clock
    readings consumed, and the effects in the order they happen.  No
    statement of the hook or of the functions it calls throws. *)
Definition generateBundle (env : Env) (config : CDNBuildConfig)
    (st : PluginState) (t : nat) (bundle : list (string * BundleItem))
    : PluginState * nat * list Effect :=
  let (st', t') := foldl (processEntry env config) (st, t) bundle in
  let manifest :=
    generateManifest env t' (assetMap st') (pluginAssets st') (wasmAssets st') config in
  (st', S (S t'),
   [EmitFile "manifest.json" (ManifestJson manifest)]
   ++ generateProviderConfigs manifest config
   ++ validateBundleSizes (assetMap st') config).

(** The manifest a run emits. *)
Definition emittedManifest (effects : list Effect) : option AssetManifest :=
  match effects with
  | EmitFile _ (ManifestJson m) :: _ => Some m
  | _ => None
  end.

End WithCrypto.

End Build.

(** ** JSON values as [JSON.parse] and [response.json()] produce them *)

Module Json.

(** Numbers are the integer-valued ones; the code observes a parsed
    number only through its truthiness and its decimal text. *)
Inductive t :=
  | JNull
  | JBool (b : bool)
  | JNum (n : Z)
  | JStr (s : string)
  | JArr (items : list t)
  | JObj (props : list (string * t)).

Definition truthy (v : t) : bool :=
  match v with
  | JNull => false
  | JBool b => b
  | JNum n => negb (n =? 0)
  | JStr s => JS.truthy s
  | JArr _ | JObj _ => true
  end.

(** Truthiness of a value that may be [undefined]. *)
Definition truthyOpt (v : option t) : bool :=
  match v with Some x => truthy x | None => false end.

(** Own-property lookup in a property list. *)
Definition lookup (k : string) (props : list (string * t)) : option t :=
  snd <$> find (λ kv, String.eqb (fst kv) k) props.

(** [obj[k] = v] on a property list: an existing key keeps its place. *)
Definition objSet (k : string) (v : t) (props : list (string * t))
  : list (string * t) := JS.mapSet k v props.

(** [v.k] for the property names the tooling reads ([assets],
    [integrity], [hybrid], [baseUrl], [workers], [bundles], ...), none
    of which is inherited from a prototype: reading a property of
    [null] throws a [TypeError]; an object yields its own property or
    [undefined]; any other value yields [undefined]. *)
Definition getProp (v : t) (k : string) : Completion (option t) :=
  match v with
  | JNull => Throw ("Cannot read properties of null (reading '" +:+ k +:+ "')")
  | JObj props => Return (lookup k props)
  | _ => Return None
  end.

(** [Object.keys(v).length] for a value that is not [null]. *)
Definition keysLength (v : t) : nat :=
  match v with
  | JObj props => length props
  | JArr items => length items
  | JStr s => String.length s
  | _ => 0%nat
  end.

(** The own enumerable properties [{...v}] copies, in order. *)
Definition indexed (l : list t) : list (string * t) :=
  imap (λ i x, (pretty i, x)) l.
Definition chars (s : string) : list t :=
  (fix go (s : string) : list t :=
     match s with
     | EmptyString => []
     | String c s' => JStr (String c EmptyString) :: go s'
     end) s.
Definition spreadProps (v : t) : list (string * t) :=
  match v with
  | JObj props => props
  | JArr items => indexed items
  | JStr s => indexed (chars s)
  | _ => []
  end.

(** [{...base, ...v}] *)
Definition spread (base : list (string * t)) (v : t) : list (string * t) :=
  foldl (λ acc kv, objSet (fst kv) (snd kv) acc) base (spreadProps v).

(** [String(v)], as a template literal converts a value. *)
Fixpoint toString (v : t) : string :=
  match v with
  | JNull => "null"
  | JBool true => "true"
  | JBool false => "false"
  | JNum n => pretty n
  | JStr s => s
  | JArr items =>
      String.concat ","
        (map (λ x, match x with JNull => EmptyString | _ => toString x end) items)
  | JObj _ => "[object Object]"
  end.

End Json.

(** [JSON.parse(text)]: [None] when it throws a [SyntaxError].  The
    parser is library code; the model is parametric in it. *)
Class JsonParser := { JSON_parse : string → option Json.t }.

(** ** The deployment orchestrator ([deploy.ts], [types.ts]) *)

Module Deploy.

(** What is found at a path of the file system, as [statSync] and the
    read functions see it. *)
Inductive Node :=
  | File (size : Z) (content : option string)
      (** a regular file: [stats.size], and the bytes [readFileSync]
          returns ([None]: the read throws, e.g. [EACCES]) *)
  | Dir (entries : list (string * Node))
      (** a directory and what [readdirSync] lists, in its order *)
  | Other
      (** neither [isFile()] nor [isDirectory()]: a socket, a FIFO *)
  | Broken.
      (** [statSync] throws and [existsSync] is false: a dangling
          symbolic link *)

(** The value [mimeTypes[ext]] of the orchestrator's table: a string,
    or, for a key that is no entry of the table but a member every
    object inherits, that member. *)
Inductive MimeType :=
  | Mime (s : string)
  | InheritedMember (key : string).

Record AssetFile := {
  path : string;
  content : string;
  mimeType : MimeType;
  size : Z;
  hash : string;
}.

Record DeploymentMetadata := {
  meta_deploymentId : string;
  meta_timestamp : string;
  meta_target : string;
  meta_environment : string;
}.

Record AssetBundle := {
  files : list AssetFile;
  manifest : Json.t;
  totalSize : Z;
  metadata : DeploymentMetadata;
}.

Record DeploymentMetrics := {
  buildTime : Z;
  deployTime : Z;
  totalFiles : Z;
  metrics_totalSize : Z;
}.

Record DeploymentResult := {
  success : bool;
  deploymentId : string;
  url : Json.t;
  logs : list string;
  metrics : option DeploymentMetrics;
  error : option string;
}.

(** [DeploymentOptions]: every field optional. *)
Record DeploymentOptions := {
  opt_target : option string;
  opt_environment : option string;
  dryRun : option bool;
  validate : option bool;
  force : option bool;
  configFile : option string;
  assetsDir : option string;
  baseUrl : option string;
  repository : option string;
  branch : option string;
  customDomain : option string;
}.

(** A [DeploymentConfig] object: its properties in insertion order.
    A configuration file can put any JSON value under any name. *)
Definition Config := list (string * Json.t).

Definition DEFAULT_DEPLOYMENT_CONFIG : Config :=
  [ ("environment", Json.JStr "production");
    ("branch", Json.JStr "main");
    ("outputDir", Json.JStr "cdn/dist");
    ("headers", Json.JObj
       [ ("Cache-Control", Json.JStr "public, max-age=31536000");
         ("X-Content-Type-Options", Json.JStr "nosniff");
         ("X-Frame-Options", Json.JStr "DENY") ]) ].

(** The methods of [CDNDeploymentProvider]. *)
Inductive ProviderMethod :=
  | m_deploy | m_validate | m_rollback | m_getDeploymentStatus
  | m_listDeployments | m_cleanup | m_testConnection.

(** What a call of the orchestrator does beyond reading the file
    system: reads of [process.env], the construction of a provider,
    calls of provider methods, a run of the validator, and the
    [console.error] of its [catch]. *)
Inductive Event :=
  | ReadEnv (name : string)
  | ProviderCreated (name : string)
  | ProviderCall (method : ProviderMethod)
  | ValidatorRun (url : Json.t)
  | ConsoleError (message : string).


(** The surroundings of one call: the file system by path ([None]:
    nothing there), [process.env], the clock and [Math.random] as
    [generateDeploymentId] and [new Date()] read them, and the provider:
    whether [git ls-remote] succeeds, and the result its [deploy]
    gives for a bundle. *)
Record World := {
  fs : string → option Node;
  env : string → option string;
  now_ms : Z;
  random36 : string;
  now_iso : string;
  provider_testConnection : bool;
  provider_deploy : AssetBundle → DeploymentResult;
}.

(** Computations that leave events and return or throw. *)
Definition Run (A : Type) : Type := list Event * Completion A.

Definition rbind {A B} (m : Run A) (k : A → Run B) : Run B :=
  match m with
  | (ev, Return v) => let (ev', r) := k v in (ev ++ ev', r)
  | (ev, Throw e) => (ev, Throw e)
  end.
Definition emit (e : Event) : Run unit := ([e], Return tt).
Definition lift {A} (c : Completion A) : Run A := ([], c).

#[global] Instance run_ret : MRet Run := λ A v, ([], Return v).
#[global] Instance run_bind : MBind Run := λ A B k m, rbind m k.

(** [try { body } catch (error) { handler }] around a [Run]. *)
Definition rcatch {A} (body : Run A) (handler : string → Run A) : Run A :=
  match body with
  | (ev, Return v) => (ev, Return v)
  | (ev, Throw e) => let (ev', r) := handler e in (ev ++ ev', r)
  end.

Definition existsSync (w : World) (p : string) : bool :=
  match fs w p with
  | None | Some Broken => false
  | Some _ => true
  end.

(** [path.join(a, b)] for a relative directory path [a] (possibly
    empty) and an entry name [b]. *)
Definition pathJoin (a b : string) : string :=
  if String.eqb a "" then b else a +:+ "/" +:+ b.

(** [p.replace(/\\/g, '/')] *)
Definition normalizeSeparators : string → string :=
  JS.mapChars (λ c, if Ascii.eqb c "\" then "/"%char else c).

(** The orchestrator's [getMimeType] (no leading dot in its keys). *)
Definition getMimeType (filename : string) : MimeType :=
  let ext := JS.toLowerCase <$> JS.pop (JS.split "." filename) in
  let mimeTypes :=
    [ ("js", "application/javascript");
      ("wasm", "application/wasm");
      ("json", "application/json");
      ("map", "application/json");
      ("css", "text/css");
      ("html", "text/html");
      ("txt", "text/plain");
      ("md", "text/markdown") ] in
  let key := JS.orElse ext "" in
  match Build.lookupTable mimeTypes key with
  | Some m => Mime (JS.orElse (Some m) "application/octet-stream")
  | None =>
      if JS.inheritedKey key then InheritedMember key
      else Mime "application/octet-stream"
  end.

Definition generateDeploymentId (w : World) : string :=
  let timestamp := now_ms w in
  let random := String.substring 2 6 (random36 w) in
  "deploy_" +:+ pretty timestamp +:+ "_" +:+ random.

(** [{ ...DEFAULT_DEPLOYMENT_CONFIG, target: ..., environment: ... }] *)
Definition setIf (k : string) (v : option string) (config : Config) : Config :=
  match v with
  | Some s => if JS.truthy s then Json.objSet k (Json.JStr s) config else config
  | None => config
  end.

Section WithLibraries.
Context `{Crypto} `{JsonParser}.

Definition loadConfiguration (w : World) (options : DeploymentOptions)
    : Completion Config :=
  let config :=
    Json.objSet "environment"
      (Json.JStr (JS.orElse (opt_environment options) "production"))
      (Json.objSet "target"
         (Json.JStr (JS.orElse (opt_target options) "github-pages"))
         DEFAULT_DEPLOYMENT_CONFIG) in
  config ←
    match configFile options with
    | Some f =>
        if JS.truthy f && existsSync w f then
          match fs w f with
          | Some (File _ (Some text)) =>
              match JSON_parse text with
              | Some fileConfig => Return (Json.spread config fileConfig)
              | None => Throw "SyntaxError: the configuration file is not valid JSON"
              end
          | Some (Dir _) => Throw "EISDIR: illegal operation on a directory, read"
          | _ => Throw "the configuration file cannot be read"
          end
        else Return config
    | None => Return config
    end;
  let config := setIf "repository" (repository options) config in
  let config := setIf "branch" (branch options) config in
  let config := setIf "customDomain" (customDomain options) config in
  let config := setIf "baseUrl" (baseUrl options) config in
  if match Json.lookup "target" config with
     | Some (Json.JStr t) => String.eqb t "github-pages"
     | _ => false
     end && negb (Json.truthyOpt (Json.lookup "repository" config))
  then Throw "GitHub repository is required for GitHub Pages deployment"
  else Return config.

(** The mutable [files] and [totalSize] the scan closes over. *)
Record ScanState := {
  scan_files : list AssetFile;
  scan_totalSize : Z;
}.

(** The body of the [for] loop of [scanDirectory] for one entry
    found in directory [relativePath]; for a directory, the inner
    [fix] is the recursive call [scanDirectory(fullPath,
    relativeFilePath)] running over its entries.  The errors of
    [statSync] and [readFileSync] are told apart by their code; in
    their text Node names the full path, not the entry. *)
Fixpoint scanEntry (relativePath entry : string) (n : Node) (st : ScanState)
    : Completion ScanState :=
  let relativeFilePath := pathJoin relativePath entry in
  match n with
  | Broken => Throw ("ENOENT: no such file or directory, stat '" +:+ entry +:+ "'")
  | Dir entries =>
      (fix scanDirectory (es : list (string * Node)) (st : ScanState)
         : Completion ScanState :=
         match es with
         | [] => Return st
         | (e, n') :: rest =>
             st' ← scanEntry relativeFilePath e n' st;
             scanDirectory rest st'
         end) entries st
  | File size content =>
      match content with
      | None => Throw ("EACCES: permission denied, open '" +:+ entry +:+ "'")
      | Some content =>
          let hash := sha384_hex content in
          Return {| scan_files := scan_files st ++
                      [ {| path := normalizeSeparators relativeFilePath;
                           content := content;
                           mimeType := getMimeType entry;
                           size := size;
                           hash := hash |} ];
                    scan_totalSize := scan_totalSize st + size |}
      end
  | Other => Return st
  end.

(** [scanDirectory(dir, relativePath)] over the listing of [dir]. *)
Fixpoint scanDirectory (relativePath : string) (es : list (string * Node))
    (st : ScanState) : Completion ScanState :=
  match es with
  | [] => Return st
  | (e, n) :: rest =>
      st' ← scanEntry relativePath e n st;
      scanDirectory relativePath rest st'
  end.

Definition childNamed (name : string) (es : list (string * Node)) : option Node :=
  snd <$> find (λ kv, String.eqb (fst kv) name) es.

Definition prepareAssetBundle (w : World) (assetsDir : string)
    : Completion AssetBundle :=
  if negb (existsSync w assetsDir)
  then Throw ("Assets directory not found: " +:+ assetsDir)
  else
    match fs w assetsDir with
    | Some (Dir entries) =>
        st ← scanDirectory "" entries {| scan_files := []; scan_totalSize := 0 |};
        manifest ←
          match childNamed "manifest.json" entries with
          | None | Some Broken => Return (Json.JObj [])
          | Some (File _ (Some text)) =>
              match JSON_parse text with
              | Some m => Return m
              | None => Throw "SyntaxError: manifest.json is not valid JSON"
              end
          | Some (Dir _) => Throw "EISDIR: illegal operation on a directory, read"
          | Some _ => Throw "manifest.json cannot be read"
          end;
        Return {| files := scan_files st;
                  manifest := manifest;
                  totalSize := scan_totalSize st;
                  metadata := {| meta_deploymentId := generateDeploymentId w;
                                 meta_timestamp := now_iso w;
                                 meta_target := "unknown";
                                 meta_environment := "production" |} |}
    | _ => Throw ("ENOTDIR: not a directory, scandir '" +:+ assetsDir +:+ "'")
    end.

(** The key [groupAssetsByType] files an asset under. *)
Definition assetType (file : AssetFile) : string :=
  let ext := JS.orElse (JS.toLowerCase <$> JS.pop (JS.split "." (path file))) "unknown" in
  if String.eqb ext "js" then "JavaScript"
  else if String.eqb ext "wasm" then "WebAssembly"
  else if String.eqb ext "json" then "JSON"
  else if String.eqb ext "map" then "Source Maps"
  else ext.

(** [groups[type].push(file)] after [if (!groups[type]) groups[type]
    = []]: for a key the object inherits, [groups[type]] is the
    inherited member, the array is not created, and the call of its
    missing [push] throws a [TypeError].  The groups are kept in the
    order their keys were made (an object lists keys that are array
    indices first). *)
Fixpoint addToGroup (type : string) (file : AssetFile)
    (groups : list (string * list AssetFile)) : list (string * list AssetFile) :=
  match groups with
  | [] => [(type, [file])]
  | (k, fs) :: rest =>
      if String.eqb k type then (k, fs ++ [file]) :: rest
      else (k, fs) :: addToGroup type file rest
  end.

Definition groupStep (groups : list (string * list AssetFile)) (file : AssetFile)
    : Completion (list (string * list AssetFile)) :=
  let type := assetType file in
  if JS.inheritedKey type
  then Throw "TypeError: groups[type].push is not a function"
  else Return (addToGroup type file groups).

Fixpoint groupFiles (files : list AssetFile)
    (groups : list (string * list AssetFile))
    : Completion (list (string * list AssetFile)) :=
  match files with
  | [] => Return groups
  | f :: rest => groups' ← groupStep groups f; groupFiles rest groups'
  end.

Definition groupAssetsByType (files : list AssetFile)
    : Completion (list (string * list AssetFile)) :=
  groupFiles files [].

(** [printAssetSummary] writes to the console only; what matters to
    its caller is whether it returns. *)
Definition printAssetSummary (assets : AssetBundle) : Completion unit :=
  _ ← groupAssetsByType (files assets); Return tt.

(** [getDeploymentProvider]: the provider's name for a target that
    has one. *)
Definition getDeploymentProvider (config : Config) : Run string :=
  match Json.lookup "target" config with
  | Some (Json.JStr t) =>
      if String.eqb t "github-pages" then
        _ ← emit (ReadEnv "GITHUB_TOKEN");
        _ ← emit (ReadEnv "GIT_USERNAME");
        _ ← emit (ReadEnv "GIT_EMAIL");
        _ ← emit (ProviderCreated "github-pages");
        mret "github-pages"
      else if String.eqb t "cloudflare-pages" || String.eqb t "netlify"
              || String.eqb t "vercel"
      then lift (Throw ("Deployment target '" +:+ t +:+ "' is not yet implemented"))
      else lift (Throw ("Unknown deployment target: " +:+ t))
  | Some v => lift (Throw ("Unknown deployment target: " +:+ Json.toString v))
  | None => lift (Throw "Unknown deployment target: undefined")
  end.

Definition dryRunResult (config : Config) : DeploymentResult :=
  {| success := true;
     deploymentId := "dry-run";
     url := match Json.lookup "baseUrl" config with
            | Some v => if Json.truthy v then v else Json.JStr "https://example.com"
            | None => Json.JStr "https://example.com"
            end;
     logs := ["Dry run completed successfully"];
     metrics := None;
     error := None |}.

(** [CDNDeploymentOrchestrator.deploy] *)
Definition deploy (w : World) (options : DeploymentOptions)
    : Run DeploymentResult :=
  rcatch
    (config ← lift (loadConfiguration w options);
     assets ← lift (prepareAssetBundle w (JS.orElse (assetsDir options) "cdn/dist"));
     if match dryRun options with Some true => true | _ => false end then
       _ ← lift (printAssetSummary assets);
       mret (dryRunResult config)
     else
       provider ← getDeploymentProvider config;
       _ ← emit (ProviderCall m_testConnection);
       let connected := provider_testConnection w in
       if negb connected
       then lift (Throw "Failed to connect to deployment provider")
       else
         _ ← emit (ProviderCall m_deploy);
         let result := provider_deploy w assets in
         if negb (success result)
         then lift (Throw (JS.orElse (error result) "Deployment failed"))
         else
           _ ← (if match validate options with Some false => false | _ => true end
                then emit (ValidatorRun (url result))
                else mret tt);
           mret result)
    (λ error, _ ← emit (ConsoleError error); lift (Throw error)).

End WithLibraries.

End Deploy.

(** ** The provider base class's retry loop ([base-provider.ts]) *)

Module Provider.

(** What [withRetry] does, in order: it invokes the operation, warns
    through the logger after a failure, and sleeps. *)
Inductive RetryEvent :=
  | Invoke (attempt : nat)
  | Warn (attempt maxRetries : nat) (message : string)
  | Sleep (delay : Z).

(** [Math.min(1000 * Math.pow(2, attempt - 1), 10000)] *)
Definition backoffDelay (attempt : nat) : Z :=
  Z.min (1000 * 2 ^ (Z.of_nat attempt - 1)) 10000.

(** [this.options.retries || 3], the default of [maxRetries]. *)
Definition defaultMaxRetries (retries : option nat) : nat :=
  match retries with
  | Some (S n) => S n
  | _ => 3%nat
  end.

Section WithRetry.
Context {T : Type}.

(** The operation is a closure the loop calls afresh at every
    attempt; [operation k] is what its [k]-th call does: it resolves
    with a value or rejects with an error. *)
Variable operation : nat → Completion T.

(** The [for] loop, entered with [attempt] and [lastError]; [fuel]
    bounds the iterations left.  [throw lastError!] throws
    [undefined] when no attempt was made. *)
Fixpoint retryLoop (maxRetries fuel attempt : nat) (lastError : option string)
    : list RetryEvent * Completion T :=
  match fuel with
  | O => ([], Throw (default "undefined" lastError))
  | S fuel' =>
      if (attempt <=? maxRetries)%nat then
        match operation attempt with
        | Return v => ([Invoke attempt], Return v)
        | Throw error =>
            let pause :=
              if (attempt <? maxRetries)%nat
              then [Sleep (backoffDelay attempt)] else [] in
            let (events, outcome) :=
              retryLoop maxRetries fuel' (S attempt) (Some error) in
            ([Invoke attempt; Warn attempt maxRetries error] ++ pause ++ events,
             outcome)
        end
      else ([], Throw (default "undefined" lastError))
  end.

(** [withRetry(operation, maxRetries)]: the loop starts at attempt 1
    and makes at most [maxRetries] iterations. *)
Definition withRetry (maxRetries : nat) : list RetryEvent * Completion T :=
  retryLoop maxRetries maxRetries 1 None.

End WithRetry.

Definition invocations (events : list RetryEvent) : list nat :=
  omap (λ e, match e with Invoke k => Some k | _ => None end) events.

Definition sleeps (events : list RetryEvent) : list Z :=
  omap (λ e, match e with Sleep d => Some d | _ => None end) events.

End Provider.

(** ** The deployment validator ([validator.ts], [types.ts]) *)

Module Validator.

Inductive Status := passed | failed | warning.

#[global] Instance Status_eq_dec : EqDecision Status.
Proof. solve_decision. Defined.

Definition isPassed (s : Status) : bool :=
  match s with passed => true | _ => false end.
Definition isFailed (s : Status) : bool :=
  match s with failed => true | _ => false end.

(** [ValidationCheck] and [SecurityCheck]: the name and the status;
    the texts ([message], [details], [description],
    [recommendation]) are reports for a reader and are not modelled. *)
Record ValidationCheck := { name : string; status : Status }.
Record SecurityCheck := { sec_name : string; sec_status : Status }.

(** [PerformanceMetrics]: times in milliseconds, [-1] for a WASM load
    that could not be measured; [totalSize] is [None] where
    [parseInt] gives [NaN].  [pluginLoadTimes] (always empty) and the
    double [compressionRatio] are not modelled. *)
Record PerformanceMetrics := {
  loadTime : Z;
  wasmLoadTime : Z;
  totalSize : option Z;
}.

Record ValidationResult := {
  success : bool;
  checks : list ValidationCheck;
  performance : option PerformanceMetrics;
  security : list SecurityCheck;
}.

Record ValidatorOptions := {
  timeout : Z;
  retries : Z;
  strictMode : bool;
  skipSlowTests : bool;
  customChecks : list ValidationCheck;
}.

Definition defaultOptions : ValidatorOptions :=
  {| timeout := 30000; retries := 3; strictMode := false;
     skipSlowTests := false; customChecks := [] |}.

Definition ASSET_INTEGRITY : string := "asset-integrity".
Definition WASM_LOADING : string := "wasm-loading".
Definition PLUGIN_LOADING : string := "plugin-loading".
Definition CORS_HEADERS : string := "cors-headers".
Definition CACHE_HEADERS : string := "cache-headers".
Definition PERFORMANCE : string := "performance".
Definition SECURITY : string := "security".

(** A [Response]: [ok], [status], [headers.get(name)], and what
    [json()] resolves to ([None]: it rejects). *)
Record Response := {
  ok : bool;
  http_status : Z;
  headers : string → option string;
  json : option Json.t;
}.

(** The groups of checks [validateDeployment] runs, in its order. *)
Inductive Group :=
  | connectivity | assetGroup | wasmGroup | duckdbGroup | pluginGroup
  | securityGroup | performanceGroup.

#[global] Instance Group_eq_dec : EqDecision Group.
Proof. solve_decision. Defined.

(** The places of the validator that call [fetch].  One run reaches
    each place at most once (a loop's places are told apart by the
    element the loop is at), so the network's behaviour during a run
    is a function of the place. *)
Inductive Site :=
  | main_url | manifest_url | cors_probe | cache_probe
  | manifest_head | manifest_get | core_asset (assetPath : string)
  | wasm_file (wasmPath : string)
  | duckdb_config | duckdb_worker (asset : string) | duckdb_config_get
  | plugin_framework | plugin_directory
  | security_probe | sensitive_file (file : string)
  | perf_core | perf_wasm.

Definition groupOf (s : Site) : Group :=
  match s with
  | main_url | manifest_url | cors_probe | cache_probe => connectivity
  | manifest_head | manifest_get | core_asset _ => assetGroup
  | wasm_file _ => wasmGroup
  | duckdb_config | duckdb_worker _ | duckdb_config_get => duckdbGroup
  | plugin_framework | plugin_directory => pluginGroup
  | security_probe | sensitive_file _ => securityGroup
  | perf_core | perf_wasm => performanceGroup
  end.

(** The request a place makes for a deployment [url]: the method and
    the address.  [fetchWithTimeout] sends [HEAD]. *)
Definition request (url : string) (s : Site) : string * string :=
  match s with
  | main_url => ("HEAD", url)
  | manifest_url => ("HEAD", url +:+ "/manifest.json")
  | cors_probe => ("OPTIONS", url)
  | cache_probe => ("HEAD", url)
  | manifest_head => ("HEAD", url +:+ "/manifest.json")
  | manifest_get => ("GET", url +:+ "/manifest.json")
  | core_asset p => ("HEAD", url +:+ "/" +:+ p)
  | wasm_file p => ("HEAD", url +:+ "/" +:+ p)
  | duckdb_config => ("HEAD", url +:+ "/duckdb-config.json")
  | duckdb_worker a => ("HEAD", url +:+ "/" +:+ a)
  | duckdb_config_get => ("GET", url +:+ "/duckdb-config.json")
  | plugin_framework => ("HEAD", url +:+ "/plugin-framework.min.js")
  | plugin_directory => ("HEAD", url +:+ "/plugins/")
  | security_probe => ("HEAD", url)
  | sensitive_file f => ("HEAD", url +:+ "/" +:+ f)
  | perf_core => ("HEAD", url +:+ "/core.min.js")
  | perf_wasm => ("HEAD", url +:+ "/assets/dataprism-core.wasm")
  end.

(** The network and the clock during one run: what the fetch at each
    place does (it resolves with a response, or rejects: a network
    error, or the abort of the timeout), and the two differences of
    [Date.now()] the performance measurement takes. *)
Record World := {
  fetch : Site → Completion Response;
  elapsed_core : Z;
  elapsed_wasm : Z;
}.

(** A world in which the outcome of a fetch depends on the request
    alone. *)
Definition worldOf (net : string → string → Completion Response)
    (url : string) (t_core t_wasm : Z) : World :=
  {| fetch := λ s, let (method, address) := request url s in net method address;
     elapsed_core := t_core;
     elapsed_wasm := t_wasm |}.

Definition headerTruthy (h : option string) : bool :=
  match h with Some v => JS.truthy v | None => false end.

Section Checks.
Variable options : ValidatorOptions.
Variable w : World.
Variable url : string.

(** [fetchWithTimeout]: the response, or the error rethrown. *)
Definition fetchWithTimeout (s : Site) : Completion Response :=
  try_catch (fetch w s) (λ error, Throw error).

Definition checkUrlAccessible (s : Site) (label : string)
    : Completion ValidationCheck :=
  try_catch
    (response ← fetchWithTimeout s;
     Return {| name := "connectivity-" +:+ label;
               status := if ok response then passed else failed |})
    (λ error, Return {| name := "connectivity-" +:+ label; status := failed |}).

Definition checkCORSHeaders : Completion ValidationCheck :=
  try_catch
    (response ← fetch w cors_probe;
     let corsHeader := headers response "Access-Control-Allow-Origin" in
     Return {| name := CORS_HEADERS;
               status := if headerTruthy corsHeader then passed else warning |})
    (λ error, Return {| name := CORS_HEADERS; status := failed |}).

Definition checkCacheHeaders : Completion ValidationCheck :=
  try_catch
    (response ← fetchWithTimeout cache_probe;
     let cacheControl := headers response "Cache-Control" in
     Return {| name := CACHE_HEADERS;
               status := if headerTruthy cacheControl then passed else warning |})
    (λ error, Return {| name := CACHE_HEADERS; status := failed |}).

Definition runConnectivityChecks : Completion (list ValidationCheck) :=
  c1 ← checkUrlAccessible main_url "main-url";
  c2 ← checkUrlAccessible manifest_url "manifest";
  c3 ← checkCORSHeaders;
  c4 ← checkCacheHeaders;
  Return [c1; c2; c3; c4].

Definition fetchManifest : Completion Json.t :=
  response ← fetchWithTimeout manifest_head;
  if negb (ok response)
  then Throw ("Manifest not accessible: " +:+ pretty (http_status response))
  else
    getResponse ← fetch w manifest_get;
    match json getResponse with
    | Some manifest => Return manifest
    | None => Throw "SyntaxError: the manifest is not valid JSON"
    end.

Definition assetCheckName (assetPath : string) : string :=
  "asset-" +:+
  JS.mapChars
    (λ c, if JS.isLower c || JS.isUpper c || JS.isDigit c then c else "-"%char)
    assetPath.

Definition validateAsset (assetPath : string) (manifest : Json.t)
    : Completion ValidationCheck :=
  try_catch
    (response ← fetchWithTimeout (core_asset assetPath);
     Return {| name := assetCheckName assetPath;
               status := if ok response then passed else failed |})
    (λ error, Return {| name := assetCheckName assetPath; status := failed |}).

(** [manifest] is not [null] where this is called. *)
Definition validateAssetIntegrity (manifest : Json.t) : Completion ValidationCheck :=
  integrity ← Json.getProp manifest "integrity";
  match integrity with
  | Some i =>
      if negb (Json.truthy i) || (Json.keysLength i =? 0)%nat
      then Return {| name := "asset-integrity-hashes"; status := warning |}
      else Return {| name := "asset-integrity-hashes"; status := passed |}
  | None => Return {| name := "asset-integrity-hashes"; status := warning |}
  end.

Definition coreAssets : list string :=
  ["core.min.js"; "orchestration.min.js"; "plugin-framework.min.js"].

Definition runAssetValidation : Completion (list ValidationCheck) :=
  try_catch
    (manifest ← fetchManifest;
     _ ← Json.getProp manifest "assets";
     let checks := [ {| name := ASSET_INTEGRITY; status := passed |} ] in
     assetChecks ← mapM (λ asset, validateAsset asset manifest) coreAssets;
     integrityCheck ← validateAssetIntegrity manifest;
     Return (checks ++ assetChecks ++ [integrityCheck]))
    (λ error, Return [ {| name := ASSET_INTEGRITY; status := failed |} ]).

Definition wasmUrls : list string :=
  ["assets/dataprism-core.wasm"; "assets/dataprism_core_bg.wasm"].

(** The [for] loop over [wasmUrls]: the checks pushed, and
    [wasmFound]. *)
Fixpoint wasmLoop (paths : list string) : list ValidationCheck * bool :=
  match paths with
  | [] => ([], false)
  | p :: rest =>
      match fetchWithTimeout (wasm_file p) with
      | Return response =>
          if ok response then
            let contentType := headers response "Content-Type" in
            let correctMime :=
              match contentType with
              | Some ct => String.eqb ct "application/wasm"
              | None => false
              end in
            let coep := headers response "Cross-Origin-Embedder-Policy" in
            let coop := headers response "Cross-Origin-Opener-Policy" in
            ([ {| name := WASM_LOADING;
                  status := if correctMime then passed else warning |};
               {| name := "wasm-streaming-headers";
                  status := if headerTruthy coep && headerTruthy coop
                            then passed else warning |} ],
             true)
          else wasmLoop rest
      | Throw _ => wasmLoop rest
      end
  end.

Definition runWasmValidation : Completion (list ValidationCheck) :=
  try_catch
    (let (checks, wasmFound) := wasmLoop wasmUrls in
     Return (checks ++
             if negb wasmFound
             then [ {| name := WASM_LOADING; status := warning |} ]
             else []))
    (λ error, Return [ {| name := WASM_LOADING; status := failed |} ]).

Definition duckdbAssets : list string :=
  [ "assets/duckdb-browser-mvp.worker.js";
    "assets/duckdb-browser-eh.worker.js";
    "assets/duckdb-browser-coi.worker.js";
    "assets/duckdb-browser-coi.pthread.worker.js" ].

(** [asset.split('/').pop()?.replace('.', '-')] in a template. *)
Definition workerSuffix (asset : string) : string :=
  match JS.pop (JS.split "/" asset) with
  | Some s => JS.replaceFirst "." "-" s
  | None => "undefined"
  end.

(** The [for] loop over [duckdbAssets]: the checks pushed and
    [foundAssets]. *)
Fixpoint duckdbLoop (assets : list string) : list ValidationCheck * Z :=
  match assets with
  | [] => ([], 0)
  | asset :: rest =>
      let (checks, found) := duckdbLoop rest in
      match fetchWithTimeout (duckdb_worker asset) with
      | Return response =>
          if ok response
          then ({| name := "duckdb-asset-" +:+ workerSuffix asset;
                   status := passed |} :: checks, found + 1)
          else (checks, found)
      | Throw _ =>
          ({| name := "duckdb-worker-" +:+ workerSuffix asset;
              status := warning |} :: checks, found)
      end
  end.

(** The inner [try] block that reads [duckdb-config.json]. *)
Definition duckdbConfigChecks : Completion (list ValidationCheck) :=
  try_catch
    (configResponse ← fetch w duckdb_config_get;
     config ← match json configResponse with
              | Some c => Return c
              | None => Throw "SyntaxError: the configuration is not valid JSON"
              end;
     hybrid ← Json.getProp config "hybrid";
     baseUrl ← Json.getProp config "baseUrl";
     workers ← Json.getProp config "workers";
     assets ← Json.getProp config "assets";
     bundles ← Json.getProp config "bundles";
     let isHybrid := match hybrid with Some (Json.JBool true) => true | _ => false end in
     let hasValidStructure :=
       match baseUrl with
       | Some _ =>
           if isHybrid then Json.truthyOpt workers
           else Json.truthyOpt assets && Json.truthyOpt bundles
       | None => false
       end in
     Return
       ([ {| name := "duckdb-config-validation";
             status := if hasValidStructure then passed else failed |} ]
        ++ if isHybrid && Json.truthyOpt workers
           then [ {| name := "duckdb-hybrid-config"; status := passed |} ]
           else []))
    (λ error, Return [ {| name := "duckdb-config-validation"; status := failed |} ]).

Definition runDuckDBValidation : Completion (list ValidationCheck) :=
  try_catch
    (configCheck ← checkUrlAccessible duckdb_config "duckdb-config";
     let checks := [ {| name := "duckdb-config"; status := status configCheck |} ] in
     let (workerChecks, foundAssets) := duckdbLoop duckdbAssets in
     let hybridCheck :=
       {| name := "duckdb-hybrid-deployment";
          status := if 3 <=? foundAssets then passed else warning |} in
     configChecks ←
       (if isPassed (status configCheck) then duckdbConfigChecks else Return []);
     Return (checks ++ workerChecks ++ [hybridCheck] ++ configChecks))
    (λ error, Return [ {| name := "duckdb-validation-error"; status := failed |} ]).

Definition pluginDirectoryCheck : Completion ValidationCheck :=
  try_catch
    (pluginDirResponse ← fetchWithTimeout plugin_directory;
     Return {| name := "plugin-directory";
               status := if ok pluginDirResponse then passed else warning |})
    (λ error, Return {| name := "plugin-directory"; status := warning |}).

Definition runPluginValidation : Completion (list ValidationCheck) :=
  try_catch
    (response ← fetchWithTimeout plugin_framework;
     let check := {| name := PLUGIN_LOADING;
                     status := if ok response then passed else failed |} in
     dirCheck ← pluginDirectoryCheck;
     Return [check; dirCheck])
    (λ error, Return [ {| name := PLUGIN_LOADING; status := failed |} ]).

Definition sensitiveFiles : list string :=
  [".env"; "config.json"; "secrets.json"; ".git/config"].

(** The [for] loop of [checkSensitiveInfoExposure]: [true] when it
    returns from inside, at an exposed file. *)
Fixpoint sensitiveLoop (files : list string) : bool :=
  match files with
  | [] => false
  | file :: rest =>
      match fetchWithTimeout (sensitive_file file) with
      | Return response => if ok response then true else sensitiveLoop rest
      | Throw _ => sensitiveLoop rest
      end
  end.

Definition checkSensitiveInfoExposure : Completion SecurityCheck :=
  try_catch
    (if sensitiveLoop sensitiveFiles
     then Return {| sec_name := "sensitive-info-exposure"; sec_status := failed |}
     else Return {| sec_name := "sensitive-info-exposure"; sec_status := passed |})
    (λ error, Return {| sec_name := "sensitive-info-exposure"; sec_status := warning |}).

(** The expected security headers: the name and the accepted
    values (one for a string, several for an array). *)
Definition securityHeaders : list (string * list string) :=
  [ ("X-Content-Type-Options", ["nosniff"]);
    ("X-Frame-Options", ["DENY"; "SAMEORIGIN"]);
    ("X-XSS-Protection", ["1; mode=block"]);
    ("Cross-Origin-Embedder-Policy", ["require-corp"]);
    ("Cross-Origin-Opener-Policy", ["same-origin"]) ].

Definition securityHeaderCheck (response : Response)
    (h : string * list string) : SecurityCheck :=
  let (headerName, expectedValue) := h in
  let actualValue := headers response headerName in
  let isValid :=
    match actualValue with
    | Some v => existsb (String.eqb v) expectedValue
    | None => false
    end in
  {| sec_name := "security-header-" +:+ JS.toLowerCase headerName;
     sec_status := if headerTruthy actualValue
                   then (if isValid then passed else warning)
                   else failed |}.

Definition runSecurityValidation : Completion (list SecurityCheck) :=
  try_catch
    (response ← fetchWithTimeout security_probe;
     let headerChecks := map (securityHeaderCheck response) securityHeaders in
     let httpsCheck :=
       {| sec_name := "https-enforcement";
          sec_status := if JS.startsWith url "https://" then passed else failed |} in
     sensitive ← checkSensitiveInfoExposure;
     Return (headerChecks ++ [httpsCheck; sensitive]))
    (λ error, Return [ {| sec_name := "security-validation-error";
                          sec_status := failed |} ]).

(** [parseInt(s)] of a header value: optional blanks and sign,
    then the digits, hexadecimal after a [0x] or [0X] and decimal
    otherwise; [None] ([NaN]) without a digit.  (The value is exact
    up to [2^53]; a longer number JavaScript rounds to a double.) *)
Fixpoint digitsPrefix (s : string) (acc : option Z) : option Z :=
  match s with
  | String c s' =>
      if JS.isDigit c
      then digitsPrefix s' (Some (10 * default 0 acc + (Z.of_N (N_of_ascii c) - 48)))
      else acc
  | EmptyString => acc
  end.
Definition hexValue (c : ascii) : option Z :=
  let n := Z.of_N (N_of_ascii c) in
  if JS.isDigit c then Some (n - 48)
  else if (97 <=? n) && (n <=? 102) then Some (n - 87)
  else if (65 <=? n) && (n <=? 70) then Some (n - 55)
  else None.
Fixpoint hexPrefix (s : string) (acc : option Z) : option Z :=
  match s with
  | String c s' =>
      match hexValue c with
      | Some d => hexPrefix s' (Some (16 * default 0 acc + d))
      | None => acc
      end
  | EmptyString => acc
  end.
Definition unsignedPrefix (s : string) : option Z :=
  match s with
  | String c (String x s') =>
      if Ascii.eqb c "0" && (Ascii.eqb x "x" || Ascii.eqb x "X")
      then hexPrefix s' None
      else digitsPrefix s None
  | _ => digitsPrefix s None
  end.
Fixpoint parseInt (s : string) : option Z :=
  match s with
  | String c s' =>
      if Ascii.is_space c then parseInt s'
      else if Ascii.eqb c "-" then Z.opp <$> unsignedPrefix s'
      else if Ascii.eqb c "+" then unsignedPrefix s'
      else unsignedPrefix s
  | EmptyString => None
  end.

(** [measurePerformance]: the metrics start at zero and are filled
    in as far as the [try] block gets. *)
Definition measurePerformance : Completion PerformanceMetrics :=
  match fetchWithTimeout perf_core with
  | Return coreResponse =>
      let loadTime := elapsed_core w in
      let contentLength := headers coreResponse "Content-Length" in
      let totalSize :=
        if headerTruthy contentLength
        then parseInt (default "" contentLength) else Some 0 in
      let wasmLoadTime :=
        match fetchWithTimeout perf_wasm with
        | Return _ => elapsed_wasm w
        | Throw _ => -1
        end in
      Return {| loadTime := loadTime; wasmLoadTime := wasmLoadTime;
                totalSize := totalSize |}
  | Throw _ =>
      Return {| loadTime := 0; wasmLoadTime := 0; totalSize := Some 0 |}
  end.

Definition validatePerformanceMetrics (performance : PerformanceMetrics)
    : list ValidationCheck :=
  (if 0 <? loadTime performance
   then [ {| name := PERFORMANCE;
             status := if loadTime performance <? 5000 then passed else warning |} ]
   else [])
  ++
  (if 0 <? wasmLoadTime performance
   then [ {| name := "performance-wasm-load";
             status := if wasmLoadTime performance <? 2000
                       then passed else warning |} ]
   else []).

Definition determineOverallSuccess (checks : list ValidationCheck)
    (security : list SecurityCheck) : bool :=
  if strictMode options then
    forallb (λ check, isPassed (status check)) checks &&
    forallb (λ check, isPassed (sec_status check)) security
  else
    forallb (λ check, negb (isFailed (status check))) checks &&
    forallb (λ check, negb (isFailed (sec_status check))) security.

(** The locals of [validateDeployment] its [catch] block still
    sees. *)
Record Locals := {
  l_checks : list ValidationCheck;
  l_performance : option PerformanceMetrics;
  l_security : list SecurityCheck;
}.

(** The [catch] block of [validateDeployment]. *)
Definition validationError (l : Locals) (error : string)
    : Completion ValidationResult :=
  Return {| success := false;
            checks := l_checks l ++ [ {| name := "validation-error"; status := failed |} ];
            performance := l_performance l;
            security := l_security l |}.

(** One awaited statement of the [try] block: its value goes on, an
    error goes to the [catch] block with the locals as they are. *)
Definition step {X} (l : Locals) (c : Completion X)
    (k : X → Completion ValidationResult) : Completion ValidationResult :=
  match c with
  | Return x => k x
  | Throw error => validationError l error
  end.

Definition pushChecks (l : Locals) (cs : list ValidationCheck) : Locals :=
  {| l_checks := l_checks l ++ cs;
     l_performance := l_performance l;
     l_security := l_security l |}.

Definition validateDeployment : Completion ValidationResult :=
  let l := {| l_checks := []; l_performance := None; l_security := [] |} in
  step l runConnectivityChecks (λ cs,
  let l := pushChecks l cs in
  step l runAssetValidation (λ cs,
  let l := pushChecks l cs in
  step l runWasmValidation (λ cs,
  let l := pushChecks l cs in
  step l runDuckDBValidation (λ cs,
  let l := pushChecks l cs in
  step l runPluginValidation (λ cs,
  let l := pushChecks l cs in
  step l runSecurityValidation (λ security,
  let l := {| l_checks := l_checks l; l_performance := l_performance l;
              l_security := security |} in
  step l (if negb (skipSlowTests options)
          then (p ← measurePerformance; Return (Some p)) else Return None) (λ performance,
  let l := {| l_checks := l_checks l ++
                from_option validatePerformanceMetrics [] performance;
              l_performance := performance;
              l_security := l_security l |} in
  let l := if (0 <? length (customChecks options))%nat
           then pushChecks l (customChecks options) else l in
  let success := determineOverallSuccess (l_checks l) (l_security l) in
  Return {| success := success;
            checks := l_checks l;
            performance := l_performance l;
            security := l_security l |}))))))).

End Checks.

End Validator.

(** ** The validations every provider runs ([base-provider.ts]) and the
       GitHub Pages provider's own ([github-pages.ts]) *)

Module ProviderValidation.
Import Validator.

(** The places of [GitHubPagesProvider.validate] and of the base
    class's validations that call [fetch]; one run reaches each at
    most once.  Where the address is made with [new URL(path, url)],
    inside the same [try] block as the fetch, a URL that cannot be
    parsed is an error thrown at that place. *)
Inductive Site :=
  | connectivity_probe | cors_options | cache_get | wasm_get | security_get
  | nojekyll_get | timing_main | timing_wasm | manifest_get'
  | core_get (filename : string).

(** The network and the clock during one run. *)
Record World := {
  fetch : Site → Completion Response;
  elapsed_main : Z;
  elapsed_wasm : Z;
}.

(** [PerformanceMetrics] as the base class fills it: [totalSize] is
    [None] where [parseInt] gives [NaN]; [estimated] tells the
    constant [compressionRatio] 0.7 of a measurement from the 0 of a
    failed one. *)
Record Metrics := {
  loadTime : Z;
  wasmLoadTime : Z;
  totalSize : option Z;
  estimated : bool;
}.

Record Result := {
  success : bool;
  checks : list ValidationCheck;
  performance : option Metrics;
}.

Section Checks.
Variable w : World.

Definition validateConnectivity : Completion ValidationCheck :=
  try_catch
    (response ← fetch w connectivity_probe;
     Return {| name := CORS_HEADERS;
               status := if ok response then passed else failed |})
    (λ error, Return {| name := "connectivity"; status := failed |}).

Definition validateCORSHeaders : Completion ValidationCheck :=
  try_catch
    (response ← fetch w cors_options;
     let corsHeader := headers response "Access-Control-Allow-Origin" in
     Return {| name := CORS_HEADERS;
               status := if headerTruthy corsHeader then passed else warning |})
    (λ error, Return {| name := CORS_HEADERS; status := failed |}).

Definition validateCacheHeaders : Completion ValidationCheck :=
  try_catch
    (response ← fetch w cache_get;
     let cacheControl := headers response "Cache-Control" in
     Return {| name := CACHE_HEADERS;
               status := if headerTruthy cacheControl then passed else warning |})
    (λ error, Return {| name := CACHE_HEADERS; status := failed |}).

Definition validateWasmLoading : Completion ValidationCheck :=
  try_catch
    (response ← fetch w wasm_get;
     if ok response then
       let contentType := headers response "Content-Type" in
       let isValidMime :=
         match contentType with
         | Some ct => String.eqb ct "application/wasm"
         | None => false
         end in
       Return {| name := WASM_LOADING;
                 status := if isValidMime then passed else warning |}
     else Return {| name := WASM_LOADING; status := warning |})
    (λ error, Return {| name := WASM_LOADING; status := failed |}).

Definition securityHeaderNames : list string :=
  [ "X-Content-Type-Options"; "X-Frame-Options"; "X-XSS-Protection";
    "Cross-Origin-Embedder-Policy"; "Cross-Origin-Opener-Policy" ].

(** [Object.entries(securityHeaders).filter(([key, value]) =>
    !value).map(([key]) => key)] *)
Definition missingHeaders (response : Response) : list string :=
  List.filter (λ key, negb (headerTruthy (headers response key))) securityHeaderNames.

Definition validateSecurityHeaders : Completion ValidationCheck :=
  try_catch
    (response ← fetch w security_get;
     Return {| name := SECURITY;
               status := if (length (missingHeaders response) =? 0)%nat
                         then passed else warning |})
    (λ error, Return {| name := SECURITY; status := failed |}).

(** [runCommonValidations]: the checks pushed so far stay in the
    array when a later validation throws. *)
Definition runCommonValidations : Completion (list ValidationCheck) :=
  let validationError (checks : list ValidationCheck) :=
    Return (checks ++ [ {| name := "validation-error"; status := failed |} ]) in
  match validateConnectivity with
  | Throw _ => validationError []
  | Return c1 =>
  match validateCORSHeaders with
  | Throw _ => validationError [c1]
  | Return c2 =>
  match validateCacheHeaders with
  | Throw _ => validationError [c1; c2]
  | Return c3 =>
  match validateWasmLoading with
  | Throw _ => validationError [c1; c2; c3]
  | Return c4 =>
  match validateSecurityHeaders with
  | Throw _ => validationError [c1; c2; c3; c4]
  | Return c5 => Return [c1; c2; c3; c4; c5]
  end end end end end.

(** The base class's [measurePerformance]. *)
Definition measurePerformance : Completion Metrics :=
  try_catch
    (response ← fetch w timing_main;
     let loadTime := elapsed_main w in
     let contentLength := headers response "Content-Length" in
     let totalSize :=
       if headerTruthy contentLength
       then parseInt (default "" contentLength) else Some 0 in
     let wasmLoadTime :=
       match fetch w timing_wasm with
       | Return _ => elapsed_wasm w
       | Throw _ => 0
       end in
     Return {| loadTime := loadTime; wasmLoadTime := wasmLoadTime;
               totalSize := totalSize; estimated := true |})
    (λ error, Return {| loadTime := -1; wasmLoadTime := -1;
                        totalSize := Some 0; estimated := false |}).

Definition validateGitHubPagesSpecific : Completion ValidationCheck :=
  try_catch
    (nojekyllResponse ← fetch w nojekyll_get;
     Return {| name := "github-pages-config";
               status := if ok nojekyllResponse then passed else warning |})
    (λ error, Return {| name := "github-pages-config"; status := failed |}).

(** [`/${coreAsset.filename}`] for a truthy [coreAsset]. *)
Definition coreFilename (coreAsset : Json.t) : string :=
  match coreAsset with
  | Json.JObj props =>
      match Json.lookup "filename" props with
      | Some v => Json.toString v
      | None => "undefined"
      end
  | _ => "undefined"
  end.

(** The provider's [validateAssetIntegrity]. *)
Definition validateAssetIntegrity : Completion ValidationCheck :=
  try_catch
    (manifestResponse ← fetch w manifest_get';
     if negb (ok manifestResponse)
     then Return {| name := "asset-integrity"; status := warning |}
     else
       manifest ← match json manifestResponse with
                  | Some m => Return m
                  | None => Throw "SyntaxError: the manifest is not valid JSON"
                  end;
       assets ← Json.getProp manifest "assets";
       let coreAsset :=
         match assets with
         | Some (Json.JObj props) => Json.lookup "core" props
         | _ => None
         end in
       match coreAsset with
       | Some core =>
           if Json.truthy core then
             assetResponse ← fetch w (core_get (coreFilename core));
             Return {| name := "asset-integrity";
                       status := if ok assetResponse then passed else failed |}
           else Return {| name := "asset-integrity"; status := passed |}
       | None => Return {| name := "asset-integrity"; status := passed |}
       end)
    (λ error, Return {| name := "asset-integrity"; status := failed |}).

(** [GitHubPagesProvider.validate]: [checks] and [performance] are
    what the [catch] block finds. *)
Definition validate : Completion Result :=
  let validationError (checks : list ValidationCheck) (performance : option Metrics) :=
    Return {| success := false;
              checks := checks ++ [ {| name := "validation-error"; status := failed |} ];
              performance := performance |} in
  match runCommonValidations with
  | Throw _ => validationError [] None
  | Return commonChecks =>
  match validateGitHubPagesSpecific with
  | Throw _ => validationError commonChecks None
  | Return pagesCheck =>
  match measurePerformance with
  | Throw _ => validationError (commonChecks ++ [pagesCheck]) None
  | Return performance =>
  match validateAssetIntegrity with
  | Throw _ =>
      validationError (commonChecks ++ [pagesCheck]) (Some performance)
  | Return integrityCheck =>
      let checks := commonChecks ++ [pagesCheck] ++ [integrityCheck] in
      Return {| success := forallb (λ check, negb (isFailed (status check))) checks;
                checks := checks;
                performance := Some performance |}
  end end end end.

End Checks.

End ProviderValidation.

(** ** The GitHub Pages provider ([providers/github-pages.ts]) *)

(** [path.join] and [path.dirname]: library code of Node; the model is
    parametric in them. *)
Class PathLib := {
  path_join : list string → string;
  path_dirname : string → string;
}.

Module GitHubPages.

(** A property of an options object that has a default: it is
    absent, or given with a value that may be [undefined] (a given
    [undefined] overrides the default in [{ ...defaults, ...options }]). *)
Inductive Field (A : Type) :=
  | Absent
  | Given (value : option A).
Arguments Absent {A}.
Arguments Given {A} value.

(** What calling each configured hook does. *)
Record Hooks := {
  beforeDeploy : option (Completion unit);
  afterDeploy : option (Completion unit);
  onError : option (Completion unit);
}.

Definition noHooks : Hooks :=
  {| beforeDeploy := None; afterDeploy := None; onError := None |}.

(** [GitHubPagesOptions], with the values of the types its interface
    declares. *)
Record GitHubPagesOptions := {
  repository : string;
  branch : Field string;
  token : option string;
  username : option string;
  email : option string;
  customDomain : option string;
  cname : Field bool;
  hooks : Hooks;
}.

(** [this.ghOptions] and [this.options.hooks] of a constructed
    provider. *)
Record Provider := {
  gh_repository : string;
  gh_branch : option string;
  gh_token : option string;
  gh_username : option string;
  gh_email : option string;
  gh_customDomain : option string;
  gh_cname : bool;
  gh_hooks : Hooks;
}.

(** The constructor: [{ branch: 'gh-pages', cname: true, ...options }]
    and the check of the repository. *)
Definition construct (options : GitHubPagesOptions) : Completion Provider :=
  let ghOptions :=
    {| gh_repository := repository options;
       gh_branch := match branch options with
                    | Absent => Some "gh-pages"
                    | Given value => value
                    end;
       gh_token := token options;
       gh_username := username options;
       gh_email := email options;
       gh_customDomain := customDomain options;
       gh_cname := match cname options with
                   | Absent => true
                   | Given value => default false value
                   end;
       gh_hooks := hooks options |} in
  if negb (JS.truthy (gh_repository ghOptions))
  then Throw "GitHub repository is required for GitHub Pages deployment"
  else Return ghOptions.

(** What is written to a file: text, or [JSON.stringify(v, null, 2)]. *)
Inductive Data :=
  | Text (s : string)
  | Stringified (v : Json.t).

(** What the provider does to the machine: [mkdirSync],
    [writeFileSync], [execSync] (with its [cwd], if one is given) and
    [rmSync]. *)
Inductive Action :=
  | MakeDir (path : string)
  | WriteFile (path : string) (data : Data)
  | Exec (command : string) (cwd : option string)
  | RemoveDir (path : string).

(** The surroundings of one call of [deploy]: the working directory,
    the environment variable, the readings of the clock and of
    [Math.random] in the order the call makes them, and the actions
    that throw, with their errors. *)
Record World := {
  process_cwd : string;
  GITHUB_TOKEN : option string;
  deploy_ms : Z;
  deploy_random : string;
  temp_ms : Z;
  temp_random : string;
  readme_date : string;
  commit_date : string;
  elapsed : Z;
  fails : Action → option string;
}.

(** Computations that act, push to the [logs] array, and return or
    throw. *)
Definition Run (A : Type) : Type := list Action * list string * Completion A.

Definition ret {A} (v : A) : Run A := ([], [], Return v).
Definition throw {A} (message : string) : Run A := ([], [], Throw message).
Definition bind {A B} (m : Run A) (k : A → Run B) : Run B :=
  match m with
  | (acts, logs, Return v) =>
      let '(acts', logs', r) := k v in (acts ++ acts', logs ++ logs', r)
  | (acts, logs, Throw e) => (acts, logs, Throw e)
  end.
Definition catch {A} (body : Run A) (handler : string → Run A) : Run A :=
  match body with
  | (acts, logs, Return v) => (acts, logs, Return v)
  | (acts, logs, Throw e) =>
      let '(acts', logs', r) := handler e in (acts ++ acts', logs ++ logs', r)
  end.
Definition pushLog (line : string) : Run unit := ([], [line], Return tt).
Definition perform (w : World) (a : Action) : Run unit :=
  ([a], [], match fails w a with Some e => Throw e | None => Return tt end).
Definition callHook (hook : option (Completion unit)) : Run unit :=
  match hook with
  | Some outcome => ([], [], outcome)
  | None => ret tt
  end.

#[local] Notation "x ⇐ m ;; k" := (bind m (λ x, k))
  (at level 100, m at next level, right associativity).
#[local] Notation "m ;;; k" := (bind m (λ _, k))
  (at level 100, right associativity).

Definition generateDeploymentId (ms : Z) (random36 : string) : string :=
  "deploy_" +:+ pretty ms +:+ "_" +:+ String.substring 2 6 random36.

Definition truthyOpt (v : option string) : bool :=
  match v with Some s => JS.truthy s | None => false end.

(** [`${v}`] for a value that may be [undefined]. *)
Definition text (v : option string) : string := default "undefined" v.

Definition getDeploymentUrl (gh : Provider) : string :=
  let parts := JS.split "/" (gh_repository gh) in
  let owner := parts !! 0%nat in
  let repo := parts !! 1%nat in
  if truthyOpt (gh_customDomain gh)
  then "https://" +:+ text (gh_customDomain gh)
  else "https://" +:+ text owner +:+ ".github.io/" +:+ text repo.

(** [config.k] in a template literal, and [config.branch || 'main']. *)
Definition configText (config : Deploy.Config) (k : string) : string :=
  match Json.lookup k config with
  | Some v => Json.toString v
  | None => "undefined"
  end.

Definition configBranch (config : Deploy.Config) : string :=
  match Json.lookup "branch" config with
  | Some v => if Json.truthy v then Json.toString v else "main"
  | None => "main"
  end.

Definition readme (w : World) (gh : Provider) (config : Deploy.Config) : string :=
  String.concat Build.nl
    [ "# DataPrism CDN Distribution";
      "";
      "This branch contains the CDN-optimized builds of DataPrism Core.";
      "";
      "## Deployment Info";
      "- Deployed: " +:+ readme_date w;
      "- Environment: " +:+ configText config "environment";
      "- Branch: " +:+ configBranch config;
      "";
      "## Usage";
      "";
      "```html";
      "<script type=" +:+ Build.dq +:+ "module" +:+ Build.dq +:+ ">";
      "  import { DataPrismEngine } from " +:+ Build.dq +:+ getDeploymentUrl gh
        +:+ "/core.min.js" +:+ Build.dq +:+ ";";
      "  ";
      "  const engine = new DataPrismEngine();";
      "  await engine.initialize();";
      "```";
      "";
      "## Files";
      "";
      "- `core.min.js` - Main DataPrism engine";
      "- `orchestration.min.js` - High-level orchestration APIs  ";
      "- `plugin-framework.min.js` - Plugin system";
      "- `assets/` - WebAssembly binaries and other assets";
      "- `manifest.json` - Asset manifest with integrity hashes";
      "";
      "Generated by DataPrism CDN deployment system.";
      "" ].

Definition headersFile : string :=
  String.concat Build.nl
    [ "/*";
      "  X-Content-Type-Options: nosniff";
      "  X-Frame-Options: DENY";
      "  X-XSS-Protection: 1; mode=block";
      "  Cross-Origin-Embedder-Policy: require-corp";
      "  Cross-Origin-Opener-Policy: same-origin";
      "";
      "*.wasm";
      "  Content-Type: application/wasm";
      "  Cache-Control: public, max-age=31536000, immutable";
      "";
      "*.js";
      "  Content-Type: application/javascript";
      "  Cache-Control: public, max-age=31536000, immutable";
      "";
      "manifest.json";
      "  Content-Type: application/json";
      "  Cache-Control: public, max-age=3600" ].

Section Methods.
Context `{PathLib}.
Variable w : World.
Variable gh : Provider.

Definition repoUrl : string := "https://github.com/" +:+ gh_repository gh +:+ ".git".

Definition testConnection : Run bool :=
  catch
    (perform w (Exec ("git ls-remote " +:+ repoUrl) None) ;;; ret true)
    (λ error, ret false).

Definition validateConfig : Run unit :=
  if negb (JS.truthy (gh_repository gh))
  then throw "GitHub repository is required"
  else if negb (truthyOpt (gh_token gh)) && negb (truthyOpt (GITHUB_TOKEN w))
  then throw "GitHub token is required (set GITHUB_TOKEN environment variable)"
  else
    hasAccess ⇐ testConnection ;;
    if negb hasAccess
    then throw "Cannot access GitHub repository - check token and repository name"
    else ret tt.

(** The body of the loop over [assets.files]. *)
Definition copyFile (tempDir : string) (file : Deploy.AssetFile) : Run unit :=
  let filePath := path_join [tempDir; Deploy.path file] in
  let fileDir := path_dirname filePath in
  perform w (MakeDir fileDir) ;;;
  perform w (WriteFile filePath (Text (Deploy.content file))).

Fixpoint copyFiles (tempDir : string) (files : list Deploy.AssetFile) : Run unit :=
  match files with
  | [] => ret tt
  | file :: rest => copyFile tempDir file ;;; copyFiles tempDir rest
  end.

Definition tempDirectory : string :=
  path_join [ process_cwd w; ".deploy-temp";
              generateDeploymentId (temp_ms w) (temp_random w) ].

Definition prepareDeploymentDirectory (assets : Deploy.AssetBundle) : Run string :=
  let tempDir := tempDirectory in
  perform w (MakeDir tempDir) ;;;
  copyFiles tempDir (Deploy.files assets) ;;;
  perform w (WriteFile (path_join [tempDir; "manifest.json"])
               (Stringified (Deploy.manifest assets))) ;;;
  ret tempDir.

Definition configureGitHubPages (deployDir : string) (config : Deploy.Config)
    : Run unit :=
  perform w (WriteFile (path_join [deployDir; ".nojekyll"]) (Text "")) ;;;
  (if truthyOpt (gh_customDomain gh) && gh_cname gh
   then perform w (WriteFile (path_join [deployDir; "CNAME"])
                     (Text (text (gh_customDomain gh))))
   else ret tt) ;;;
  perform w (WriteFile (path_join [deployDir; "README.md"])
               (Text (readme w gh config))) ;;;
  perform w (WriteFile (path_join [deployDir; "_headers"]) (Text headersFile)).

(** The address of the remote: with the token, where there is one. *)
Definition remoteUrl : string :=
  let token := if truthyOpt (gh_token gh) then gh_token gh else GITHUB_TOKEN w in
  if truthyOpt token
  then "https://" +:+ text token +:+ "@github.com/" +:+ gh_repository gh +:+ ".git"
  else repoUrl.

Definition commitMessage (deploymentId : string) : string :=
  "Deploy " +:+ deploymentId +:+ Build.nl +:+ Build.nl
  +:+ "Deployed: " +:+ commit_date w +:+ Build.nl
  +:+ "Deployment ID: " +:+ deploymentId.

Definition deployToGitHubPages (deployDir deploymentId : string) : Run string :=
  let branch := text (gh_branch gh) in
  let git command := perform w (Exec command (Some deployDir)) in
  git "git init" ;;;
  git ("git checkout -b " +:+ branch) ;;;
  (if truthyOpt (gh_username gh)
   then git ("git config user.name " +:+ Build.dq +:+ text (gh_username gh)
             +:+ Build.dq)
   else ret tt) ;;;
  (if truthyOpt (gh_email gh)
   then git ("git config user.email " +:+ Build.dq +:+ text (gh_email gh)
             +:+ Build.dq)
   else ret tt) ;;;
  git "git add ." ;;;
  git ("git commit -m " +:+ Build.dq +:+ commitMessage deploymentId +:+ Build.dq) ;;;
  git ("git remote add origin " +:+ remoteUrl) ;;;
  git ("git push --force origin " +:+ branch) ;;;
  ret (getDeploymentUrl gh).

Definition cleanupDeploymentDirectory (deployDir : string) : Run unit :=
  catch (perform w (RemoveDir deployDir)) (λ error, ret tt).

(** The [try] block of [deploy].  The [compressionRatio] of the
    metrics, a quotient of doubles that cannot throw, is not
    modelled. *)
Definition deployAttempt (assets : Deploy.AssetBundle) (config : Deploy.Config)
    (deploymentId : string) : Run Deploy.DeploymentResult :=
  callHook (beforeDeploy (gh_hooks gh)) ;;;
  pushLog "Validating deployment configuration..." ;;;
  validateConfig ;;;
  pushLog "Preparing deployment directory..." ;;;
  deployDir ⇐ prepareDeploymentDirectory assets ;;
  pushLog "Configuring GitHub Pages..." ;;;
  configureGitHubPages deployDir config ;;;
  pushLog "Deploying to GitHub Pages..." ;;;
  deploymentUrl ⇐ deployToGitHubPages deployDir deploymentId ;;
  pushLog "Cleaning up temporary files..." ;;;
  cleanupDeploymentDirectory deployDir ;;;
  callHook (afterDeploy (gh_hooks gh)) ;;;
  ret {| Deploy.success := true;
         Deploy.deploymentId := deploymentId;
         Deploy.url := Json.JStr deploymentUrl;
         Deploy.logs := [];
         Deploy.metrics :=
           Some {| Deploy.buildTime := 0;
                   Deploy.deployTime := elapsed w;
                   Deploy.totalFiles := Z.of_nat (length (Deploy.files assets));
                   Deploy.metrics_totalSize := Deploy.totalSize assets |};
         Deploy.error := None |}.

(** [deploy]: the actions made, and the result (an error thrown by
    the [onError] hook is the one thing that makes it throw).  The
    result's [logs] is the array the phases have pushed to. *)
Definition deploy (assets : Deploy.AssetBundle) (config : Deploy.Config)
    : list Action * Completion Deploy.DeploymentResult :=
  let deploymentId := generateDeploymentId (deploy_ms w) (deploy_random w) in
  match deployAttempt assets config deploymentId with
  | (acts, logs, Return result) =>
      (acts, Return {| Deploy.success := Deploy.success result;
                       Deploy.deploymentId := Deploy.deploymentId result;
                       Deploy.url := Deploy.url result;
                       Deploy.logs := logs;
                       Deploy.metrics := Deploy.metrics result;
                       Deploy.error := Deploy.error result |})
  | (acts, logs, Throw message) =>
      let result :=
        {| Deploy.success := false;
           Deploy.deploymentId := deploymentId;
           Deploy.url := Json.JStr "";
           Deploy.logs := logs ++ ["Deployment failed: " +:+ message];
           Deploy.metrics := None;
           Deploy.error := Some message |} in
      match onError (gh_hooks gh) with
      | Some (Throw hookError) => (acts, Throw hookError)
      | _ => (acts, Return result)
      end
  end.

(** The two stubs [rollback] calls. *)
Definition findPreviousDeploymentCommit (deploymentId : string)
    : Completion (option string) := Return None.

Definition resetToCommit (commit : string) : Completion unit :=
  Throw "Rollback not implemented for GitHub Pages".

Definition rollback (deploymentId : string) : Deploy.DeploymentResult :=
  let attempt :=
    previousCommit ← findPreviousDeploymentCommit deploymentId;
    match previousCommit with
    | Some commit =>
        if JS.truthy commit then
          _ ← resetToCommit commit;
          Return {| Deploy.success := true;
                    Deploy.deploymentId := "rollback_" +:+ deploymentId;
                    Deploy.url := Json.JStr (getDeploymentUrl gh);
                    Deploy.logs := [ "Rolled back to commit: " +:+ commit;
                                     "GitHub Pages will rebuild automatically" ];
                    Deploy.metrics := None;
                    Deploy.error := None |}
        else Throw ("Cannot find previous deployment to rollback from "
                    +:+ deploymentId)
    | None => Throw ("Cannot find previous deployment to rollback from "
                     +:+ deploymentId)
    end in
  match attempt with
  | Return result => result
  | Throw message =>
      {| Deploy.success := false;
         Deploy.deploymentId := "rollback_" +:+ deploymentId;
         Deploy.url := Json.JStr "";
         Deploy.logs := ["Rollback failed: " +:+ message];
         Deploy.metrics := None;
         Deploy.error := Some message |}
  end.

End Methods.

(** The options [getDeploymentProvider] gives the provider, for a
    configuration whose [repository], [branch] and [customDomain] are
    strings or missing (as in every configuration made without a
    configuration file): each property is given, also where its value
    is [undefined]. *)
Definition stringAt (config : Deploy.Config) (k : string) : option string :=
  match Json.lookup k config with
  | Some (Json.JStr s) => Some s
  | _ => None
  end.

Definition providerOptions (config : Deploy.Config) (env : string → option string)
    : GitHubPagesOptions :=
  {| repository := default "" (stringAt config "repository");
     branch := Given (stringAt config "branch");
     customDomain := stringAt config "customDomain";
     token := env "GITHUB_TOKEN";
     username := Some (JS.orElse (env "GIT_USERNAME") "github-actions[bot]");
     email := Some (JS.orElse (env "GIT_EMAIL")
                      "github-actions[bot]@users.noreply.github.com");
     cname := Absent;
     hooks := noHooks |}.

End GitHubPages.

(** ** The command line ([deploy.ts]: [parseArgs], [main] and the
       orchestrator's [validate] and [rollback]) *)

Module Cli.

(** A value [parseArgs] assigns: the next argument (a string, or
    [undefined] past the end of the arguments), or a boolean. *)
Inductive Value :=
  | VString (s : string)
  | VUndefined
  | VBool (b : bool).

(** The options object: its own properties, in insertion order. *)
Definition Options := list (string * Value).

Definition setOption (k : string) (v : Value) (options : Options) : Options :=
  JS.mapSet k v options.

(** [options.k]: none of the names read is inherited by [{}]. *)
Definition getOption (k : string) (options : Options) : option Value :=
  snd <$> find (λ kv, String.eqb kv.1 k) options.

Definition truthy (v : option Value) : bool :=
  match v with
  | Some (VString s) => JS.truthy s
  | Some (VBool b) => b
  | Some VUndefined | None => false
  end.

(** The [case] labels of the switch that take the next argument, with
    the property each assigns. *)
Definition valueOption (arg : string) : option string :=
  if String.eqb arg "--target" then Some "target"
  else if String.eqb arg "--environment" then Some "environment"
  else if String.eqb arg "--repository" then Some "repository"
  else if String.eqb arg "--branch" then Some "branch"
  else if String.eqb arg "--custom-domain" then Some "customDomain"
  else if String.eqb arg "--assets-dir" then Some "assetsDir"
  else if String.eqb arg "--config" then Some "configFile"
  else if String.eqb arg "--base-url" then Some "baseUrl"
  else None.

(** The [for] loop of [parseArgs] from argument [i] on: a label that
    takes a value assigns [args[i + 1]] and skips it. *)
Fixpoint parseLoop (args : list string) (options : Options) : Options :=
  match args with
  | [] => options
  | arg :: rest =>
      match valueOption arg with
      | Some key =>
          match rest with
          | [] => setOption key VUndefined options
          | nextArg :: rest' => parseLoop rest' (setOption key (VString nextArg) options)
          end
      | None =>
          if String.eqb arg "--dry-run"
          then parseLoop rest (setOption "dryRun" (VBool true) options)
          else if String.eqb arg "--no-validate"
          then parseLoop rest (setOption "validate" (VBool false) options)
          else if String.eqb arg "--force"
          then parseLoop rest (setOption "force" (VBool true) options)
          else parseLoop rest options
      end
  end.

Definition parseArgs (args : list string) : Options := parseLoop args [].

(** The options as the orchestrator's methods read them. *)
Definition stringOption (k : string) (options : Options) : option string :=
  match getOption k options with
  | Some (VString s) => Some s
  | _ => None
  end.

Definition boolOption (k : string) (options : Options) : option bool :=
  match getOption k options with
  | Some (VBool b) => Some b
  | _ => None
  end.

Definition deploymentOptions (options : Options) : Deploy.DeploymentOptions :=
  {| Deploy.opt_target := stringOption "target" options;
     Deploy.opt_environment := stringOption "environment" options;
     Deploy.dryRun := boolOption "dryRun" options;
     Deploy.validate := boolOption "validate" options;
     Deploy.force := boolOption "force" options;
     Deploy.configFile := stringOption "configFile" options;
     Deploy.assetsDir := stringOption "assetsDir" options;
     Deploy.baseUrl := stringOption "baseUrl" options;
     Deploy.repository := stringOption "repository" options;
     Deploy.branch := stringOption "branch" options;
     Deploy.customDomain := stringOption "customDomain" options |}.

(** What [main] goes on to do for the arguments [process.argv.slice(2)]:
    it prints the usage and exits with 0, calls a method of the
    orchestrator, or prints an error and exits with 1. *)
Inductive Command :=
  | ShowUsage
  | CallDeploy (options : Options)
  | CallValidate (url : string) (strict : option Value)
  | CallRollback (deploymentId : string) (options : Options)
  | CallList (options : Options)
  | ExitWithError (message : string).

Definition main (args : list string) : Command :=
  let command := args !! 0%nat in
  if negb (GitHubPages.truthyOpt command) then ShowUsage
  else
    let options := parseArgs (tail args) in
    let command := default "" command in
    if String.eqb command "deploy" then CallDeploy options
    else if String.eqb command "validate" then
      let url := args !! 1%nat in
      if negb (GitHubPages.truthyOpt url)
      then ExitWithError "URL is required for validation"
      else CallValidate (default "" url) (getOption "strict" options)
    else if String.eqb command "rollback" then
      let deploymentId := args !! 1%nat in
      if negb (GitHubPages.truthyOpt deploymentId)
      then ExitWithError "Deployment ID is required for rollback"
      else CallRollback (default "" deploymentId) options
    else if String.eqb command "list" then CallList options
    else ExitWithError ("Unknown command: " +:+ command).

(** [orchestrator.validate(url, { strict })]: a validator made with
    [strictMode: options.strict || false] and [timeout: 30000]. *)
Definition validatorOptions (strict : option Value) : Validator.ValidatorOptions :=
  {| Validator.timeout := 30000;
     Validator.retries := 3;
     Validator.strictMode := truthy strict;
     Validator.skipSlowTests := false;
     Validator.customChecks := [] |}.

Definition validate (w : Validator.World) (url : string) (strict : option Value)
    : Completion Validator.ValidationResult :=
  Validator.validateDeployment (validatorOptions strict) w url.

Section WithLibraries.
Context `{Crypto} `{JsonParser} `{PathLib}.

(** [orchestrator.rollback(deploymentId, options)]: the
    configuration is loaded, the provider is made, and its
    [rollback] is called. *)
Definition rollback (w : Deploy.World) (deploymentId : string)
    (options : Deploy.DeploymentOptions) : Completion Deploy.DeploymentResult :=
  config ← Deploy.loadConfiguration w options;
  _ ← (Deploy.getDeploymentProvider config).2;
  provider ← GitHubPages.construct
               (GitHubPages.providerOptions config (Deploy.env w));
  Return (GitHubPages.rollback provider deploymentId).

End WithLibraries.

End Cli.

(** ** The Jekyll plugin ([jekyll-plugin.ts]) *)

Module Jekyll.

(** [JekyllPluginOptions]: every property optional. *)
Record JekyllPluginOptions := {
  enabled : option bool;
  templateDir : option string;
  outDir : option string;
}.

(** The file system as [writeBundle] meets it: what exists, what
    reading a file gives, which action throws; and the directory
    [resolve(process.cwd(), 'tools/build/jekyll-templates')]. *)
Record World := {
  existsSync : string → bool;
  readFileSync : string → Completion string;
  fails : GitHubPages.Action → option string;
  defaultTemplateDir : string;
}.

(** The actions made, and the return or the error thrown. *)
Definition Run (A : Type) : Type := list GitHubPages.Action * Completion A.

Definition perform (w : World) (a : GitHubPages.Action) : Run unit :=
  ([a], match fails w a with Some e => Throw e | None => Return tt end).

Definition filesToCopy : list string := ["_config.yml"; ".nojekyll"; "index.html"].

(** The plugin's closure: the destructured options and the mutable
    [outputDir]. *)
Record Plugin := {
  p_enabled : bool;
  p_templateDir : string;
  p_outDir : string;
  outputDir : string;
}.

Section Plugin.
Context `{PathLib}.
Variable w : World.

(** [jekyllPlugin(options)]: a default stands in for an [undefined]
    property. *)
Definition jekyllPlugin (options : JekyllPluginOptions) : Plugin :=
  {| p_enabled := default true (enabled options);
     p_templateDir := default (defaultTemplateDir w) (templateDir options);
     p_outDir := default "cdn/dist" (outDir options);
     outputDir := default "cdn/dist" (outDir options) |}.

(** The [configResolved] hook, given [config.build.outDir]. *)
Definition configResolved (p : Plugin) (buildOutDir : option string) : Plugin :=
  {| p_enabled := p_enabled p;
     p_templateDir := p_templateDir p;
     p_outDir := p_outDir p;
     outputDir := JS.orElse buildOutDir (p_outDir p) |}.

(** The body of [filesToCopy.forEach]. *)
Definition copyTemplate (p : Plugin) (file : string) : Run unit :=
  let srcPath := path_join [p_templateDir p; file] in
  let destPath := path_join [outputDir p; file] in
  if existsSync w srcPath then
    match readFileSync w srcPath with
    | Return content => perform w (GitHubPages.WriteFile destPath (GitHubPages.Text content))
    | Throw error => ([], Throw error)
    end
  else ([], Return tt).

Fixpoint copyTemplates (p : Plugin) (files : list string) : Run unit :=
  match files with
  | [] => ([], Return tt)
  | file :: rest =>
      match copyTemplate p file with
      | (acts, Return _) =>
          let (acts', r) := copyTemplates p rest in (acts ++ acts', r)
      | (acts, Throw error) => (acts, Throw error)
      end
  end.

(** The [writeBundle] hook: its [catch] block logs the error and
    throws it again. *)
Definition writeBundle (p : Plugin) : Run unit :=
  if negb (p_enabled p) then ([], Return tt)
  else
    match (if negb (existsSync w (outputDir p))
           then perform w (GitHubPages.MakeDir (outputDir p))
           else ([], Return tt)) with
    | (acts, Return _) =>
        let (acts', r) := copyTemplates p filesToCopy in (acts ++ acts', r)
    | (acts, Throw error) => (acts, Throw error)
    end.

End Plugin.

End Jekyll.

(** ** Node's digests *)

Definition nodeCrypto : Crypto :=
  {| sha384_hex := Sha2.sha384; sha256_hex := Sha2.sha256 |}.

(** ** The hash functions on the standard's test messages *)

Example sha256_vectors :
  Sha2.sha256 "abc" = "ba7816bf8f01cfea414140de5dae2223b00361a396177a9cb410ff61f20015ad"
  ∧ Sha2.sha256 "" = "e3b0c44298fc1c149afbf4c8996fb92427ae41e4649b934ca495991b7852b855".
Proof. split; vm_compute; reflexivity. Qed.

Example sha384_vectors :
  Sha2.sha384 "abc"
    = "cb00753f45a35e8bb5a03d699ac65007272c32ab0eded1631a8b605a43ff5bed8086072ba1e7cc2358baeca134c825a7"
  ∧ Sha2.sha384 ""
    = "38b060a751ac96384cd9327eb1b1e36a21fdb71114be07434c0cc7bf63f6e1da274edebfe76f65fbd51ad2f14898b95b".
Proof. split; vm_compute; reflexivity. Qed.

(* ================================================================== *)
(** * Part II: properties                                              *)
(* ================================================================== *)

(** ** The validator: every group of checks returns *)

Section ValidatorReturns.
Import Validator.
Variable options : ValidatorOptions.
Variable w : World.
Variable url : string.

(** What [checkUrlAccessible] reports for the outcome of its fetch. *)
Definition accessStatus (c : Completion Response) : Status :=
  match c with
  | Return response => if ok response then passed else failed
  | Throw _ => failed
  end.

Lemma checkUrlAccessible_eq s label :
  checkUrlAccessible w s label =
  Return {| name := "connectivity-" +:+ label; status := accessStatus (fetch w s) |}.
Proof.
  unfold checkUrlAccessible, fetchWithTimeout, accessStatus.
  destruct (fetch w s) as [response|error]; reflexivity.
Qed.

Lemma checkCORSHeaders_returns :
  ∃ c, checkCORSHeaders w = Return c ∧ name c = CORS_HEADERS.
Proof.
  unfold checkCORSHeaders.
  destruct (fetch w cors_probe) as [response|error]; simpl; eauto.
Qed.

Lemma checkCacheHeaders_returns :
  ∃ c, checkCacheHeaders w = Return c ∧ name c = CACHE_HEADERS.
Proof.
  unfold checkCacheHeaders, fetchWithTimeout.
  destruct (fetch w cache_probe) as [response|error]; simpl; eauto.
Qed.

Lemma runConnectivityChecks_returns :
  ∃ cs, runConnectivityChecks w = Return cs ∧
        map name cs = ["connectivity-main-url"; "connectivity-manifest";
                       CORS_HEADERS; CACHE_HEADERS].
Proof.
  unfold runConnectivityChecks.
  rewrite !checkUrlAccessible_eq.
  destruct checkCORSHeaders_returns as (c3 & -> & E3).
  destruct checkCacheHeaders_returns as (c4 & -> & E4).
  simpl. eexists. split; [reflexivity|]. simpl. by rewrite E3, E4.
Qed.

Lemma validateAsset_returns assetPath manifest :
  ∃ c, validateAsset w assetPath manifest = Return c.
Proof.
  unfold validateAsset, fetchWithTimeout.
  destruct (fetch w (core_asset assetPath)); simpl; eauto.
Qed.

Lemma try_catch_total {A} (body : Completion A) (handler : string → Completion A) :
  (∀ e, ∃ v, handler e = Return v) → ∃ v, try_catch body handler = Return v.
Proof. intros Hh. destruct body as [v|e]; simpl; eauto. Qed.

Lemma runAssetValidation_returns : ∃ cs, runAssetValidation w = Return cs.
Proof. apply try_catch_total. eauto. Qed.

Lemma runWasmValidation_returns : ∃ cs, runWasmValidation w = Return cs.
Proof. apply try_catch_total. eauto. Qed.

Lemma runDuckDBValidation_returns : ∃ cs, runDuckDBValidation w = Return cs.
Proof. apply try_catch_total. eauto. Qed.

Lemma runPluginValidation_returns : ∃ cs, runPluginValidation w = Return cs.
Proof. apply try_catch_total. eauto. Qed.

Lemma runSecurityValidation_returns : ∃ cs, runSecurityValidation w url = Return cs.
Proof. apply try_catch_total. eauto. Qed.

Lemma measurePerformance_returns : ∃ p, measurePerformance w = Return p.
Proof.
  unfold measurePerformance. destruct (fetchWithTimeout w perf_core); eauto.
Qed.

End ValidatorReturns.

(** ** The validator: a group reads the network at its own places only *)

Lemma cbind_ext {A B} (m m' : Completion A) (k k' : A → Completion B) :
  m = m' → (∀ x, k x = k' x) → cbind m k = cbind m' k'.
Proof. intros -> Hk. destruct m'; simpl; auto. Qed.

Lemma try_catch_ext {A} (b b' : Completion A) (h h' : string → Completion A) :
  b = b' → (∀ e, h e = h' e) → try_catch b h = try_catch b' h'.
Proof. intros -> Hh. destruct b'; simpl; auto. Qed.

(** Two worlds agree on a group when the fetches at its places do the
    same and, for the performance group, the clock differences are the
    same. *)
Definition agreeOn (g : Validator.Group) (w w' : Validator.World) : Prop :=
  (∀ s, Validator.groupOf s = g → Validator.fetch w s = Validator.fetch w' s) ∧
  (g = Validator.performanceGroup →
     Validator.elapsed_core w = Validator.elapsed_core w' ∧
     Validator.elapsed_wasm w = Validator.elapsed_wasm w').

Ltac unfold_bind := cbv [mbind completion_bind mret completion_ret].

(** Rewrites the fetches of [w] into those of [w'] wherever the goal
    shows them, going under binds and handlers and splitting on a fetch
    the two sides inspect. *)
Ltac local_step w H :=
  match goal with
  | |- ?x = ?x => reflexivity
  | |- context [Validator.fetch w ?s] => rewrite (H s) by reflexivity
  | |- cbind _ _ = cbind _ _ => apply cbind_ext; [|intros]
  | |- try_catch _ _ = try_catch _ _ => apply try_catch_ext; [|intros]
  | |- match ?c with Return _ => _ | Throw _ => _ end = _ => destruct c
  | |- (let (_, _) := ?p in _) = _ => destruct p
  | |- (if ?b then _ else _) = _ => destruct b
  end.

Section ValidatorLocality.
Import Validator.
Variables w w' : World.

Lemma runConnectivityChecks_local :
  agreeOn connectivity w w' → runConnectivityChecks w = runConnectivityChecks w'.
Proof.
  intros [H _].
  unfold runConnectivityChecks, checkUrlAccessible, checkCORSHeaders,
    checkCacheHeaders, fetchWithTimeout.
  unfold_bind. repeat local_step w H.
Qed.

Lemma runAssetValidation_local :
  agreeOn assetGroup w w' → runAssetValidation w = runAssetValidation w'.
Proof.
  intros [H _].
  unfold runAssetValidation, fetchManifest, coreAssets, validateAsset, fetchWithTimeout.
  simpl. unfold_bind. repeat local_step w H.
Qed.

Lemma runWasmValidation_local :
  agreeOn wasmGroup w w' → runWasmValidation w = runWasmValidation w'.
Proof.
  intros [H _].
  unfold runWasmValidation, wasmUrls, fetchWithTimeout. simpl.
  unfold fetchWithTimeout. repeat local_step w H.
Qed.

Lemma runDuckDBValidation_local :
  agreeOn duckdbGroup w w' → runDuckDBValidation w = runDuckDBValidation w'.
Proof.
  intros [H _].
  unfold runDuckDBValidation, duckdbAssets, duckdbConfigChecks, checkUrlAccessible.
  simpl. unfold fetchWithTimeout. unfold_bind.
  rewrite !(H duckdb_config), !(H duckdb_config_get),
    !(H (duckdb_worker _)) by reflexivity.
  reflexivity.
Qed.

Lemma runPluginValidation_local :
  agreeOn pluginGroup w w' → runPluginValidation w = runPluginValidation w'.
Proof.
  intros [H _].
  unfold runPluginValidation, pluginDirectoryCheck, fetchWithTimeout.
  unfold_bind. repeat local_step w H.
Qed.

Lemma runSecurityValidation_local url :
  agreeOn securityGroup w w' →
  runSecurityValidation w url = runSecurityValidation w' url.
Proof.
  intros [H _].
  unfold runSecurityValidation, checkSensitiveInfoExposure, sensitiveFiles.
  simpl. unfold fetchWithTimeout. unfold_bind.
  rewrite !(H security_probe), !(H (sensitive_file _)) by reflexivity.
  reflexivity.
Qed.

Lemma measurePerformance_local :
  agreeOn performanceGroup w w' → measurePerformance w = measurePerformance w'.
Proof.
  intros [H [E1 E2]]; [reflexivity|].
  unfold measurePerformance, fetchWithTimeout.
  rewrite !(H perf_core), !(H perf_wasm), E1, E2 by reflexivity.
  reflexivity.
Qed.

End ValidatorLocality.

(** ** The validator: the result is the groups' outcomes put together *)

Section ValidatorResult.
Import Validator.

(** What a group that always returns has returned. *)
Definition outcome {A} (c : Completion (list A)) : list A :=
  match c with Return l => l | Throw _ => [] end.

(** The checks each group contributes to [result.checks]; the security
    group reports in [result.security]. *)
Definition groupChecks (options : ValidatorOptions) (w : World) (g : Group)
    : list ValidationCheck :=
  match g with
  | connectivity => outcome (runConnectivityChecks w)
  | assetGroup => outcome (runAssetValidation w)
  | wasmGroup => outcome (runWasmValidation w)
  | duckdbGroup => outcome (runDuckDBValidation w)
  | pluginGroup => outcome (runPluginValidation w)
  | securityGroup => []
  | performanceGroup =>
      if skipSlowTests options then []
      else match measurePerformance w with
           | Return p => validatePerformanceMetrics p
           | Throw _ => []
           end
  end.

Definition securityChecks (w : World) (url : string) : list SecurityCheck :=
  outcome (runSecurityValidation w url).

Definition throwsAt (w : World) (s : Site) : Prop :=
  ∃ error, fetch w s = Throw error.

(** The places whose fetch, when it throws, the code records as a
    failed check of its group whatever the other fetches do, with the
    name of that check. *)
Definition failedOnThrow (s : Site) : option string :=
  match s with
  | main_url => Some "connectivity-main-url"
  | manifest_url => Some "connectivity-manifest"
  | cors_probe => Some CORS_HEADERS
  | cache_probe => Some CACHE_HEADERS
  | manifest_head => Some ASSET_INTEGRITY
  | duckdb_config => Some "duckdb-config"
  | plugin_framework => Some PLUGIN_LOADING
  | _ => None
  end.

Variable options : ValidatorOptions.
Variable w : World.
Variable url : string.

Lemma validateDeployment_result :
  ∃ r, validateDeployment options w url = Return r
     ∧ checks r =
         groupChecks options w connectivity ++ groupChecks options w assetGroup
         ++ groupChecks options w wasmGroup ++ groupChecks options w duckdbGroup
         ++ groupChecks options w pluginGroup
         ++ groupChecks options w performanceGroup ++ customChecks options
     ∧ security r = securityChecks w url
     ∧ success r = determineOverallSuccess options (checks r) (security r).
Proof.
  unfold validateDeployment, securityChecks, groupChecks.
  destruct (runConnectivityChecks_returns w) as (c1 & -> & _).
  destruct (runAssetValidation_returns w) as (c2 & ->).
  destruct (runWasmValidation_returns w) as (c3 & ->).
  destruct (runDuckDBValidation_returns w) as (c4 & ->).
  destruct (runPluginValidation_returns w) as (c5 & ->).
  destruct (runSecurityValidation_returns w url) as (sec & ->).
  destruct (measurePerformance_returns w) as (p & ->).
  cbn [step outcome pushChecks l_checks l_security l_performance app].
  assert (Hcustom : ∀ l : Locals,
    l_checks (if (0 <? length (customChecks options))%nat
              then pushChecks l (customChecks options) else l)
    = l_checks l ++ customChecks options
    ∧ l_security (if (0 <? length (customChecks options))%nat
                  then pushChecks l (customChecks options) else l)
      = l_security l).
  { intros l. destruct (customChecks options) as [|c cs]; simpl.
    - by rewrite app_nil_r.
    - done. }
  destruct (skipSlowTests options); unfold_bind; cbn [negb cbind step from_option];
    eexists; (split; [reflexivity|]); cbn [checks security success];
    match goal with |- context [if _ then pushChecks ?l _ else _] =>
      destruct (Hcustom l) as [-> ->] end;
    cbn [l_checks l_security]; rewrite <- ?app_assoc;
    repeat split; try reflexivity.
Qed.

(** Where a place of [failedOnThrow] throws, its group has the failed
    check. *)
Lemma failedOnThrow_recorded s n :
  throwsAt w s → failedOnThrow s = Some n →
  {| name := n; status := failed |} ∈ groupChecks options w (groupOf s).
Proof.
  intros [error Hs] Hn.
  destruct s; simpl in Hn; simplify_eq; cbn [groupOf groupChecks].
  - (* main_url *)
    unfold runConnectivityChecks. rewrite !checkUrlAccessible_eq, Hs.
    destruct (checkCORSHeaders_returns w) as (c3 & -> & _).
    destruct (checkCacheHeaders_returns w) as (c4 & -> & _).
    simpl. set_solver.
  - (* manifest_url *)
    unfold runConnectivityChecks. rewrite !checkUrlAccessible_eq, Hs.
    destruct (checkCORSHeaders_returns w) as (c3 & -> & _).
    destruct (checkCacheHeaders_returns w) as (c4 & -> & _).
    simpl. set_solver.
  - (* cors_probe *)
    unfold runConnectivityChecks. rewrite !checkUrlAccessible_eq.
    unfold checkCORSHeaders. rewrite Hs.
    destruct (checkCacheHeaders_returns w) as (c4 & -> & _).
    simpl. set_solver.
  - (* cache_probe *)
    unfold runConnectivityChecks. rewrite !checkUrlAccessible_eq.
    destruct (checkCORSHeaders_returns w) as (c3 & -> & _).
    unfold checkCacheHeaders, fetchWithTimeout. rewrite Hs.
    simpl. set_solver.
  - (* manifest_head *)
    unfold runAssetValidation, fetchManifest, fetchWithTimeout. rewrite Hs.
    simpl. set_solver.
  - (* duckdb_config *)
    unfold runDuckDBValidation. rewrite checkUrlAccessible_eq, Hs.
    unfold_bind. cbn [cbind accessStatus status isPassed].
    destruct (duckdbLoop w duckdbAssets) as [workerChecks found].
    simpl. set_solver.
  - (* plugin_framework *)
    unfold runPluginValidation, fetchWithTimeout. rewrite Hs.
    simpl. set_solver.
Qed.

(** A security probe that throws leaves the one failed security
    check. *)
Lemma security_probe_throw :
  throwsAt w security_probe →
  securityChecks w url =
    [ {| sec_name := "security-validation-error"; sec_status := failed |} ].
Proof.
  intros [error Hs]. unfold securityChecks, runSecurityValidation, fetchWithTimeout.
  by rewrite Hs.
Qed.

(** When every WASM probe throws, the group reports one warning and
    no failure. *)
Lemma wasm_probes_throw :
  (∀ p, p ∈ wasmUrls → throwsAt w (wasm_file p)) →
  groupChecks options w wasmGroup = [ {| name := WASM_LOADING; status := warning |} ].
Proof.
  intros Hall. cbn [groupChecks].
  unfold runWasmValidation, wasmUrls. cbn [wasmLoop]. unfold fetchWithTimeout.
  destruct (Hall "assets/dataprism-core.wasm") as [e1 ->]; [set_solver|].
  cbn [try_catch].
  destruct (Hall "assets/dataprism_core_bg.wasm") as [e2 ->]; [set_solver|].
  reflexivity.
Qed.

(** A DuckDB worker probe that throws is reported as a warning. *)
Lemma duckdbLoop_throw assets a :
  a ∈ assets → throwsAt w (duckdb_worker a) →
  {| name := "duckdb-worker-" +:+ workerSuffix a; status := warning |}
    ∈ (duckdbLoop w assets).1.
Proof.
  intros Ha [error Hs]. induction assets as [|b rest IH]; [set_solver|].
  cbn [duckdbLoop]. destruct (duckdbLoop w rest) as [cs found] eqn:E.
  apply elem_of_cons in Ha as [<- | Ha].
  - unfold fetchWithTimeout. rewrite Hs. simpl. set_solver.
  - specialize (IH Ha). simpl in IH.
    destruct (fetchWithTimeout w (duckdb_worker b)) as [response|];
      [destruct (ok response)|]; simpl; rewrite ?elem_of_cons; auto.
Qed.

Lemma duckdbConfigChecks_returns : ∃ cs, duckdbConfigChecks w = Return cs.
Proof. apply try_catch_total. eauto. Qed.

Lemma duckdb_worker_throw a :
  a ∈ duckdbAssets → throwsAt w (duckdb_worker a) →
  {| name := "duckdb-worker-" +:+ workerSuffix a; status := warning |}
    ∈ groupChecks options w duckdbGroup.
Proof.
  intros Ha Hs. pose proof (duckdbLoop_throw _ _ Ha Hs) as Hin.
  cbn [groupChecks]. unfold runDuckDBValidation.
  rewrite checkUrlAccessible_eq. unfold_bind. cbn [cbind status].
  destruct (duckdbLoop w duckdbAssets) as [workerChecks found]. simpl in Hin.
  destruct duckdbConfigChecks_returns as [cfg ->].
  destruct (isPassed _); simpl;
    rewrite elem_of_cons, !elem_of_app; auto.
Qed.

(** A sensitive-file probe that throws is passed over: when all of
    them throw, the check passes. *)
Lemma sensitive_probes_throw :
  (∀ f, f ∈ sensitiveFiles → throwsAt w (sensitive_file f)) →
  checkSensitiveInfoExposure w =
    Return {| sec_name := "sensitive-info-exposure"; sec_status := passed |}.
Proof.
  intros Hall. unfold checkSensitiveInfoExposure, sensitiveFiles, fetchWithTimeout.
  cbn [sensitiveLoop]. unfold fetchWithTimeout.
  destruct (Hall ".env") as [e1 ->]; [set_solver|].
  destruct (Hall "config.json") as [e2 ->]; [set_solver|].
  destruct (Hall "secrets.json") as [e3 ->]; [set_solver|].
  destruct (Hall ".git/config") as [e4 ->]; [set_solver|].
  reflexivity.
Qed.

(** A throw of the core-bundle probe leaves no performance check. *)
Lemma perf_core_throw :
  throwsAt w perf_core → groupChecks options w performanceGroup = [].
Proof.
  intros [error Hs]. cbn [groupChecks].
  destruct (skipSlowTests options); [done|].
  unfold measurePerformance, fetchWithTimeout. by rewrite Hs.
Qed.

(** A manifest that cannot be fetched leaves the failed
    [asset-integrity] check alone: the core assets and the hashes are
    not checked. *)
Lemma manifest_throw :
  throwsAt w manifest_head ∨ throwsAt w manifest_get →
  groupChecks options w assetGroup = [ {| name := ASSET_INTEGRITY; status := failed |} ].
Proof.
  intros Hthrow. cbn [groupChecks].
  unfold runAssetValidation, fetchManifest, fetchWithTimeout. unfold_bind.
  destruct Hthrow as [[error Hs]|[error Hs]].
  - by rewrite Hs.
  - destruct (fetch w manifest_head) as [response|error']; [|reflexivity].
    cbn [try_catch cbind]. destruct (ok response); [|reflexivity].
    cbn [negb]. by rewrite Hs.
Qed.

(** A plugin framework that cannot be fetched leaves the failed
    [plugin-loading] check alone: the plugin directory is not
    probed. *)
Lemma plugin_framework_throw :
  throwsAt w plugin_framework →
  groupChecks options w pluginGroup = [ {| name := PLUGIN_LOADING; status := failed |} ].
Proof.
  intros [error Hs]. cbn [groupChecks].
  unfold runPluginValidation, fetchWithTimeout. by rewrite Hs.
Qed.

(** The metrics of the result: those measured, unless the slow tests
    are skipped. *)
Definition metricsOf : option PerformanceMetrics :=
  if skipSlowTests options then None
  else match measurePerformance w with
       | Return p => Some p
       | Throw _ => None
       end.

Definition zeroMetrics : PerformanceMetrics :=
  {| loadTime := 0; wasmLoadTime := 0; totalSize := Some 0 |}.

Lemma validateDeployment_performance r :
  validateDeployment options w url = Return r → performance r = metricsOf.
Proof.
  unfold validateDeployment, metricsOf.
  destruct (runConnectivityChecks_returns w) as (c1 & -> & _).
  destruct (runAssetValidation_returns w) as (c2 & ->).
  destruct (runWasmValidation_returns w) as (c3 & ->).
  destruct (runDuckDBValidation_returns w) as (c4 & ->).
  destruct (runPluginValidation_returns w) as (c5 & ->).
  destruct (runSecurityValidation_returns w url) as (sec & ->).
  destruct (measurePerformance_returns w) as (p & ->).
  cbn [step outcome pushChecks l_checks l_security l_performance app].
  destruct (skipSlowTests options); unfold_bind; cbn [negb cbind step from_option];
    destruct (0 <? length (customChecks options))%nat; by intros [= <-].
Qed.

(** A throw of the core-bundle probe leaves the metrics at zero. *)
Lemma perf_core_throw_metrics :
  throwsAt w perf_core → skipSlowTests options = false →
  metricsOf = Some zeroMetrics.
Proof.
  intros [error Hs] Hskip. unfold metricsOf, measurePerformance, fetchWithTimeout.
  by rewrite Hskip, Hs.
Qed.

Lemma validateAsset_eq assetPath manifest :
  validateAsset w assetPath manifest =
  Return {| name := assetCheckName assetPath;
            status := accessStatus (fetch w (core_asset assetPath)) |}.
Proof.
  unfold validateAsset, fetchWithTimeout, accessStatus.
  destruct (fetch w (core_asset assetPath)) as [response|error]; reflexivity.
Qed.

(** A core asset that cannot be fetched fails its own check, where
    the manifest has let the group get that far. *)
Lemma core_asset_throw p :
  p ∈ coreAssets → throwsAt w (core_asset p) →
  groupChecks options w assetGroup = [ {| name := ASSET_INTEGRITY; status := failed |} ]
  ∨ {| name := assetCheckName p; status := failed |} ∈ groupChecks options w assetGroup.
Proof.
  intros Hp [error Hs]. cbn [groupChecks]. unfold runAssetValidation. unfold_bind.
  destruct (fetchManifest w) as [manifest|e]; [|by left].
  cbn [cbind]. destruct (Json.getProp manifest "assets") as [assets|e]; [|by left].
  cbn [cbind]. unfold coreAssets. cbn [mapM]. unfold_bind.
  rewrite !validateAsset_eq. cbn [cbind fmap].
  destruct (validateAssetIntegrity manifest) as [integrityCheck|e]; [|by left].
  right. cbn [cbind try_catch outcome app].
  unfold coreAssets in Hp. rewrite !elem_of_cons, elem_of_nil in Hp.
  destruct Hp as [->|[->|[->|[]]]]; rewrite Hs; cbn [accessStatus];
    rewrite !elem_of_cons; auto.
Qed.

(** The DuckDB configuration that answers the probe but cannot be
    read fails its validation. *)
Lemma duckdb_config_get_throw response :
  throwsAt w duckdb_config_get →
  fetch w duckdb_config = Return response → ok response = true →
  {| name := "duckdb-config-validation"; status := failed |}
    ∈ groupChecks options w duckdbGroup.
Proof.
  intros [error Hs] Hprobe Hok. cbn [groupChecks]. unfold runDuckDBValidation.
  rewrite checkUrlAccessible_eq, Hprobe. unfold_bind.
  cbn [cbind status accessStatus]. rewrite Hok. cbn [isPassed].
  destruct (duckdbLoop w duckdbAssets) as [workerChecks found].
  unfold duckdbConfigChecks. unfold_bind. rewrite Hs.
  simpl. rewrite elem_of_cons, !elem_of_app, !elem_of_cons. auto 10.
Qed.

(** A throw of the WASM timing probe leaves no WASM timing check. *)
Lemma perf_wasm_throw :
  throwsAt w perf_wasm →
  Forall (λ c, name c ≠ "performance-wasm-load")
    (groupChecks options w performanceGroup).
Proof.
  intros [error Hs]. cbn [groupChecks].
  destruct (skipSlowTests options); [constructor|].
  unfold measurePerformance, fetchWithTimeout. rewrite Hs.
  destruct (fetch w perf_core) as [response|e]; cbn [try_catch];
    unfold validatePerformanceMetrics; cbn [loadTime wasmLoadTime];
    [|constructor].
  destruct (0 <? elapsed_core w); cbn; repeat constructor; discriminate.
Qed.

End ValidatorResult.

(** ** The validator: a WASM probe that throws is a file that is not there *)

Section ValidatorWasmProbe.
Import Validator.

#[local] Instance Site_eq_dec : EqDecision Site.
Proof. solve_decision. Defined.

(** The world [w] with another outcome of the fetch at place [s]. *)
Definition withFetch (w : World) (s : Site) (c : Completion Response) : World :=
  {| fetch := λ s', if decide (s' = s) then c else fetch w s';
     elapsed_core := elapsed_core w;
     elapsed_wasm := elapsed_wasm w |}.

Lemma wasmLoop_throw w p response paths :
  throwsAt w (wasm_file p) → ok response = false →
  wasmLoop (withFetch w (wasm_file p) (Return response)) paths = wasmLoop w paths.
Proof.
  intros [error Hs] Hok. induction paths as [|q paths IH]; [reflexivity|].
  cbn [wasmLoop]. unfold fetchWithTimeout. cbn [withFetch fetch].
  destruct (decide (wasm_file q = wasm_file p)) as [Heq|Hne].
  - rewrite Heq, Hs. cbn [try_catch]. rewrite Hok. exact IH.
  - destruct (fetch w (wasm_file q)) as [r|e]; cbn [try_catch];
      [destruct (ok r)|]; first [reflexivity|exact IH].
Qed.

Lemma wasm_probe_throw options w p response :
  throwsAt w (wasm_file p) → ok response = false →
  groupChecks options (withFetch w (wasm_file p) (Return response)) wasmGroup
  = groupChecks options w wasmGroup.
Proof.
  intros Hs Hok. cbn [groupChecks]. unfold runWasmValidation.
  by rewrite (wasmLoop_throw w p response wasmUrls Hs Hok).
Qed.

(** The same for a probe of a sensitive file. *)
Lemma sensitiveLoop_throw w f response files :
  throwsAt w (sensitive_file f) → ok response = false →
  sensitiveLoop (withFetch w (sensitive_file f) (Return response)) files
  = sensitiveLoop w files.
Proof.
  intros [error Hs] Hok. induction files as [|g files IH]; [reflexivity|].
  cbn [sensitiveLoop]. unfold fetchWithTimeout. cbn [withFetch fetch].
  destruct (decide (sensitive_file g = sensitive_file f)) as [Heq|Hne].
  - rewrite Heq, Hs. cbn [try_catch]. rewrite Hok. exact IH.
  - destruct (fetch w (sensitive_file g)) as [r|e]; cbn [try_catch];
      [destruct (ok r)|]; first [reflexivity|exact IH].
Qed.

Lemma sensitive_probe_throw w url f response :
  throwsAt w (sensitive_file f) → ok response = false →
  securityChecks (withFetch w (sensitive_file f) (Return response)) url
  = securityChecks w url.
Proof.
  intros Hs Hok. unfold securityChecks, runSecurityValidation,
    checkSensitiveInfoExposure, fetchWithTimeout.
  rewrite (sensitiveLoop_throw w f response sensitiveFiles Hs Hok).
  cbn [withFetch fetch].
  destruct (decide (security_probe = sensitive_file f)) as [Heq|_]; [discriminate|].
  reflexivity.
Qed.

End ValidatorWasmProbe.

(** ** The validator: fault isolation and the overall verdict *)

Section ValidatorClaims.
Import Validator.

Lemma plugin_directory_throw options w :
  ¬ throwsAt w plugin_framework → throwsAt w plugin_directory →
  {| name := "plugin-directory"; status := warning |}
    ∈ groupChecks options w pluginGroup.
Proof.
  intros Hpf [error Hs]. cbn [groupChecks].
  unfold runPluginValidation, pluginDirectoryCheck, fetchWithTimeout.
  rewrite Hs. destruct (fetch w plugin_framework) as [response|e] eqn:E.
  - simpl. rewrite !elem_of_cons. auto.
  - destruct Hpf. by exists e.
Qed.

Lemma groupChecks_local options w w' g :
  agreeOn g w w' → groupChecks options w' g = groupChecks options w g.
Proof.
  intros H. destruct g; cbn [groupChecks]; try reflexivity.
  - by rewrite (runConnectivityChecks_local w w').
  - by rewrite (runAssetValidation_local w w').
  - by rewrite (runWasmValidation_local w w').
  - by rewrite (runDuckDBValidation_local w w').
  - by rewrite (runPluginValidation_local w w').
  - by rewrite (measurePerformance_local w w').
Qed.

(** C4 (as amended).  [validateDeployment] never rejects: for every
    deployment URL, whatever each fetch does, it returns a result
    whose checks are the outcomes of the connectivity, asset, WASM,
    DuckDB, plugin and performance groups, in this order, followed by
    the custom checks, whose security list is the outcome of the
    security group, and whose metrics are those measured.  A group's
    outcome depends on the fetches of that group alone: changing what
    the fetches of one group do (making them throw) changes no other
    group's outcome.  Within its group a throw can cost later checks.
    What a throw does, place by place:
    - at the two connectivity probes, the CORS and cache probes, the
      manifest probe, the DuckDB configuration probe and the
      plugin-framework probe it is recorded as a failed check;
    - a manifest that cannot be fetched (probed or read) leaves that
      failed check alone: no core asset and no hash is checked;
    - a core asset that cannot be fetched fails its own check, unless
      the group has stopped at the manifest;
    - a DuckDB configuration that answers its probe and cannot be
      read fails its validation check;
    - a plugin framework that cannot be fetched leaves that failed
      check alone: the plugin directory is not probed;
    - a security probe that throws leaves one failed security check:
      no header, no HTTPS and no sensitive-file check;
    - a WASM probe and a sensitive-file probe that throw count as
      files that are not there, so throws of all WASM probes are
      recorded as one warning;
    - a DuckDB worker probe that throws is a warning, and so is a
      plugin-directory probe that throws where the plugin framework
      has been fetched;
    - a core-bundle timing probe that throws leaves no performance
      check and, unless the slow tests are skipped, metrics that are
      all zero, and a WASM timing probe that throws leaves no WASM
      timing check. *)
Theorem validateDeployment_isolates_faults
    (options : ValidatorOptions) (url : string) (w : World) :
  ∃ r, validateDeployment options w url = Return r
     ∧ checks r =
         groupChecks options w connectivity ++ groupChecks options w assetGroup
         ++ groupChecks options w wasmGroup ++ groupChecks options w duckdbGroup
         ++ groupChecks options w pluginGroup
         ++ groupChecks options w performanceGroup ++ customChecks options
     ∧ security r = securityChecks w url
     ∧ performance r = metricsOf options w
     ∧ (∀ (w' : World) (g : Group),
          (∀ g', g' ≠ g → agreeOn g' w w') →
          (∀ g', g' ≠ g → groupChecks options w' g' = groupChecks options w g')
          ∧ (g ≠ securityGroup → securityChecks w' url = securityChecks w url)
          ∧ (g ≠ performanceGroup → metricsOf options w' = metricsOf options w))
     ∧ (∀ s n, throwsAt w s → failedOnThrow s = Some n →
          {| name := n; status := failed |} ∈ groupChecks options w (groupOf s))
     ∧ (throwsAt w manifest_head ∨ throwsAt w manifest_get →
          groupChecks options w assetGroup =
            [ {| name := ASSET_INTEGRITY; status := failed |} ])
     ∧ (∀ p, p ∈ coreAssets → throwsAt w (core_asset p) →
          groupChecks options w assetGroup =
            [ {| name := ASSET_INTEGRITY; status := failed |} ]
          ∨ {| name := assetCheckName p; status := failed |}
              ∈ groupChecks options w assetGroup)
     ∧ (∀ response, throwsAt w duckdb_config_get →
          fetch w duckdb_config = Return response → ok response = true →
          {| name := "duckdb-config-validation"; status := failed |}
            ∈ groupChecks options w duckdbGroup)
     ∧ (throwsAt w plugin_framework →
          groupChecks options w pluginGroup =
            [ {| name := PLUGIN_LOADING; status := failed |} ])
     ∧ (throwsAt w security_probe →
          security r =
            [ {| sec_name := "security-validation-error"; sec_status := failed |} ])
     ∧ (∀ p response, throwsAt w (wasm_file p) → ok response = false →
          groupChecks options (withFetch w (wasm_file p) (Return response)) wasmGroup
          = groupChecks options w wasmGroup)
     ∧ (∀ f response, throwsAt w (sensitive_file f) → ok response = false →
          securityChecks (withFetch w (sensitive_file f) (Return response)) url
          = securityChecks w url)
     ∧ ((∀ p, p ∈ wasmUrls → throwsAt w (wasm_file p)) →
          groupChecks options w wasmGroup =
            [ {| name := WASM_LOADING; status := warning |} ])
     ∧ (∀ a, a ∈ duckdbAssets → throwsAt w (duckdb_worker a) →
          {| name := "duckdb-worker-" +:+ workerSuffix a; status := warning |}
            ∈ groupChecks options w duckdbGroup)
     ∧ (¬ throwsAt w plugin_framework → throwsAt w plugin_directory →
          {| name := "plugin-directory"; status := warning |}
            ∈ groupChecks options w pluginGroup)
     ∧ (throwsAt w perf_core →
          groupChecks options w performanceGroup = []
          ∧ (skipSlowTests options = false → performance r = Some zeroMetrics))
     ∧ (throwsAt w perf_wasm →
          Forall (λ c, name c ≠ "performance-wasm-load")
            (groupChecks options w performanceGroup)).
Proof.
  destruct (validateDeployment_result options w url) as (r & Hr & Hc & Hs & _).
  pose proof (validateDeployment_performance options w url r Hr) as Hp.
  exists r. split; [exact Hr|]. split; [exact Hc|]. split; [exact Hs|].
  split; [exact Hp|].
  split.
  { intros w' g Hagree. split; [|split].
    - intros g' Hg'. apply groupChecks_local. auto.
    - intros Hg. unfold securityChecks.
      by rewrite (runSecurityValidation_local w w' url) by auto.
    - intros Hg. unfold metricsOf.
      by rewrite (measurePerformance_local w w') by auto. }
  split; [apply failedOnThrow_recorded|].
  split; [apply manifest_throw|].
  split; [apply core_asset_throw|].
  split; [intros response; apply duckdb_config_get_throw|].
  split; [apply plugin_framework_throw|].
  split; [intros Hthrow; rewrite Hs; by apply security_probe_throw|].
  split; [apply wasm_probe_throw|].
  split; [intros f response; apply sensitive_probe_throw|].
  split; [apply wasm_probes_throw|].
  split; [apply duckdb_worker_throw|].
  split; [apply plugin_directory_throw|].
  split; [|apply perf_wasm_throw].
  intros Hthrow. split; [by apply perf_core_throw|].
  intros Hskip. rewrite Hp. by apply perf_core_throw_metrics.
Qed.

(** A deployment whose every address answers well, except that the
    WASM files cannot be fetched and the sensitive files are absent. *)
Definition healthyHeaders (header : string) : option string :=
  snd <$> find (λ kv, String.eqb (fst kv) header)
    [ ("Access-Control-Allow-Origin", "*");
      ("Cache-Control", "public, max-age=3600");
      ("Content-Length", "2048");
      ("X-Content-Type-Options", "nosniff");
      ("X-Frame-Options", "DENY");
      ("X-XSS-Protection", "1; mode=block");
      ("Cross-Origin-Embedder-Policy", "require-corp");
      ("Cross-Origin-Opener-Policy", "same-origin") ].

Definition healthyBody : Json.t :=
  Json.JObj
    [ ("assets", Json.JObj [("core", Json.JObj [("filename", Json.JStr "core.min.js")])]);
      ("integrity", Json.JObj [("core.min.js", Json.JStr "sha384-AAAA")]);
      ("hybrid", Json.JBool true);
      ("baseUrl", Json.JStr "https://cdn.example.org");
      ("workers", Json.JObj [("mvp", Json.JStr "duckdb-browser-mvp.worker.js")]) ].

Definition healthy : Response :=
  {| ok := true; http_status := 200; headers := healthyHeaders;
     json := Some healthyBody |}.

Definition notFound : Response :=
  {| ok := false; http_status := 404; headers := λ _, None; json := None |}.

Definition wasmUnreachable (method address : string) : Completion Response :=
  if JS.endsWith address ".wasm" then Throw "fetch failed"
  else if existsb (λ f, JS.endsWith address ("/" +:+ f)) sensitiveFiles
  then Return notFound
  else Return healthy.

Definition wasmUnreachableWorld : World :=
  worldOf wasmUnreachable "https://cdn.example.org" 120 80.

(** C4 (as stated) fails.  In a deployment where every fetch of a
    WASM file throws and everything else answers well, the validator
    returns a result without any failed check: the WASM check is a
    warning, and the run succeeds. *)
Lemma wasm_fetch_error_is_a_warning :
  (∀ p, p ∈ wasmUrls → throwsAt wasmUnreachableWorld (wasm_file p))
  ∧ ∃ r, validateDeployment defaultOptions wasmUnreachableWorld
           "https://cdn.example.org" = Return r
       ∧ success r = true
       ∧ Forall (λ c, status c ≠ failed) (checks r)
       ∧ Forall (λ c, sec_status c ≠ failed) (security r)
       ∧ {| name := WASM_LOADING; status := warning |} ∈ checks r.
Proof.
  split.
  - intros p Hp. exists "fetch failed".
    unfold wasmUrls in Hp. rewrite !elem_of_cons, elem_of_nil in Hp.
    destruct Hp as [-> | [-> | []]]; reflexivity.
  - eexists. split; [vm_compute; reflexivity|].
    split; [reflexivity|].
    split; [repeat constructor; discriminate|].
    split; [repeat constructor; discriminate|].
    cbn [checks]. rewrite !elem_of_cons. auto 20.
Qed.

Lemma filter_nil_iff {A} (P : A → Prop) `{∀ x, Decision (P x)} (l : list A) :
  filter P l = [] ↔ Forall (λ x, ¬ P x) l.
Proof.
  induction l as [|x l IH]; [by split; constructor|].
  rewrite filter_cons. case_decide.
  - split; [discriminate|]. intros Hall. by inversion Hall.
  - rewrite IH. split; [by constructor|]. intros Hall. by inversion Hall.
Qed.

(** C5.  The verdict of [determineOverallSuccess]: in strict mode it
    is true exactly when every validation check and every security
    check has passed, that is, when no check is counted as not
    passed; in normal mode exactly when no validation check and no
    security check has failed.  It is the [success] of every result
    [validateDeployment] computes from its checks. *)
Theorem determineOverallSuccess_policy
    (options : ValidatorOptions) (cs : list ValidationCheck)
    (sec : list SecurityCheck) :
  (determineOverallSuccess options cs sec = true ↔
     if strictMode options
     then Forall (λ c, status c = passed) cs
          ∧ Forall (λ c, sec_status c = passed) sec
     else Forall (λ c, status c ≠ failed) cs
          ∧ Forall (λ c, sec_status c ≠ failed) sec)
  ∧ (strictMode options = true →
      (determineOverallSuccess options cs sec = true ↔
         length (filter (λ c, status c ≠ passed) cs)
         + length (filter (λ c, sec_status c ≠ passed) sec) = 0)%nat)
  ∧ (∀ w url, ∃ r, validateDeployment options w url = Return r
                 ∧ success r = determineOverallSuccess options (checks r) (security r)).
Proof.
  assert (Hstrict : determineOverallSuccess options cs sec = true ↔
     if strictMode options
     then Forall (λ c, status c = passed) cs
          ∧ Forall (λ c, sec_status c = passed) sec
     else Forall (λ c, status c ≠ failed) cs
          ∧ Forall (λ c, sec_status c ≠ failed) sec).
  { unfold determineOverallSuccess.
    destruct (strictMode options);
      rewrite andb_true_iff, !forallb_forall, !Forall_forall;
      setoid_rewrite <- list_elem_of_In;
      split; intros [H1 H2]; split; intros c Hc;
      try (specialize (H1 c Hc)); try (specialize (H2 c Hc));
      first [ destruct (status c) | destruct (sec_status c) ];
      simpl in *; congruence. }
  split; [exact Hstrict|]. split.
  - intros Hmode. rewrite Hstrict, Hmode.
    rewrite Nat.eq_add_0, !length_zero_iff_nil, !filter_nil_iff.
    split; intros [H1 H2]; split; eapply Forall_impl; eauto; simpl;
      intros c Hc;
      first [ destruct (decide (status c = passed))
            | destruct (decide (sec_status c = passed)) ]; tauto.
  - intros w url.
    destruct (validateDeployment_result options w url) as (r & Hr & _ & _ & Hs).
    eauto.
Qed.

End ValidatorClaims.

(** ** The retry loop *)

Section RetryLoop.
Import Provider.
Context {T : Type}.
Variable operation : nat → Completion T.

Definition rejects (k : nat) : Prop := ∃ error, operation k = Throw error.

Definition errorOf (c : Completion T) : string :=
  match c with Throw error => error | Return _ => "" end.

(** What the loop does in an iteration whose attempt fails. *)
Definition failedAttempt (maxRetries attempt : nat) : list RetryEvent :=
  [Invoke attempt; Warn attempt maxRetries (errorOf (operation attempt))]
  ++ if (attempt <? maxRetries)%nat then [Sleep (backoffDelay attempt)] else [].

Lemma invocations_app l1 l2 :
  invocations (l1 ++ l2) = invocations l1 ++ invocations l2.
Proof. unfold invocations. apply omap_app. Qed.

Lemma sleeps_app l1 l2 : sleeps (l1 ++ l2) = sleeps l1 ++ sleeps l2.
Proof. unfold sleeps. apply omap_app. Qed.

Lemma invocations_failed n a len :
  invocations (flat_map (failedAttempt n) (seq a len)) = seq a len.
Proof.
  revert a. induction len as [|len IH]; intros a; [reflexivity|].
  cbn [seq flat_map]. rewrite invocations_app, IH.
  unfold failedAttempt. destruct (a <? n)%nat; reflexivity.
Qed.

Lemma sleeps_failed n a len :
  (a + len ≤ n)%nat →
  sleeps (flat_map (failedAttempt n) (seq a len)) = map backoffDelay (seq a len).
Proof.
  revert a. induction len as [|len IH]; intros a Hle; [reflexivity|].
  cbn [seq flat_map map]. rewrite sleeps_app, IH by lia.
  unfold failedAttempt.
  destruct (Nat.ltb_spec a n); [reflexivity|lia].
Qed.

Lemma sleeps_exhausted n :
  (1 ≤ n)%nat →
  sleeps (flat_map (failedAttempt n) (seq 1 n)) = map backoffDelay (seq 1 (n - 1)).
Proof.
  intros Hn.
  assert (E : seq 1 n = seq 1 (n - 1) ++ [n]).
  { replace n with (S (n - 1)) at 1 by lia. rewrite seq_S.
    do 2 f_equal. lia. }
  rewrite E, flat_map_app, sleeps_app, sleeps_failed by lia.
  cbn [flat_map]. unfold failedAttempt. rewrite Nat.ltb_irrefl.
  simpl. by rewrite app_nil_r.
Qed.

Lemma invocations_resolved n k :
  (1 ≤ k)%nat →
  invocations (flat_map (failedAttempt n) (seq 1 (k - 1)) ++ [Invoke k]) = seq 1 k.
Proof.
  intros Hk. rewrite invocations_app, invocations_failed.
  replace k with (S (k - 1)) at 3 by lia.
  rewrite seq_S. by replace (1 + (k - 1))%nat with k by lia.
Qed.

(** The loop entered at [attempt], when the first attempt that
    resolves is attempt [k]. *)
Lemma retryLoop_resolves n fuel attempt lastError k v :
  (attempt ≤ k ≤ n)%nat → (k - attempt < fuel)%nat →
  (∀ j, (attempt ≤ j < k)%nat → rejects j) →
  operation k = Return v →
  retryLoop operation n fuel attempt lastError =
    (flat_map (failedAttempt n) (seq attempt (k - attempt)) ++ [Invoke k], Return v).
Proof.
  revert attempt lastError.
  induction fuel as [|fuel IH]; intros attempt lastError Hk Hfuel Hrej Hres; [lia|].
  cbn [retryLoop]. destruct (Nat.leb_spec attempt n); [|lia].
  destruct (decide (attempt = k)) as [->|Hne].
  - rewrite Hres, Nat.sub_diag. reflexivity.
  - destruct (Hrej attempt) as [error Herr]; [lia|].
    rewrite Herr.
    rewrite (IH (S attempt) (Some error)); [|lia|lia| |exact Hres].
    + replace (k - attempt)%nat with (S (k - S attempt)) by lia.
      cbn [seq flat_map]. unfold failedAttempt at 2. rewrite Herr.
      cbn [errorOf]. by rewrite <- !app_assoc.
    + intros j Hj. apply Hrej. lia.
Qed.

(** The loop entered at [attempt], when every attempt left rejects. *)
Lemma retryLoop_exhausts n fuel attempt lastError :
  (attempt ≤ n)%nat → (n - attempt < fuel)%nat →
  (∀ j, (attempt ≤ j ≤ n)%nat → rejects j) →
  retryLoop operation n fuel attempt lastError =
    (flat_map (failedAttempt n) (seq attempt (S n - attempt)),
     Throw (errorOf (operation n))).
Proof.
  revert attempt lastError.
  induction fuel as [|fuel IH]; intros attempt lastError Hle Hfuel Hrej; [lia|].
  cbn [retryLoop]. destruct (Nat.leb_spec attempt n); [|lia].
  destruct (Hrej attempt) as [error Herr]; [lia|]. rewrite Herr.
  replace (S n - attempt)%nat with (S (n - attempt)) by lia.
  cbn [seq flat_map]. unfold failedAttempt at 1. rewrite Herr. cbn [errorOf].
  destruct (decide (attempt = n)) as [->|Hne].
  - rewrite Nat.sub_diag. cbn [seq flat_map].
    destruct fuel as [|fuel']; cbn [retryLoop].
    + rewrite Herr. cbn [default errorOf]. by rewrite !app_nil_r.
    + destruct (Nat.leb_spec (S n) n); [lia|].
      rewrite Herr. cbn [default errorOf]. by rewrite !app_nil_r.
  - rewrite (IH (S attempt) (Some error)); [|lia|lia|].
    + replace (n - attempt)%nat with (S n - S attempt)%nat by lia.
      by rewrite <- !app_assoc.
    + intros j Hj. apply Hrej. lia.
Qed.

(** More fuel than [maxRetries] iterations changes nothing: the loop
    condition ends the loop first. *)
Lemma retryLoop_fuel n fuel attempt lastError :
  (S n - attempt ≤ fuel)%nat →
  retryLoop operation n (S fuel) attempt lastError =
  retryLoop operation n fuel attempt lastError.
Proof.
  revert attempt lastError.
  induction fuel as [|fuel IH]; intros attempt lastError Hfuel.
  - cbn [retryLoop]. destruct (Nat.leb_spec attempt n); [lia|reflexivity].
  - cbn [retryLoop] in *. destruct (attempt <=? n)%nat; [|reflexivity].
    destruct (operation attempt) as [v|error]; [reflexivity|].
    specialize (IH (S attempt) (Some error)). cbn [retryLoop] in IH.
    rewrite IH by lia. reflexivity.
Qed.

(** C8.  [withRetry] with an attempt budget [n >= 1] invokes the
    whole operation at most [n] times, at attempts 1, 2, ... in order.
    When the first attempt that succeeds is attempt [k <= n], its
    value is returned, the operation has been invoked exactly [k]
    times and not again, and after each failed attempt [j < k] the
    loop has slept [min(1000 * 2^(j-1), 10000)] milliseconds before
    the next invocation.  When all [n] attempts fail, the error of
    the last attempt is thrown, after [n] invocations and a sleep
    after each failed attempt but the last. *)
Theorem withRetry_exponential_backoff (n : nat) :
  (1 ≤ n)%nat →
  (length (invocations (withRetry operation n).1) ≤ n)%nat
  ∧ invocations (withRetry operation n).1
      = seq 1 (length (invocations (withRetry operation n).1))
  ∧ (∀ k v, (1 ≤ k ≤ n)%nat →
       (∀ j, (1 ≤ j < k)%nat → rejects j) → operation k = Return v →
       withRetry operation n =
         (flat_map (failedAttempt n) (seq 1 (k - 1)) ++ [Invoke k], Return v)
       ∧ invocations (withRetry operation n).1 = seq 1 k
       ∧ sleeps (withRetry operation n).1 = map backoffDelay (seq 1 (k - 1)))
  ∧ ((∀ j, (1 ≤ j ≤ n)%nat → rejects j) →
       withRetry operation n =
         (flat_map (failedAttempt n) (seq 1 n), Throw (errorOf (operation n)))
       ∧ invocations (withRetry operation n).1 = seq 1 n
       ∧ sleeps (withRetry operation n).1 = map backoffDelay (seq 1 (n - 1)))
  ∧ (∀ j, (1 ≤ j)%nat →
       backoffDelay j = Z.min (1000 * 2 ^ (Z.of_nat j - 1)) 10000
       ∧ 1000 ≤ backoffDelay j ≤ 10000).
Proof.
  intros Hn.
  assert (Hres : ∀ k v, (1 ≤ k ≤ n)%nat →
       (∀ j, (1 ≤ j < k)%nat → rejects j) → operation k = Return v →
       withRetry operation n =
         (flat_map (failedAttempt n) (seq 1 (k - 1)) ++ [Invoke k], Return v)).
  { intros k v Hk Hrej Hv. unfold withRetry.
    apply retryLoop_resolves; [lia|lia|exact Hrej|exact Hv]. }
  assert (Hexh : (∀ j, (1 ≤ j ≤ n)%nat → rejects j) →
       withRetry operation n =
         (flat_map (failedAttempt n) (seq 1 n), Throw (errorOf (operation n)))).
  { intros Hrej. unfold withRetry.
    rewrite retryLoop_exhausts; [|lia|lia|exact Hrej].
    by replace (S n - 1)%nat with n by lia. }
  assert (Hsplit : (∃ k v, (1 ≤ k ≤ n)%nat ∧ (∀ j, (1 ≤ j < k)%nat → rejects j)
                          ∧ operation k = Return v)
                   ∨ (∀ j, (1 ≤ j ≤ n)%nat → rejects j)).
  { clear Hres Hexh. induction n as [|m IH]; [lia|].
    destruct (decide (m = 0)%nat) as [->|Hm].
    - destruct (operation 1%nat) as [v|error] eqn:E.
      + left. exists 1%nat, v. split; [lia|]. split; [intros; lia|exact E].
      + right. intros j Hj. replace j with 1%nat by lia. by exists error.
    - destruct IH as [(k & v & Hk & Hrej & Hv)|Hrej]; [lia| |].
      + left. exists k, v. split; [lia|]. by split.
      + destruct (operation (S m)) as [v|error] eqn:E.
        * left. exists (S m), v. split; [lia|]. split; [|exact E].
          intros j Hj. apply Hrej. lia.
        * right. intros j Hj. destruct (decide (j = S m)) as [->|Hne].
          -- by exists error.
          -- apply Hrej. lia. }
  split; [|split; [|split; [|split]]].
  - destruct Hsplit as [(k & v & Hk & Hrej & Hv)|Hrej].
    + rewrite (Hres k v Hk Hrej Hv). cbn [fst].
      rewrite invocations_resolved, length_seq by lia. lia.
    + rewrite (Hexh Hrej). cbn [fst]. rewrite invocations_failed, length_seq. lia.
  - destruct Hsplit as [(k & v & Hk & Hrej & Hv)|Hrej].
    + rewrite (Hres k v Hk Hrej Hv). cbn [fst].
      by rewrite invocations_resolved, length_seq by lia.
    + rewrite (Hexh Hrej). cbn [fst]. by rewrite invocations_failed, length_seq.
  - intros k v Hk Hrej Hv. rewrite (Hres k v Hk Hrej Hv). cbn [fst].
    split; [reflexivity|]. split; [apply invocations_resolved; lia|].
    rewrite sleeps_app, sleeps_failed by lia. by rewrite app_nil_r.
  - intros Hrej. rewrite (Hexh Hrej). cbn [fst].
    split; [reflexivity|]. split; [apply invocations_failed|].
    by apply sleeps_exhausted.
  - intros j Hj. split; [reflexivity|]. unfold backoffDelay.
    assert (1 ≤ 2 ^ (Z.of_nat j - 1)) by (apply Z.pow_le_mono_r with (b := 0); lia).
    lia.
Qed.

End RetryLoop.

(** An operation that rejects twice and then resolves. *)
Definition flakyOperation (k : nat) : Completion string :=
  if (k <? 3)%nat then Throw "ECONNRESET" else Return "deployed".

Lemma withRetry_exponential_backoff_witness :
  (1 ≤ 3)%nat
  ∧ Provider.withRetry flakyOperation 3 =
      ([ Provider.Invoke 1; Provider.Warn 1 3 "ECONNRESET"; Provider.Sleep 1000;
         Provider.Invoke 2; Provider.Warn 2 3 "ECONNRESET"; Provider.Sleep 2000;
         Provider.Invoke 3 ], Return "deployed")
  ∧ Provider.sleeps (Provider.withRetry flakyOperation 3).1
      = map Provider.backoffDelay [1; 2]%nat.
Proof.
  split; [lia|].
  pose proof (withRetry_exponential_backoff flakyOperation 3 ltac:(lia))
    as (_ & _ & Hres & _).
  destruct (Hres 3%nat "deployed") as (Hrun & _ & Hsleeps).
  - lia.
  - intros j Hj. exists "ECONNRESET". unfold flakyOperation.
    destruct (Nat.ltb_spec j 3); [reflexivity|lia].
  - reflexivity.
  - split; [exact Hrun|exact Hsleeps].
Defined.

(** ** The manifest plugin: the hashes of a run *)

Section BuildHashes.
Import Build.
Context `{Crypto}.

(** The bytes [Buffer.from] makes of a bundle entry. *)
Definition contentOf (item : BundleItem) : string :=
  match item with asset source => source | chunk code => code end.

(** The filename and the hash of every entry of an asset map, in its
    order. *)
Definition hashesOf (m : list (string * AssetInfo)) : list (string * string) :=
  map (λ kv, (kv.1, hash kv.2)) m.

(** The build hash as the specification words it: the SHA-256 of the
    asset hashes, concatenated in the order of their filenames and
    cut to 8 hexadecimal characters. *)
Definition filenameLe (a b : AssetInfo) : Prop := String.le (filename a) (filename b).

#[local] Instance filenameLe_dec : RelDecision filenameLe.
Proof. intros a b. unfold filenameLe. apply _. Defined.

Definition canonicalBuildHash (assets : list AssetInfo) : string :=
  String.substring 0 8
    (sha256_hex (JS.join "" (map hash (merge_sort filenameLe assets)))).

Lemma mapSet_keys {V} k (v : V) m :
  JS.mapKeys (JS.mapSet k v m) =
  if decide (k ∈ JS.mapKeys m) then JS.mapKeys m else JS.mapKeys m ++ [k].
Proof.
  unfold JS.mapKeys. induction m as [|[k' v'] m IH]; [reflexivity|].
  cbn [JS.mapSet map fst]. destruct (String.eqb_spec k' k) as [->|Hne].
  - rewrite decide_True by (by left). reflexivity.
  - cbn [map fst]. rewrite IH.
    destruct (decide (k ∈ map fst m)) as [Hin|Hnin].
    + rewrite decide_True by (by right). reflexivity.
    + rewrite decide_False; [reflexivity|].
      rewrite elem_of_cons. intros [->|?]; [by destruct Hne|done].
Qed.

Lemma mapSet_fresh {V} k (v : V) m :
  k ∉ JS.mapKeys m → JS.mapSet k v m = m ++ [(k, v)].
Proof.
  unfold JS.mapKeys. induction m as [|[k' v'] m IH]; intros Hk; [reflexivity|].
  cbn [JS.mapSet]. cbn [map fst] in Hk. rewrite not_elem_of_cons in Hk.
  destruct Hk as [Hne Hk].
  destruct (String.eqb_spec k' k) as [->|_]; [done|].
  by rewrite IH.
Qed.

Lemma mapSet_map {V W} (f : V → W) k v m :
  map (λ kv, (kv.1, f kv.2)) (JS.mapSet k v m) =
  JS.mapSet k (f v) (map (λ kv, (kv.1, f kv.2)) m).
Proof.
  induction m as [|[k' v'] m IH]; [reflexivity|].
  cbn [JS.mapSet map fst snd]. destruct (String.eqb k' k); [reflexivity|].
  cbn [map fst snd]. by rewrite IH.
Qed.

Lemma assetMap_processEntry env config st t e :
  assetMap (processEntry env config (st, t) e).1 =
  JS.mapSet e.1 (createAssetInfo env t e.1 (contentOf e.2) config) (assetMap st).
Proof.
  destruct e as [f [source|code]]; cbn [processEntry fst snd contentOf].
  - destruct (JS.endsWith f ".wasm"); [reflexivity|].
    destruct (JS.includes f "plugin"); reflexivity.
  - reflexivity.
Qed.

(** A field of an asset's record that [createAssetInfo] computes from
    the filename and the content alone: over the entries of a bundle,
    the field's values in the asset map evolve without regard to the
    environment, the clock or the configuration. *)
Lemma field_foldl {W} (f : AssetInfo → W) (g : string → string → W)
    env config bundle st t :
  (∀ t' k c, f (createAssetInfo env t' k c config) = g k c) →
  map (λ kv, (kv.1, f kv.2))
    (assetMap (foldl (processEntry env config) (st, t) bundle).1) =
  foldl (λ m e, JS.mapSet e.1 (g e.1 (contentOf e.2)) m)
    (map (λ kv, (kv.1, f kv.2)) (assetMap st)) bundle.
Proof.
  intros Hfg.
  revert st t. induction bundle as [|e bundle IH]; intros st t; [reflexivity|].
  cbn [foldl].
  destruct (processEntry env config (st, t) e) as [st1 t1] eqn:E.
  rewrite IH. f_equal.
  change st1 with (st1, t1).1. rewrite <- E.
  by rewrite assetMap_processEntry, (mapSet_map f), Hfg.
Qed.

Lemma hashesOf_foldl env config bundle st t :
  hashesOf (assetMap (foldl (processEntry env config) (st, t) bundle).1) =
  foldl (λ m e, JS.mapSet e.1 (sha384_hex (contentOf e.2)) m)
    (hashesOf (assetMap st)) bundle.
Proof.
  unfold hashesOf.
  by rewrite (field_foldl hash (λ _ c, sha384_hex c)).
Qed.

Lemma filenames_foldl env config bundle st t :
  map (λ kv, (kv.1, filename kv.2))
    (assetMap (foldl (processEntry env config) (st, t) bundle).1) =
  foldl (λ m e, JS.mapSet e.1 e.1 m)
    (map (λ kv, (kv.1, filename kv.2)) (assetMap st)) bundle.
Proof. by rewrite (field_foldl filename (λ k _, k)). Qed.

(** Entries with fresh, distinct filenames are appended in their
    order. *)
Lemma foldl_mapSet_fresh {V} (g : string * BundleItem → V) bundle m :
  NoDup (map fst bundle) →
  (∀ k, k ∈ map fst bundle → k ∉ JS.mapKeys m) →
  foldl (λ m e, JS.mapSet e.1 (g e) m) m bundle = m ++ map (λ e, (e.1, g e)) bundle.
Proof.
  revert m. induction bundle as [|e bundle IH]; intros m Hnd Hfresh.
  - by rewrite app_nil_r.
  - cbn [foldl map]. cbn [map] in Hnd, Hfresh. apply NoDup_cons in Hnd as [He Hnd].
    rewrite mapSet_fresh by (apply Hfresh; by left).
    rewrite IH; [by rewrite <- app_assoc|exact Hnd|].
    intros k Hk. unfold JS.mapKeys. rewrite map_app. cbn [map fst].
    rewrite not_elem_of_app, not_elem_of_cons. split.
    + apply Hfresh. by right.
    + split; [|apply not_elem_of_nil]. intros ->. done.
Qed.

Lemma buildHash_generateManifest env t assets plugins wasm config :
  buildHash (generateManifest env t assets plugins wasm config) =
  String.substring 0 8 (sha256_hex (JS.join "" (map snd (hashesOf assets)))).
Proof.
  cbn [generateManifest buildHash]. unfold JS.mapValues, hashesOf.
  by rewrite !map_map.
Qed.

Lemma integrity_generateManifest env t assets plugins wasm config :
  integrity (generateManifest env t assets plugins wasm config) =
  foldl (λ i kv, JS.setProp kv.1 ("sha384-" +:+ Encoding.toBase64 (Encoding.fromHex kv.2)) i)
    ∅ (hashesOf assets).
Proof.
  cbn [generateManifest integrity]. unfold generateIntegrityMap, hashesOf.
  generalize (∅ : gmap string string).
  induction assets as [|kv assets IH]; intros i; [reflexivity|].
  cbn [foldl map fst snd]. by rewrite IH.
Qed.

(** A strictly ascending list of filenames has no duplicate. *)
Lemma sorted_filenames_NoDup (l : list string) :
  Sorted (strict String.le) l → NoDup l.
Proof.
  intros Hs. apply Sorted_StronglySorted in Hs; [|apply _].
  induction Hs as [|x l Hs IH Hx]; constructor; [|exact IH].
  intros Hin. rewrite Forall_forall in Hx.
  destruct (Hx x Hin) as [_ Hn]. by apply Hn.
Qed.

(** Sorting by filename leaves a list alone whose filenames already
    ascend strictly. *)
Lemma merge_sort_sorted (l : list AssetInfo) :
  Sorted (strict String.le) (map filename l) → merge_sort filenameLe l = l.
Proof.
  intros Hs.
  assert (Htrans : Transitive filenameLe).
  { intros a b c. unfold filenameLe. apply transitivity. }
  assert (Htotal : Total filenameLe).
  { intros a b. unfold filenameLe. apply total, _. }
  apply (Sorted_unique_strong filenameLe).
  - intros x1 x2 H1 H2 H12 H21.
    rewrite (merge_sort_Permutation filenameLe) in H1.
    pose proof (sorted_filenames_NoDup _ Hs) as Hnd.
    assert (Heq : filename x1 = filename x2).
    { apply (anti_symm String.le); assumption. }
    apply list_elem_of_lookup in H1 as [i1 H1].
    apply list_elem_of_lookup in H2 as [i2 H2].
    assert (i1 = i2).
    { eapply NoDup_lookup; [exact Hnd| |].
      - rewrite list_lookup_fmap, H1. reflexivity.
      - rewrite list_lookup_fmap, H2. simpl. by rewrite Heq. }
    congruence.
  - apply Sorted_merge_sort, _.
  - clear -Hs. induction l as [|a l IH]; [constructor|].
    cbn [map] in Hs. apply Sorted_inv in Hs as [Hs Hhd].
    constructor; [by apply IH|].
    destruct l as [|b l]; constructor. apply HdRel_inv in Hhd.
    unfold filenameLe. by destruct Hhd.
  - apply merge_sort_Permutation.
Qed.

End BuildHashes.

(** ** The manifest plugin: determinism *)

Section BuildDeterminism.
Import Build.
Context `{Crypto}.

Lemma generateBundle_unfold env config st t bundle :
  generateBundle env config st t bundle =
  let st' := (foldl (processEntry env config) (st, t) bundle).1 in
  let t' := (foldl (processEntry env config) (st, t) bundle).2 in
  let manifest :=
    generateManifest env t' (assetMap st') (pluginAssets st') (wasmAssets st') config in
  (st', S (S t'),
   [EmitFile "manifest.json" (ManifestJson manifest)]
   ++ generateProviderConfigs manifest config
   ++ validateBundleSizes (assetMap st') config).
Proof.
  unfold generateBundle.
  by destruct (foldl (processEntry env config) (st, t) bundle).
Qed.

(** From a fresh plugin, a bundle with distinct filenames fills the
    asset map in the order of the bundle. *)
Lemma fresh_run_hashes env config t bundle :
  NoDup (map fst bundle) →
  hashesOf (assetMap (foldl (processEntry env config) (initialState, t) bundle).1)
  = map (λ e, (e.1, sha384_hex (contentOf e.2))) bundle.
Proof.
  intros Hnd. rewrite hashesOf_foldl.
  rewrite (foldl_mapSet_fresh (λ e, sha384_hex (contentOf e.2))); [done|done|].
  intros k _. apply not_elem_of_nil.
Qed.

Lemma fresh_run_filenames env config t bundle :
  NoDup (map fst bundle) →
  map filename
    (JS.mapValues (assetMap (foldl (processEntry env config) (initialState, t) bundle).1))
  = map fst bundle.
Proof.
  intros Hnd.
  pose proof (filenames_foldl env config bundle initialState t) as E.
  rewrite (foldl_mapSet_fresh (λ e, e.1)) in E; [|done|intros k _; apply not_elem_of_nil].
  cbn [initialState assetMap map app] in E.
  apply (f_equal (map snd)) in E. rewrite !map_map in E. cbn [snd] in E.
  unfold JS.mapValues. rewrite map_map. exact E.
Qed.

(** C1.  Two runs of the manifest generation over the same bundle,
    enumerated in ascending filename order, whatever the clock, the
    process environment and the configuration of each run: both emit
    a manifest; every file's hash is the SHA-384 of its content, the
    same in both runs; the two build hashes (and the integrity maps)
    are identical; and the build hash is the SHA-256 of the asset
    hashes concatenated in filename order, cut to 8 hexadecimal
    characters. *)
Theorem generateManifest_deterministic
    (env1 env2 : Env) (config1 config2 : CDNBuildConfig) (t1 t2 : nat)
    (bundle : list (string * BundleItem)) :
  Sorted (strict String.le) (map fst bundle) →
  ∃ m1 m2,
    emittedManifest (generateBundle env1 config1 initialState t1 bundle).2 = Some m1
    ∧ emittedManifest (generateBundle env2 config2 initialState t2 bundle).2 = Some m2
    ∧ hashesOf (assetMap (generateBundle env1 config1 initialState t1 bundle).1.1)
        = map (λ e, (e.1, sha384_hex (contentOf e.2))) bundle
    ∧ hashesOf (assetMap (generateBundle env2 config2 initialState t2 bundle).1.1)
        = hashesOf (assetMap (generateBundle env1 config1 initialState t1 bundle).1.1)
    ∧ buildHash m1 = buildHash m2
    ∧ integrity m1 = integrity m2
    ∧ buildHash m1 =
        canonicalBuildHash
          (JS.mapValues
             (assetMap (generateBundle env1 config1 initialState t1 bundle).1.1)).
Proof.
  intros Hsorted.
  pose proof (sorted_filenames_NoDup _ Hsorted) as Hnd.
  rewrite !generateBundle_unfold. cbn zeta. cbn [fst snd app emittedManifest].
  do 2 eexists. split; [reflexivity|]. split; [reflexivity|].
  rewrite !fresh_run_hashes by exact Hnd.
  split; [reflexivity|]. split; [reflexivity|].
  rewrite !buildHash_generateManifest, !integrity_generateManifest.
  rewrite !fresh_run_hashes by exact Hnd.
  split; [reflexivity|]. split; [reflexivity|].
  unfold canonicalBuildHash. rewrite merge_sort_sorted.
  - assert (Hvalues : ∀ m, map hash (JS.mapValues m) = map snd (hashesOf m)).
    { intros m. unfold hashesOf, JS.mapValues. by rewrite !map_map. }
    by rewrite Hvalues, fresh_run_hashes.
  - by rewrite fresh_run_filenames.
Qed.

End BuildDeterminism.

(** ** The manifest plugin: the integrity map and the listed assets *)

Section BuildIntegrity.
Import Build.
Context `{Crypto}.

(** The filenames [manifest.assets] lists, across its five entries. *)
Definition listedFilenames (a : ManifestAssets) : list string :=
  option_list (filename <$> core a)
  ++ option_list (filename <$> orchestration a)
  ++ option_list (filename <$> pluginFramework a)
  ++ map (λ p, filename (plugin_base p)) (plugins a)
  ++ map (λ w, filename (wasm_base w)) (wasm a).

(** The keys an object gets from assignments [obj[k] = ...]. *)
Definition ownKeys (keys : list string) : gset string :=
  list_to_set (filter (λ k, k ≠ "__proto__") keys).

Lemma setProp_dom k v (o : gmap string string) :
  dom (JS.setProp k v o) = dom o ∪ ownKeys [k].
Proof.
  unfold JS.setProp, ownKeys. rewrite filter_cons, filter_nil.
  destruct (String.eqb_spec k "__proto__") as [->|Hne].
  - rewrite decide_False by auto. set_solver.
  - rewrite decide_True by auto. rewrite dom_insert_L. set_solver.
Qed.

Lemma generateIntegrityMap_dom assets wasm plugins :
  dom (generateIntegrityMap assets wasm plugins) = ownKeys (JS.mapKeys assets).
Proof.
  unfold generateIntegrityMap.
  assert (Hgen : ∀ (i : gmap string string),
    dom (foldl (λ integrity kv, JS.setProp kv.1 (integrityValue kv.2) integrity) i assets)
    = dom i ∪ ownKeys (JS.mapKeys assets)).
  { induction assets as [|[k a] assets IH]; intros i.
    - unfold ownKeys. cbn. set_solver.
    - cbn [foldl fst snd]. rewrite IH, setProp_dom.
      unfold ownKeys, JS.mapKeys. cbn [map fst].
      rewrite !filter_cons, filter_nil.
      destruct (decide (k ≠ "__proto__")); set_solver. }
  rewrite Hgen, dom_empty_L. set_solver.
Qed.

(** The closure state keeps every asset under its own filename, and
    every plugin and WASM record it holds is also in the asset map. *)
Definition wellFormed (st : PluginState) : Prop :=
  (∀ k a, (k, a) ∈ assetMap st → filename a = k)
  ∧ (∀ p, p ∈ pluginAssets st → filename (plugin_base p) ∈ JS.mapKeys (assetMap st))
  ∧ (∀ w, w ∈ wasmAssets st → filename (wasm_base w) ∈ JS.mapKeys (assetMap st)).

Lemma elem_of_mapSet {V} k (v : V) m k' v' :
  (k', v') ∈ JS.mapSet k v m → (k', v') ∈ m ∨ (k' = k ∧ v' = v).
Proof.
  induction m as [|[k0 v0] m IH]; cbn [JS.mapSet].
  - rewrite list_elem_of_singleton. intros [= -> ->]. by right.
  - destruct (String.eqb_spec k0 k) as [->|Hne]; rewrite !elem_of_cons.
    + intros [[= -> ->]|Hin]; [by right|left; by right].
    + intros [Heq|Hin]; [left; by left|].
      destruct (IH Hin) as [?|?]; [left; by right|by right].
Qed.

Lemma mapSet_keys_incl {V} k (v : V) m k' :
  k' ∈ JS.mapKeys m ∨ k' = k → k' ∈ JS.mapKeys (JS.mapSet k v m).
Proof.
  rewrite mapSet_keys. case_decide; rewrite ?elem_of_app, ?list_elem_of_singleton;
    intros [?| ->]; auto.
Qed.

Lemma processEntry_wellFormed env config st t e :
  wellFormed st → wellFormed (processEntry env config (st, t) e).1.
Proof.
  intros (H1 & H2 & H3).
  pose proof (assetMap_processEntry env config st t e) as Emap.
  split; [|split].
  - intros k a. rewrite Emap. intros Hin.
    apply elem_of_mapSet in Hin as [Hin|[-> ->]]; [by apply H1|reflexivity].
  - intros p Hp. rewrite Emap. apply mapSet_keys_incl.
    destruct e as [f [source|code]]; cbn [processEntry fst snd] in Hp |- *.
    + destruct (JS.endsWith f ".wasm"); [left; by apply H2|].
      destruct (JS.includes f "plugin"); [|left; by apply H2].
      cbn [pluginAssets createPluginAssetInfo option_list] in Hp.
      apply elem_of_app in Hp as [Hp|Hp]; [left; by apply H2|].
      apply list_elem_of_singleton in Hp as ->. by right.
    + left. by apply H2.
  - intros w Hw. rewrite Emap. apply mapSet_keys_incl.
    destruct e as [f [source|code]]; cbn [processEntry fst snd] in Hw |- *.
    + destruct (JS.endsWith f ".wasm").
      * cbn [wasmAssets] in Hw.
        apply elem_of_app in Hw as [Hw|Hw]; [left; by apply H3|].
        apply list_elem_of_singleton in Hw as ->. by right.
      * destruct (JS.includes f "plugin"); left; by apply H3.
    + left. by apply H3.
Qed.

Lemma foldl_wellFormed env config bundle st t :
  wellFormed st → wellFormed (foldl (processEntry env config) (st, t) bundle).1.
Proof.
  revert st t. induction bundle as [|e bundle IH]; intros st t Hwf; [exact Hwf|].
  cbn [foldl]. destruct (processEntry env config (st, t) e) as [st1 t1] eqn:E.
  apply IH. change st1 with (st1, t1).1. rewrite <- E.
  by apply processEntry_wellFormed.
Qed.

Lemma findOr_elem p (l : list AssetInfo) other a :
  findOr p l other = Some a → a ∈ l ∨ other = Some a.
Proof.
  unfold findOr. destruct (find p l) as [b|] eqn:E; [|by right].
  intros [= <-]. left. apply find_some in E as [Hin _]. by apply list_elem_of_In.
Qed.

Lemma values_keys (m : list (string * AssetInfo)) a :
  (∀ k a, (k, a) ∈ m → filename a = k) →
  a ∈ JS.mapValues m → filename a ∈ JS.mapKeys m.
Proof.
  intros H1 Hin. unfold JS.mapValues, JS.mapKeys in *.
  apply list_elem_of_fmap in Hin as ([k a'] & -> & Hin).
  cbn [snd]. rewrite (H1 k a' Hin). apply list_elem_of_fmap. by exists (k, a').
Qed.

(** The three categories name assets of the map. *)
Lemma categories_in_map env t m plugins wasm config a :
  (core (assets (generateManifest env t m plugins wasm config)) = Some a
   ∨ orchestration (assets (generateManifest env t m plugins wasm config)) = Some a
   ∨ pluginFramework (assets (generateManifest env t m plugins wasm config)) = Some a) →
  a ∈ JS.mapValues m.
Proof.
  cbn [generateManifest assets core orchestration pluginFramework].
  assert (Hhead : ∀ b, head (JS.mapValues m) = Some b → b ∈ JS.mapValues m).
  { intros b. destruct (JS.mapValues m); [done|]. intros [= ->]. by left. }
  assert (Hcore : ∀ b,
    findOr (λ a, JS.includes (filename a) "core") (JS.mapValues m)
      (head (JS.mapValues m)) = Some b → b ∈ JS.mapValues m).
  { intros b Hb. apply findOr_elem in Hb as [?|?]; auto. }
  intros [Ha|[Ha|Ha]].
  - by apply Hcore.
  - apply findOr_elem in Ha as [?|?]; auto.
  - apply findOr_elem in Ha as [?|?]; auto.
Qed.

(** C2 (as amended).  The filename keys of [manifest.integrity] are
    the keys of the asset map [generateManifest] is given, one entry
    per asset or chunk of the bundle (the name ["__proto__"] apart,
    which an assignment does not create).  They are a superset, not a
    subset, of the filenames listed in [manifest.assets]: in the
    manifest [generateBundle] emits from a fresh plugin, every file
    listed under [core], [orchestration], [pluginFramework],
    [plugins] or [wasm] has an integrity entry. *)
Theorem integrity_keys_are_the_asset_map
    (env : Env) (config : CDNBuildConfig) (t : nat)
    (m : list (string * AssetInfo))
    (plugins : list PluginAssetInfo) (wasm : list WasmAssetInfo) :
  dom (integrity (generateManifest env t m plugins wasm config))
    = ownKeys (JS.mapKeys m)
  ∧ ∀ (t0 : nat) (bundle : list (string * BundleItem)) (manifest : AssetManifest),
      emittedManifest (generateBundle env config initialState t0 bundle).2
        = Some manifest →
      dom (integrity manifest)
        = ownKeys (JS.mapKeys (assetMap (generateBundle env config initialState t0 bundle).1.1))
      ∧ ∀ f, f ∈ listedFilenames (assets manifest) → f ≠ "__proto__" →
             f ∈ dom (integrity manifest).
Proof.
  split; [apply generateIntegrityMap_dom|].
  intros t0 bundle manifest. rewrite generateBundle_unfold. cbn zeta.
  cbn [fst snd app emittedManifest]. intros [= <-].
  set (st' := (foldl (processEntry env config) (initialState, t0) bundle).1).
  set (t' := (foldl (processEntry env config) (initialState, t0) bundle).2).
  assert (Hwf : wellFormed st').
  { apply foldl_wellFormed. split; [|split].
    - intros k a Hin. by apply elem_of_nil in Hin.
    - intros p Hin. by apply elem_of_nil in Hin.
    - intros w0 Hin. by apply elem_of_nil in Hin. }
  destruct Hwf as (H1 & H2 & H3).
  pose proof (generateIntegrityMap_dom (assetMap st') (wasmAssets st') (pluginAssets st'))
    as Hdom.
  split; [exact Hdom|].
  intros f Hf Hproto.
  change (integrity _) with
    (generateIntegrityMap (assetMap st') (wasmAssets st') (pluginAssets st')).
  rewrite Hdom. unfold ownKeys. rewrite elem_of_list_to_set, list_elem_of_filter.
  split; [exact Hproto|].
  unfold listedFilenames in Hf. rewrite !elem_of_app in Hf.
  assert (Hcat : ∀ o : option AssetInfo,
    (∀ a, o = Some a → a ∈ JS.mapValues (assetMap st')) →
    f ∈ option_list (filename <$> o) → f ∈ JS.mapKeys (assetMap st')).
  { intros [a|] Ho Hin; cbn in Hin; [|by apply elem_of_nil in Hin].
    apply list_elem_of_singleton in Hin as ->.
    apply values_keys; [exact H1|]. by apply Ho. }
  destruct Hf as [Hf|[Hf|[Hf|[Hf|Hf]]]].
  - eapply Hcat; [|exact Hf]. intros a Ha.
    eapply categories_in_map. left. exact Ha.
  - eapply Hcat; [|exact Hf]. intros a Ha.
    eapply categories_in_map. right. left. exact Ha.
  - eapply Hcat; [|exact Hf]. intros a Ha.
    eapply categories_in_map. right. right. exact Ha.
  - cbn [generateManifest assets Build.plugins] in Hf.
    apply list_elem_of_fmap in Hf as (p & -> & Hp). by apply H2.
  - cbn [generateManifest assets Build.wasm] in Hf.
    apply list_elem_of_fmap in Hf as (w & -> & Hw). by apply H3.
Qed.

End BuildIntegrity.

(** ** The manifest plugin: classification and the size check *)

Section BuildClassification.
Import Build.
Context `{Crypto}.

(** [a] is the first element of [l] that satisfies [p]. *)
Definition firstMatch (p : AssetInfo → bool) (l : list AssetInfo) (a : AssetInfo)
    : Prop :=
  ∃ before after,
    l = before ++ a :: after ∧ p a = true ∧ Forall (λ x, p x = false) before.

Definition noMatch (p : AssetInfo → bool) (l : list AssetInfo) : Prop :=
  Forall (λ x, p x = false) l.

(** The filename contains the substring. *)
Definition named (s : string) (a : AssetInfo) : bool := JS.includes (filename a) s.

Lemma find_firstMatch p l a : firstMatch p l a → find p l = Some a.
Proof.
  intros (before & after & -> & Hp & Hbefore).
  induction Hbefore as [|x before Hx _ IH]; cbn [app find].
  - by rewrite Hp.
  - by rewrite Hx.
Qed.

Lemma find_noMatch p l : noMatch p l → find p l = None.
Proof.
  intros Hno. induction Hno as [|x l Hx _ IH]; cbn [find]; [reflexivity|].
  by rewrite Hx.
Qed.

(** C6 (as amended).  [assets.core], [assets.orchestration] and
    [assets.pluginFramework] are the first asset, in the order of the
    asset map, whose filename contains ["core"], ["orchestration"]
    and ["plugin-framework"] respectively.  Where no filename
    contains ["core"], [core] is the first asset of the map; where no
    filename contains ["orchestration"] (["plugin-framework"]), the
    category falls back to the asset chosen as [core], which is the
    first asset of the map only when no filename contains ["core"]
    either. *)
Theorem generateManifest_classification
    (env : Env) (config : CDNBuildConfig) (t : nat)
    (m : list (string * AssetInfo))
    (plugins : list PluginAssetInfo) (wasm : list WasmAssetInfo) :
  (∀ a, firstMatch (named "core") (JS.mapValues m) a →
        core (assets (generateManifest env t m plugins wasm config)) = Some a)
  ∧ (noMatch (named "core") (JS.mapValues m) →
        core (assets (generateManifest env t m plugins wasm config))
          = head (JS.mapValues m))
  ∧ (∀ a, firstMatch (named "orchestration") (JS.mapValues m) a →
        orchestration (assets (generateManifest env t m plugins wasm config)) = Some a)
  ∧ (noMatch (named "orchestration") (JS.mapValues m) →
        orchestration (assets (generateManifest env t m plugins wasm config))
          = core (assets (generateManifest env t m plugins wasm config)))
  ∧ (∀ a, firstMatch (named "plugin-framework") (JS.mapValues m) a →
        pluginFramework (assets (generateManifest env t m plugins wasm config)) = Some a)
  ∧ (noMatch (named "plugin-framework") (JS.mapValues m) →
        pluginFramework (assets (generateManifest env t m plugins wasm config))
          = core (assets (generateManifest env t m plugins wasm config)))
  ∧ (noMatch (named "core") (JS.mapValues m) →
     noMatch (named "orchestration") (JS.mapValues m) →
     noMatch (named "plugin-framework") (JS.mapValues m) →
        orchestration (assets (generateManifest env t m plugins wasm config))
          = head (JS.mapValues m)
        ∧ pluginFramework (assets (generateManifest env t m plugins wasm config))
          = head (JS.mapValues m)).
Proof.
  cbn [generateManifest assets core orchestration pluginFramework].
  unfold findOr. fold (named "core") (named "orchestration") (named "plugin-framework").
  split; [|split; [|split; [|split; [|split; [|split]]]]].
  - intros a Ha. by rewrite (find_firstMatch _ _ _ Ha).
  - intros Hno. by rewrite (find_noMatch _ _ Hno).
  - intros a Ha. by rewrite (find_firstMatch _ _ _ Ha).
  - intros Hno. by rewrite (find_noMatch _ _ Hno).
  - intros a Ha. by rewrite (find_firstMatch _ _ _ Ha).
  - intros Hno. by rewrite (find_noMatch _ _ Hno).
  - intros Hc Ho Hp.
    by rewrite (find_noMatch _ _ Hc), (find_noMatch _ _ Ho), (find_noMatch _ _ Hp).
Qed.

(** The issues of the size check are the violations of the table's
    limits, each asset against each pattern its filename contains. *)
Lemma sizeIssues_file m f a pattern limit :
  (f, a) ∈ m → (pattern, limit) ∈ SIZE_LIMITS →
  JS.includes f pattern = true → limit < size a →
  fileIssue f (size a) limit ∈ sizeIssues m.
Proof.
  intros Hfa Hpl Hinc Hlt. unfold sizeIssues.
  apply elem_of_app. left.
  apply list_elem_of_In, in_flat_map. exists (f, a).
  split; [by apply list_elem_of_In|].
  apply in_flat_map. exists (pattern, limit).
  split; [by apply list_elem_of_In|].
  rewrite Hinc. destruct (Z.ltb_spec limit (size a)); [|lia].
  by left.
Qed.

Lemma sizeIssues_total m :
  SIZE_LIMITS_total < sumBy size (JS.mapValues m) →
  totalIssue (sumBy size (JS.mapValues m)) ∈ sizeIssues m.
Proof.
  intros Hlt. unfold sizeIssues. apply elem_of_app. right.
  destruct (Z.ltb_spec SIZE_LIMITS_total (sumBy size (JS.mapValues m))); [|lia].
  by left.
Qed.

Lemma sizeIssues_inv m issue :
  issue ∈ sizeIssues m →
  (∃ f a pattern limit,
     (f, a) ∈ m ∧ (pattern, limit) ∈ SIZE_LIMITS ∧ JS.includes f pattern = true
     ∧ limit < size a ∧ issue = fileIssue f (size a) limit)
  ∨ (SIZE_LIMITS_total < sumBy size (JS.mapValues m)
     ∧ issue = totalIssue (sumBy size (JS.mapValues m))).
Proof.
  unfold sizeIssues. rewrite elem_of_app. intros [Hin|Hin].
  - left. apply list_elem_of_In, in_flat_map in Hin as ([f a] & Hfa & Hin).
    apply in_flat_map in Hin as ([pattern limit] & Hpl & Hin).
    destruct (JS.includes f pattern) eqn:Hinc; [|by destruct Hin].
    destruct (Z.ltb_spec limit (size a)); [|by destruct Hin].
    destruct Hin as [<-|[]].
    exists f, a, pattern, limit. rewrite !list_elem_of_In. auto.
  - right. destruct (Z.ltb_spec SIZE_LIMITS_total (sumBy size (JS.mapValues m)));
      [|by apply elem_of_nil in Hin].
    apply list_elem_of_singleton in Hin. auto.
Qed.

(** C9.  After the manifest is generated and emitted, every asset is
    checked against the size table (2 MB for [core.min.js], 500 KB
    for [plugin-framework.min.js] and for a plugin, 1.5 MB for a WASM
    file, 5 MB in total), a filename against every pattern it
    contains; the violations, and only they, are the issues.  For
    every asset map the check does nothing but warn: [generateBundle]
    completes, the manifest is its first emitted file, and the one
    effect of the check is a [console.warn] of the issues, after all
    files were emitted. *)
Theorem validateBundleSizes_only_warns
    (env : Env) (config : CDNBuildConfig) (st : PluginState) (t : nat)
    (bundle : list (string * BundleItem)) (m : list (string * AssetInfo)) :
  SIZE_LIMITS =
    [ ("core.min.js", 2097152); ("orchestration.min.js", 819200);
      ("plugin-framework.min.js", 512000); ("wasm", 1572864);
      ("plugin", 512000); ("total", 5242880) ]
  ∧ (∃ manifest,
       emittedManifest (generateBundle env config st t bundle).2 = Some manifest
       ∧ (generateBundle env config st t bundle).2 =
           [EmitFile "manifest.json" (ManifestJson manifest)]
           ++ generateProviderConfigs manifest config
           ++ validateBundleSizes
                (assetMap (generateBundle env config st t bundle).1.1) config)
  ∧ ((sizeIssues m = [] ∧ validateBundleSizes m config = [])
     ∨ (sizeIssues m ≠ [] ∧ validateBundleSizes m config = [ConsoleWarn (sizeIssues m)]))
  ∧ (∀ f a pattern limit,
       (f, a) ∈ m → (pattern, limit) ∈ SIZE_LIMITS →
       JS.includes f pattern = true → limit < size a →
       fileIssue f (size a) limit ∈ sizeIssues m)
  ∧ (SIZE_LIMITS_total < sumBy size (JS.mapValues m) →
       totalIssue (sumBy size (JS.mapValues m)) ∈ sizeIssues m)
  ∧ (∀ issue, issue ∈ sizeIssues m →
       (∃ f a pattern limit,
          (f, a) ∈ m ∧ (pattern, limit) ∈ SIZE_LIMITS ∧ JS.includes f pattern = true
          ∧ limit < size a ∧ issue = fileIssue f (size a) limit)
       ∨ (SIZE_LIMITS_total < sumBy size (JS.mapValues m)
          ∧ issue = totalIssue (sumBy size (JS.mapValues m)))).
Proof.
  split; [reflexivity|]. split.
  { rewrite generateBundle_unfold. cbn zeta. cbn [fst snd].
    eexists. split; reflexivity. }
  split.
  { unfold validateBundleSizes. destruct (sizeIssues m) as [|issue rest]; [by left|].
    right. split; [discriminate|reflexivity]. }
  split; [apply sizeIssues_file|].
  split; [apply sizeIssues_total|apply sizeIssues_inv].
Qed.

End BuildClassification.

(** ** The manifest plugin on concrete bundles *)

Section BuildExamples.
Import Build.
#[local] Existing Instance nodeCrypto.

(** Two processes: different package versions, commits and clocks. *)
Definition morning : Env :=
  {| npm_package_version := Some "1.2.0";
     process_version := "v20.11.0";
     git_rev_parse_HEAD := Some "3f2c9a1";
     git_rev_parse_abbrev_ref_HEAD := Some "main";
     clock := λ n, "2025-01-01T08:00:00." +:+ pretty n +:+ "Z" |}.

Definition evening : Env :=
  {| npm_package_version := None;
     process_version := "v22.3.0";
     git_rev_parse_HEAD := None;
     git_rev_parse_abbrev_ref_HEAD := None;
     clock := λ n, "2025-06-30T21:15:30." +:+ pretty n +:+ "Z" |}.

(** The bytes [00 61 73 6d] of a WASM header. *)
Definition wasmHeader : string := String (ascii_of_nat 0) "asm".

Definition sortedBundle : list (string * BundleItem) :=
  [ ("app.wasm", asset wasmHeader); ("core.min.js", chunk "helloworld") ].

Lemma sortedBundle_sorted : Sorted (strict String.le) (map fst sortedBundle).
Proof. repeat constructor; compute; tauto. Defined.

Lemma generateManifest_deterministic_witness :
  Sorted (strict String.le) (map fst sortedBundle)
  ∧ ∃ m1 m2,
      emittedManifest
        (generateBundle morning DEFAULT_CDN_CONFIG initialState 0 sortedBundle).2 = Some m1
      ∧ emittedManifest
          (generateBundle evening DEFAULT_CDN_CONFIG initialState 7 sortedBundle).2 = Some m2
      ∧ hashesOf
          (assetMap (generateBundle morning DEFAULT_CDN_CONFIG initialState 0 sortedBundle).1.1)
        = map (λ e, (e.1, sha384_hex (contentOf e.2))) sortedBundle
      ∧ hashesOf
          (assetMap (generateBundle evening DEFAULT_CDN_CONFIG initialState 7 sortedBundle).1.1)
        = hashesOf
            (assetMap (generateBundle morning DEFAULT_CDN_CONFIG initialState 0 sortedBundle).1.1)
      ∧ buildHash m1 = buildHash m2
      ∧ integrity m1 = integrity m2
      ∧ buildHash m1 =
          canonicalBuildHash
            (JS.mapValues
               (assetMap
                  (generateBundle morning DEFAULT_CDN_CONFIG initialState 0 sortedBundle).1.1)).
Proof.
  split; [exact sortedBundle_sorted|].
  exact (generateManifest_deterministic morning evening
           DEFAULT_CDN_CONFIG DEFAULT_CDN_CONFIG 0 7 sortedBundle sortedBundle_sorted).
Defined.

(** The build hash of that bundle, as Node prints it. *)
Example sortedBundle_buildHash :
  buildHash <$> emittedManifest
    (generateBundle morning DEFAULT_CDN_CONFIG initialState 0 sortedBundle).2
  = Some "724c0fc2".
Proof. vm_compute. reflexivity. Qed.

(** The same two files enumerated the other way round have another
    build hash: the code concatenates in the order of the asset map,
    and does not sort. *)
Example unsorted_bundle_buildHash :
  buildHash <$> emittedManifest
    (generateBundle morning DEFAULT_CDN_CONFIG initialState 0 (rev sortedBundle)).2
  = Some "17d03e27".
Proof. vm_compute. reflexivity. Qed.

(** A bundle with a chunk that belongs to no category. *)
Definition vendorBundle : list (string * BundleItem) :=
  [ ("core.min.js", chunk "helloworld"); ("vendor.js", chunk "x") ].

(** C2 (as stated) fails: ["vendor.js"] has an integrity entry and is
    listed nowhere in [manifest.assets]. *)
Lemma integrity_key_not_listed_in_assets :
  ∃ manifest,
    emittedManifest
      (generateBundle morning DEFAULT_CDN_CONFIG initialState 0 vendorBundle).2
      = Some manifest
    ∧ "vendor.js" ∈ dom (integrity manifest)
    ∧ "vendor.js" ∉ listedFilenames (assets manifest).
Proof.
  rewrite generateBundle_unfold. cbn zeta. cbn [snd app emittedManifest].
  eexists. split; [reflexivity|].
  set (st' := (foldl (processEntry morning DEFAULT_CDN_CONFIG) (initialState, 0%nat)
                 vendorBundle).1).
  assert (Ekeys : JS.mapKeys (assetMap st') = ["core.min.js"; "vendor.js"])
    by (vm_compute; reflexivity).
  split.
  - change (integrity _) with
      (generateIntegrityMap (assetMap st') (wasmAssets st') (pluginAssets st')).
    rewrite generateIntegrityMap_dom, Ekeys. unfold ownKeys.
    rewrite elem_of_list_to_set, list_elem_of_filter, !elem_of_cons.
    split; [discriminate|auto].
  - match goal with |- _ ∉ ?l =>
      assert (Elisted : l = ["core.min.js"; "core.min.js"; "core.min.js"])
        by (vm_compute; reflexivity);
      rewrite Elisted end.
    rewrite !not_elem_of_cons. repeat split; try discriminate.
    apply not_elem_of_nil.
Qed.

(** A bundle whose first file is not the core file. *)
Definition appFirstBundle : list (string * BundleItem) :=
  [ ("app.js", chunk "a"); ("core.min.js", chunk "helloworld") ].

(** C6 (as stated) fails: no filename contains ["orchestration"] or
    ["plugin-framework"], the first asset of the bundle is [app.js],
    and both categories are [core.min.js]. *)
Lemma fallback_is_the_core_asset :
  ∃ manifest,
    emittedManifest
      (generateBundle morning DEFAULT_CDN_CONFIG initialState 0 appFirstBundle).2
      = Some manifest
    ∧ noMatch (named "orchestration")
        (JS.mapValues
           (assetMap (generateBundle morning DEFAULT_CDN_CONFIG initialState 0
                        appFirstBundle).1.1))
    ∧ noMatch (named "plugin-framework")
        (JS.mapValues
           (assetMap (generateBundle morning DEFAULT_CDN_CONFIG initialState 0
                        appFirstBundle).1.1))
    ∧ filename <$> head
        (JS.mapValues
           (assetMap (generateBundle morning DEFAULT_CDN_CONFIG initialState 0
                        appFirstBundle).1.1)) = Some "app.js"
    ∧ filename <$> orchestration (assets manifest) = Some "core.min.js"
    ∧ filename <$> pluginFramework (assets manifest) = Some "core.min.js".
Proof.
  eexists. split; [vm_compute; reflexivity|].
  split; [vm_compute; repeat constructor|].
  split; [vm_compute; repeat constructor|].
  split; [vm_compute; reflexivity|].
  split; vm_compute; reflexivity.
Qed.

Definition assetOfSize (f : string) (n : Z) : AssetInfo :=
  {| filename := f; size := n; compressedSize := JS.floorMul07 n;
     hash := ""; mimeType := getMimeType f;
     cacheDuration := getCacheDuration f DEFAULT_CDN_CONFIG;
     lastModified := "" |}.

(** A [core.min.js] of 3 MB is warned about. *)
Example core_of_3MB_warns :
  validateBundleSizes
    [("core.min.js", assetOfSize "core.min.js" (3 * 1024 * 1024))] DEFAULT_CDN_CONFIG
  = [ConsoleWarn ["core.min.js exceeds size limit: 3145728 > 2097152 bytes"]].
Proof. vm_compute. reflexivity. Qed.

(** The table goes by filename pattern: a 3 MB core file under
    another name matches no pattern and is not warned about. *)
Example core_under_another_name :
  validateBundleSizes
    [("dataprism-core.js", assetOfSize "dataprism-core.js" (3 * 1024 * 1024))]
    DEFAULT_CDN_CONFIG
  = [].
Proof. vm_compute. reflexivity. Qed.

End BuildExamples.

(** ** The orchestrator: the asset scan *)

(** Induction over a file-system tree, with the hypothesis for every
    entry of a directory. *)
Section NodeInduction.
Import Deploy.
Variable P : Node → Prop.
Hypothesis HFile : ∀ size content, P (File size content).
Hypothesis HDir : ∀ entries, Forall (λ en, P en.2) entries → P (Dir entries).
Hypothesis HOther : P Other.
Hypothesis HBroken : P Broken.

Fixpoint Node_induction (n : Node) : P n :=
  match n with
  | File size content => HFile size content
  | Dir entries =>
      HDir entries
        ((fix all (es : list (string * Node)) : Forall (λ en, P en.2) es :=
            match es with
            | [] => List.Forall_nil _
            | (e, n') :: rest =>
                @List.Forall_cons _ (λ en, P en.2) (e, n') rest
                  (Node_induction n') (all rest)
            end) entries)
  | Other => HOther
  | Broken => HBroken
  end.
End NodeInduction.

Section DeployScan.
Import Deploy.
Context `{Crypto} `{JsonParser}.

(** [sum(f.size for f in files)] *)
Definition sumSizes (files : list AssetFile) : Z :=
  foldr (λ f acc, size f + acc) 0 files.

Lemma sumSizes_app l1 l2 : sumSizes (l1 ++ l2) = sumSizes l1 + sumSizes l2.
Proof.
  induction l1 as [|f l1 IH]; cbn [app sumSizes foldr]; [reflexivity|].
  fold (sumSizes (l1 ++ l2)) (sumSizes l1). lia.
Qed.

(** The recursive call on a subdirectory is [scanDirectory]. *)
Lemma scanEntry_Dir relativePath entry entries st :
  scanEntry relativePath entry (Dir entries) st =
  scanDirectory (pathJoin relativePath entry) entries st.
Proof.
  cbn [scanEntry]. revert st.
  induction entries as [|[e n] rest IH]; intros st; [reflexivity|].
  cbn [scanDirectory]. unfold_bind.
  destruct (scanEntry (pathJoin relativePath entry) e n st) as [st'|error];
    cbn [cbind]; [apply IH|reflexivity].
Qed.

(** The running total is the sum of the sizes of the files pushed. *)
Definition scanInvariant (st : ScanState) : Prop :=
  scan_totalSize st = sumSizes (scan_files st).

Lemma scanDirectory_invariant_of entries :
  Forall (λ en : string * Node,
    ∀ relativePath entry st st', scanInvariant st →
      scanEntry relativePath entry en.2 st = Return st' → scanInvariant st') entries →
  ∀ relativePath st st', scanInvariant st →
    scanDirectory relativePath entries st = Return st' → scanInvariant st'.
Proof.
  induction 1 as [|[e n] rest Hn _ IH]; intros relativePath st st' Hinv Hscan.
  - cbn [scanDirectory] in Hscan. by injection Hscan as <-.
  - cbn [scanDirectory] in Hscan. unfold_bind. cbn [snd] in Hn.
    revert Hscan. unfold_bind.
    destruct (scanEntry relativePath e n st) as [st1|error] eqn:E;
      cbn [cbind]; [|discriminate].
    intros Hscan. eapply IH; [|exact Hscan]. eapply Hn; [exact Hinv|exact E].
Qed.

Lemma scanEntry_invariant n :
  ∀ relativePath entry st st', scanInvariant st →
    scanEntry relativePath entry n st = Return st' → scanInvariant st'.
Proof.
  induction n as [sz content|entries IH| |] using Node_induction;
    intros relativePath entry st st' Hinv Hscan.
  - cbn [scanEntry] in Hscan. destruct content as [content|]; [|discriminate].
    injection Hscan as <-. unfold scanInvariant in *. cbn [scan_totalSize scan_files].
    rewrite sumSizes_app, Hinv. cbn [sumSizes foldr size]. lia.
  - rewrite scanEntry_Dir in Hscan.
    eapply scanDirectory_invariant_of; eauto.
  - cbn [scanEntry] in Hscan. by injection Hscan as <-.
  - discriminate.
Qed.

Lemma scanDirectory_invariant entries relativePath st st' :
  scanInvariant st →
  scanDirectory relativePath entries st = Return st' → scanInvariant st'.
Proof.
  apply scanDirectory_invariant_of. apply Forall_forall.
  intros [e n] _. cbn [snd]. apply scanEntry_invariant.
Qed.

(** C7.  Whenever [prepareAssetBundle] returns a bundle, whatever the
    directory tree, the number of files in it and the libraries used
    to hash and parse, [totalSize] is the sum of the sizes of its
    files. *)
Theorem prepareAssetBundle_totalSize
    (w : World) (assetsDir : string) (bundle : AssetBundle) :
  prepareAssetBundle w assetsDir = Return bundle →
  totalSize bundle = sumSizes (files bundle).
Proof.
  unfold prepareAssetBundle.
  destruct (existsSync w assetsDir); cbn [negb]; [|discriminate].
  destruct (fs w assetsDir) as [[size content|entries| |]|]; try discriminate.
  unfold_bind.
  destruct (scanDirectory "" entries {| scan_files := []; scan_totalSize := 0 |})
    as [st|error] eqn:Hscan; cbn [cbind]; [|discriminate].
  assert (Hinv : scanInvariant st).
  { eapply scanDirectory_invariant; [|exact Hscan]. reflexivity. }
  destruct (match childNamed "manifest.json" entries with
            | Some (File _ (Some text)) =>
                match JSON_parse text with
                | Some m => Return m
                | None => Throw "SyntaxError: manifest.json is not valid JSON"
                end
            | Some (File _ None) => Throw "manifest.json cannot be read"
            | Some (Dir _) => Throw "EISDIR: illegal operation on a directory, read"
            | Some Other => Throw "manifest.json cannot be read"
            | Some Broken | None => Return (Json.JObj [])
            end) as [manifest|error]; cbn [cbind]; [|discriminate].
  intros [= <-]. exact Hinv.
Qed.

(** A tree the scan goes through: no dangling link, no unreadable
    file. *)
Fixpoint scannable (n : Node) : bool :=
  match n with
  | File _ content => bool_decide (is_Some content)
  | Dir entries =>
      (fix all (es : list (string * Node)) : bool :=
         match es with
         | [] => true
         | (_, n') :: rest => scannable n' && all rest
         end) entries
  | Other => true
  | Broken => false
  end.

Definition allScannable (entries : list (string * Node)) : bool :=
  forallb (λ en, scannable en.2) entries.

Lemma scannable_Dir entries : scannable (Dir entries) = allScannable entries.
Proof.
  cbn [scannable]. induction entries as [|[e n] rest IH]; [reflexivity|].
  cbn [allScannable forallb snd]. by rewrite IH.
Qed.

Lemma scanDirectory_returns_of entries :
  Forall (λ en : string * Node,
    scannable en.2 = true →
    ∀ relativePath entry st, ∃ st', scanEntry relativePath entry en.2 st = Return st')
    entries →
  allScannable entries = true →
  ∀ relativePath st, ∃ st', scanDirectory relativePath entries st = Return st'.
Proof.
  induction 1 as [|[e n] rest Hn _ IH]; intros Hall relativePath st.
  - by exists st.
  - cbn [allScannable forallb snd] in Hall. apply andb_true_iff in Hall as [Hn' Hrest].
    cbn [scanDirectory]. unfold_bind. cbn [snd] in Hn.
    destruct (Hn Hn' relativePath e st) as [st1 ->]. cbn [cbind].
    by apply IH.
Qed.

Lemma scanEntry_returns n :
  scannable n = true →
  ∀ relativePath entry st, ∃ st', scanEntry relativePath entry n st = Return st'.
Proof.
  induction n as [sz content|entries IH| |] using Node_induction;
    intros Hn relativePath entry st.
  - cbn [scannable] in Hn. apply bool_decide_eq_true in Hn as [content' ->].
    cbn [scanEntry]. eauto.
  - rewrite scannable_Dir in Hn. rewrite scanEntry_Dir.
    by apply scanDirectory_returns_of.
  - cbn [scanEntry]. eauto.
  - discriminate.
Qed.

(** X1.  [prepareAssetBundle] returns a bundle for every existing
    directory whose tree is scannable (no dangling link, no
    unreadable file) and which holds no [manifest.json], or one that
    parses. *)
Lemma prepareAssetBundle_returns w assetsDir entries :
  fs w assetsDir = Some (Dir entries) →
  allScannable entries = true →
  (childNamed "manifest.json" entries = None
   ∨ ∃ size text m, childNamed "manifest.json" entries = Some (File size (Some text))
                    ∧ JSON_parse text = Some m) →
  ∃ bundle, prepareAssetBundle w assetsDir = Return bundle.
Proof.
  intros Hfs Hall Hmanifest. unfold prepareAssetBundle, existsSync. rewrite Hfs.
  cbn [negb]. unfold_bind.
  destruct (scanDirectory_returns_of entries) with (relativePath := "")
    (st := {| scan_files := []; scan_totalSize := 0 |}) as [st ->]; [|exact Hall|].
  { apply Forall_forall. intros [e n] _. cbn [snd]. apply scanEntry_returns. }
  cbn [cbind].
  destruct Hmanifest as [->|(size & text & m & -> & ->)]; cbn [cbind]; eauto.
Qed.

End DeployScan.

(** ** The orchestrator: dry runs *)

Section DeployDryRun.
Import Deploy.
Context `{Crypto} `{JsonParser}.

Definition isDryRun (options : DeploymentOptions) : Prop := dryRun options = Some true.

(** No file of the bundle is grouped under a key that every object
    inherits.  (The two keys are ASCII words without [k], and
    outside ASCII only the Kelvin sign lower-cases to a string of
    ASCII letters, so this test comes out the same under the
    lower-casing of JavaScript as under that of the model.) *)
Definition plainTypes (files : list AssetFile) : Prop :=
  Forall (λ f, JS.inheritedKey (assetType f) = false) files.

Lemma groupFiles_returns files groups :
  plainTypes files → ∃ groups', groupFiles files groups = Return groups'.
Proof.
  intros Hplain. revert groups.
  induction Hplain as [|f files Hf _ IH]; intros groups; cbn [groupFiles]; [eauto|].
  unfold groupStep. rewrite Hf. unfold_bind. cbn [cbind]. apply IH.
Qed.

Lemma printAssetSummary_returns assets :
  plainTypes (files assets) → printAssetSummary assets = Return tt.
Proof.
  intros Hplain. unfold printAssetSummary, groupAssetsByType.
  by destruct (groupFiles_returns (files assets) [] Hplain) as [groups ->].
Qed.

Lemma plainTypes_dec files : {plainTypes files} + {¬ plainTypes files}.
Proof. apply Forall_dec. intros f. apply bool_eq_dec. Defined.

(** The error of [groups[type].push(file)] at an inherited key. *)
Definition pushTypeError : string := "TypeError: groups[type].push is not a function".

Lemma groupFiles_throws files groups :
  ¬ plainTypes files → groupFiles files groups = Throw pushTypeError.
Proof.
  revert groups. induction files as [|f files IH]; intros groups Hnot.
  - destruct Hnot. constructor.
  - cbn [groupFiles]. unfold groupStep.
    destruct (JS.inheritedKey (assetType f)) eqn:Hf; [reflexivity|].
    unfold_bind. cbn [cbind]. apply IH. intros Hplain. apply Hnot.
    by constructor.
Qed.

Lemma printAssetSummary_throws assets :
  ¬ plainTypes (files assets) → printAssetSummary assets = Throw pushTypeError.
Proof.
  intros Hnot. unfold printAssetSummary, groupAssetsByType.
  by rewrite (groupFiles_throws (files assets) [] Hnot).
Qed.




(** A dry run, step by step. *)
Lemma deploy_dryRun_unfold w options :
  isDryRun options →
  deploy w options =
  match loadConfiguration w options with
  | Throw error => ([ConsoleError error], Throw error)
  | Return config =>
      match prepareAssetBundle w (JS.orElse (assetsDir options) "cdn/dist") with
      | Throw error => ([ConsoleError error], Throw error)
      | Return assets =>
          match printAssetSummary assets with
          | Throw error => ([ConsoleError error], Throw error)
          | Return _ => ([], Return (dryRunResult config))
          end
      end
  end.
Proof.
  intros Hdry. unfold deploy. rewrite Hdry.
  cbv [mbind run_bind mret run_ret lift emit].
  destruct (loadConfiguration w options) as [config|error]; [|reflexivity].
  cbn [rbind rcatch].
  destruct (prepareAssetBundle w _) as [assets|error]; [|reflexivity].
  cbn [rbind rcatch app].
  destruct (printAssetSummary assets) as [[]|error]; reflexivity.
Qed.


(** C10.  A dry run does not bypass the preconditions: the
    configuration is loaded and the assets directory is scanned
    before the dry-run branch.  With [dryRun = true], an error of the
    configuration is thrown as it is (for the target [github-pages]
    without a repository, and without a configuration file that could
    name one, it is the "GitHub repository is required" error), and,
    the configuration loaded, an assets directory that does not exist
    makes the call throw "Assets directory not found"; in neither
    case is the dry-run result returned. *)
Theorem dry_run_checks_preconditions (w : World) (options : DeploymentOptions) :
  isDryRun options →
  (∀ error, loadConfiguration w options = Throw error →
     deploy w options = ([ConsoleError error], Throw error))
  ∧ (configFile options = None →
     JS.orElse (opt_target options) "github-pages" = "github-pages" →
     JS.orElse (repository options) "" = "" →
     deploy w options =
       ([ConsoleError "GitHub repository is required for GitHub Pages deployment"],
        Throw "GitHub repository is required for GitHub Pages deployment"))
  ∧ (∀ config, loadConfiguration w options = Return config →
     existsSync w (JS.orElse (assetsDir options) "cdn/dist") = false →
     deploy w options =
       ([ConsoleError ("Assets directory not found: "
                       +:+ JS.orElse (assetsDir options) "cdn/dist")],
        Throw ("Assets directory not found: "
               +:+ JS.orElse (assetsDir options) "cdn/dist"))).
Proof.
  intros Hdry. split; [|split].
  - intros error Herr. by rewrite (deploy_dryRun_unfold w options Hdry), Herr.
  - intros Hfile Htarget Hrepo.
    rewrite (deploy_dryRun_unfold w options Hdry).
    assert (Hload : loadConfiguration w options =
              Throw "GitHub repository is required for GitHub Pages deployment").
    { unfold loadConfiguration. rewrite Hfile, Htarget. unfold_bind. cbn [cbind].
      assert (Hno : setIf "repository" (repository options)
                      (Json.objSet "environment"
                         (Json.JStr (JS.orElse (opt_environment options) "production"))
                         (Json.objSet "target" (Json.JStr "github-pages")
                            DEFAULT_DEPLOYMENT_CONFIG))
                    = Json.objSet "environment"
                         (Json.JStr (JS.orElse (opt_environment options) "production"))
                         (Json.objSet "target" (Json.JStr "github-pages")
                            DEFAULT_DEPLOYMENT_CONFIG)).
      { unfold setIf. destruct (repository options) as [r|]; [|reflexivity].
        cbn [JS.orElse] in Hrepo. destruct (JS.truthy r) eqn:Hr; [|reflexivity].
        subst r. discriminate. }
      rewrite Hno.
      unfold setIf.
      destruct (branch options) as [b|], (customDomain options) as [c|],
        (baseUrl options) as [u|];
        repeat match goal with |- context [JS.truthy ?s] => destruct (JS.truthy s) end;
        reflexivity. }
    by rewrite Hload.
  - intros config Hconfig Hdir.
    rewrite (deploy_dryRun_unfold w options Hdry), Hconfig.
    unfold prepareAssetBundle. by rewrite Hdir.
Qed.

End DeployDryRun.

(** ** The orchestrator on concrete directories *)

(** A parser given by the texts it is asked about: a text of the table
    parses to its value; the examples give it no other text than the
    malformed ["{"]. *)
Definition tableParser (table : list (string * Json.t)) : JsonParser :=
  {| JSON_parse := λ text, snd <$> find (λ kv, String.eqb kv.1 text) table |}.

Section DeployExamples.
Import Deploy.
#[local] Existing Instance nodeCrypto.
#[local] Instance exampleParser : JsonParser := tableParser [("{}", Json.JObj [])].

Definition failedDeployment : DeploymentResult :=
  {| success := false; deploymentId := "deploy_0_000000"; url := Json.JStr "";
     logs := ["Deployment failed: GitHub token is required"]; metrics := None;
     error := Some "GitHub token is required (set GITHUB_TOKEN environment variable)" |}.

(** A machine without any environment variable, whose directory
    [cdn/dist] holds [tree] (or does not exist), and from which the
    provider cannot be reached. *)
Definition worldWith (tree : option Node) : World :=
  {| fs := λ p, if String.eqb p "cdn/dist" then tree else None;
     env := λ _, None;
     now_ms := 1735718400000;
     random36 := "0.k3j9x2abcde";
     now_iso := "2025-01-01T08:00:00.000Z";
     provider_testConnection := false;
     provider_deploy := λ _, failedDeployment |}.

(** A directory of two files: a script of 10 bytes and a WASM file
    of 4 bytes. *)
Definition scenarioEntries : list (string * Node) :=
  [ ("core.min.js", File 10 (Some "helloworld"));
    ("app.wasm", File 4 (Some wasmHeader)) ].

Definition scenarioTree : Node := Dir scenarioEntries.

(** [deploy --dry-run --repository acme/site] *)
Definition dryRunOptions : DeploymentOptions :=
  {| opt_target := None; opt_environment := None; dryRun := Some true;
     validate := None; force := None; configFile := None; assetsDir := None;
     baseUrl := None; repository := Some "acme/site"; branch := None;
     customDomain := None |}.

Definition emptyBundle : AssetBundle :=
  {| files := []; manifest := Json.JNull; totalSize := 0;
     metadata := {| meta_deploymentId := ""; meta_timestamp := "";
                    meta_target := ""; meta_environment := "" |} |}.

Definition scenarioBundle : AssetBundle :=
  Eval vm_compute in
    match prepareAssetBundle (worldWith (Some scenarioTree)) "cdn/dist" with
    | Return bundle => bundle
    | Throw _ => emptyBundle
    end.

Definition scenarioConfig : Config :=
  Eval vm_compute in
    match loadConfiguration (worldWith (Some scenarioTree)) dryRunOptions with
    | Return config => config
    | Throw _ => []
    end.

(** The scenario: two files with their MIME types, 14 bytes. *)
Example scenario_scan :
  map (λ f, (path f, mimeType f, size f)) (files scenarioBundle)
    = [ ("core.min.js", Mime "application/javascript", 10);
        ("app.wasm", Mime "application/wasm", 4) ]
  ∧ totalSize scenarioBundle = 14.
Proof. split; reflexivity. Qed.

Lemma scenario_prepared :
  prepareAssetBundle (worldWith (Some scenarioTree)) "cdn/dist" = Return scenarioBundle.
Proof. vm_compute. reflexivity. Defined.

Lemma prepareAssetBundle_totalSize_witness :
  prepareAssetBundle (worldWith (Some scenarioTree)) "cdn/dist" = Return scenarioBundle
  ∧ totalSize scenarioBundle = sumSizes (files scenarioBundle).
Proof.
  split; [exact scenario_prepared|].
  exact (prepareAssetBundle_totalSize (worldWith (Some scenarioTree)) "cdn/dist"
           scenarioBundle scenario_prepared).
Defined.

Lemma prepareAssetBundle_returns_witness :
  fs (worldWith (Some scenarioTree)) "cdn/dist" = Some (Dir scenarioEntries)
  ∧ allScannable scenarioEntries = true
  ∧ childNamed "manifest.json" scenarioEntries = None
  ∧ ∃ bundle,
      prepareAssetBundle (worldWith (Some scenarioTree)) "cdn/dist" = Return bundle.
Proof.
  split; [reflexivity|]. split; [reflexivity|]. split; [reflexivity|].
  apply (prepareAssetBundle_returns (worldWith (Some scenarioTree)) "cdn/dist"
           scenarioEntries eq_refl eq_refl).
  left. reflexivity.
Defined.

(** An empty directory gives the empty bundle of size 0. *)
Example empty_directory_scan :
  (λ b, (files b, totalSize b)) <$>
    match prepareAssetBundle (worldWith (Some (Dir []))) "cdn/dist" with
    | Return bundle => Some bundle
    | Throw _ => None
    end
  = Some ([], 0).
Proof. vm_compute. reflexivity. Qed.

Lemma scenario_configured :
  loadConfiguration (worldWith (Some scenarioTree)) dryRunOptions = Return scenarioConfig.
Proof. vm_compute. reflexivity. Defined.

Lemma scenario_plainTypes : plainTypes (files scenarioBundle).
Proof. repeat constructor. Defined.


(** Without [--dry-run] the same call reads the token, constructs the
    provider and calls it. *)
Example deploy_reaches_the_provider :
  (deploy (worldWith (Some scenarioTree))
     {| opt_target := None; opt_environment := None; dryRun := None;
        validate := None; force := None; configFile := None; assetsDir := None;
        baseUrl := None; repository := Some "acme/site"; branch := None;
        customDomain := None |}).1
  = [ ReadEnv "GITHUB_TOKEN"; ReadEnv "GIT_USERNAME"; ReadEnv "GIT_EMAIL";
      ProviderCreated "github-pages"; ProviderCall m_testConnection;
      ConsoleError "Failed to connect to deployment provider" ].
Proof. vm_compute. reflexivity. Qed.




(** A file whose extension is the name of a member every object
    inherits is scanned, and then makes the summary of the dry run
    throw. *)
Example inherited_key_breaks_the_summary :
  returned (prepareAssetBundle
              (worldWith (Some (Dir [("notes.constructor", File 2 (Some "hi"))])))
              "cdn/dist") = true
  ∧ deploy (worldWith (Some (Dir [("notes.constructor", File 2 (Some "hi"))])))
      dryRunOptions
    = ([ConsoleError "TypeError: groups[type].push is not a function"],
       Throw "TypeError: groups[type].push is not a function").
Proof. split; vm_compute; reflexivity. Qed.

Lemma dry_run_checks_preconditions_witness :
  isDryRun dryRunOptions
  ∧ existsSync (worldWith None) "cdn/dist" = false
  ∧ deploy (worldWith None) dryRunOptions
      = ([ConsoleError "Assets directory not found: cdn/dist"],
         Throw "Assets directory not found: cdn/dist").
Proof.
  split; [reflexivity|]. split; [reflexivity|].
  pose proof (dry_run_checks_preconditions (worldWith None) dryRunOptions eq_refl)
    as (_ & _ & Hdir).
  exact (Hdir scenarioConfig ltac:(vm_compute; reflexivity) eq_refl).
Defined.

(** The same dry run without [--repository]. *)
Example dry_run_without_repository :
  deploy (worldWith (Some scenarioTree))
    {| opt_target := None; opt_environment := None; dryRun := Some true;
       validate := None; force := None; configFile := None; assetsDir := None;
       baseUrl := None; repository := None; branch := None; customDomain := None |}
  = ([ConsoleError "GitHub repository is required for GitHub Pages deployment"],
     Throw "GitHub repository is required for GitHub Pages deployment").
Proof. vm_compute. reflexivity. Qed.

End DeployExamples.

(* ================================================================== *)
(** * Part III: further properties of the code                         *)
(* ================================================================== *)

(** ** The validator: what decides the verdict *)

Section ValidatorVerdict.
Import Validator.
Variable options : ValidatorOptions.

(** One failed security check, or one failed validation check, makes
    the verdict false in both modes. *)
Lemma failed_security_check cs sec c :
  c ∈ sec → sec_status c = failed → determineOverallSuccess options cs sec = false.
Proof.
  intros Hin Hc. unfold determineOverallSuccess.
  assert (H1 : forallb (λ check, isPassed (sec_status check)) sec = false).
  { apply not_true_iff_false. rewrite forallb_forall. intros Hall.
    specialize (Hall c (proj1 (list_elem_of_In _ _) Hin)). by rewrite Hc in Hall. }
  assert (H2 : forallb (λ check, negb (isFailed (sec_status check))) sec = false).
  { apply not_true_iff_false. rewrite forallb_forall. intros Hall.
    specialize (Hall c (proj1 (list_elem_of_In _ _) Hin)). by rewrite Hc in Hall. }
  rewrite H1, H2. by destruct (strictMode options); rewrite andb_false_r.
Qed.

Lemma failed_check cs sec c :
  c ∈ cs → status c = failed → determineOverallSuccess options cs sec = false.
Proof.
  intros Hin Hc. unfold determineOverallSuccess.
  assert (H1 : forallb (λ check, isPassed (status check)) cs = false).
  { apply not_true_iff_false. rewrite forallb_forall. intros Hall.
    specialize (Hall c (proj1 (list_elem_of_In _ _) Hin)). by rewrite Hc in Hall. }
  assert (H2 : forallb (λ check, negb (isFailed (status check))) cs = false).
  { apply not_true_iff_false. rewrite forallb_forall. intros Hall.
    specialize (Hall c (proj1 (list_elem_of_In _ _) Hin)). by rewrite Hc in Hall. }
  rewrite H1, H2. by destruct (strictMode options).
Qed.

Variable w : World.
Variable url : string.

(** The security checks when the probe of the deployment URL gets a
    response. *)
Lemma securityChecks_response response :
  fetch w security_probe = Return response →
  ∃ sensitive,
    checkSensitiveInfoExposure w = Return sensitive ∧
    securityChecks w url =
      map (securityHeaderCheck response) securityHeaders
      ++ [ {| sec_name := "https-enforcement";
              sec_status := if JS.startsWith url "https://" then passed else failed |};
           sensitive ].
Proof.
  intros Hs. unfold securityChecks, runSecurityValidation, fetchWithTimeout.
  rewrite Hs. cbn [try_catch]. unfold_bind. cbn [cbind].
  destruct (try_catch_total
              (if sensitiveLoop w sensitiveFiles
               then Return {| sec_name := "sensitive-info-exposure";
                              sec_status := failed |}
               else Return {| sec_name := "sensitive-info-exposure";
                              sec_status := passed |})
              (λ _, Return {| sec_name := "sensitive-info-exposure";
                              sec_status := warning |})) as [sensitive Hsens];
    [eauto|].
  exists sensitive. unfold checkSensitiveInfoExposure. rewrite Hsens.
  split; reflexivity.
Qed.

(** X2.  A deployment without transport security or without a
    security header never validates, in strict and in normal mode and
    whatever else the deployment answers: the verdict is false when
    the URL does not start with [https://], when the response to the
    security probe lacks (or has empty) one of the five security
    headers [X-Content-Type-Options], [X-Frame-Options],
    [X-XSS-Protection], [Cross-Origin-Embedder-Policy] and
    [Cross-Origin-Opener-Policy], whose check is then recorded as
    failed, and when the security probe throws. *)
Theorem insecure_deployment_fails_validation :
  ∃ r, validateDeployment options w url = Return r
     ∧ (JS.startsWith url "https://" = false → success r = false)
     ∧ (∀ response h,
          fetch w security_probe = Return response →
          h ∈ securityHeaders →
          headerTruthy (headers response h.1) = false →
          {| sec_name := "security-header-" +:+ JS.toLowerCase h.1;
             sec_status := failed |} ∈ security r
          ∧ success r = false)
     ∧ (throwsAt w security_probe → success r = false).
Proof.
  destruct (validateDeployment_result options w url) as (r & Hr & _ & Hsec & Hok).
  exists r. split; [exact Hr|]. rewrite Hok, Hsec.
  split; [|split].
  - intros Hhttp.
    destruct (fetch w security_probe) as [response|error] eqn:Hs.
    + destruct (securityChecks_response response Hs) as (sensitive & _ & ->).
      rewrite Hhttp.
      eapply failed_security_check with
        (c := {| sec_name := "https-enforcement"; sec_status := failed |});
        [|reflexivity].
      rewrite elem_of_app, !elem_of_cons. auto.
    + rewrite (security_probe_throw w url) by (by exists error).
      eapply failed_security_check; [apply list_elem_of_singleton; reflexivity|].
      reflexivity.
  - intros response [headerName expected] Hs Hh Hmissing. cbn [fst] in *.
    destruct (securityChecks_response response Hs) as (sensitive & _ & ->).
    assert (Hin : {| sec_name := "security-header-" +:+ JS.toLowerCase headerName;
                     sec_status := failed |}
                  ∈ map (securityHeaderCheck response) securityHeaders).
    { apply list_elem_of_fmap. exists (headerName, expected). split; [|exact Hh].
      unfold securityHeaderCheck. by rewrite Hmissing. }
    split; [rewrite elem_of_app; auto|].
    eapply failed_security_check; [rewrite elem_of_app; left; exact Hin|reflexivity].
  - intros Hthrow. rewrite (security_probe_throw w url Hthrow).
    eapply failed_security_check; [apply list_elem_of_singleton; reflexivity|].
    reflexivity.
Qed.

(** A sensitive file is exposed when its probe gets an [ok] response;
    a probe that throws counts as not exposed. *)
Definition exposed (file : string) : bool :=
  match fetch w (sensitive_file file) with
  | Return response => ok response
  | Throw _ => false
  end.

Lemma sensitiveLoop_exposed files : sensitiveLoop w files = existsb exposed files.
Proof.
  induction files as [|file rest IH]; [reflexivity|].
  cbn [sensitiveLoop existsb]. unfold exposed at 1, fetchWithTimeout.
  destruct (fetch w (sensitive_file file)) as [response|error]; cbn [try_catch].
  - destruct (ok response); [reflexivity|exact IH].
  - exact IH.
Qed.

(** X3.  The sensitive-file check fails exactly when one of [.env],
    [config.json], [secrets.json] and [.git/config] answers with an
    [ok] response, and passes otherwise: a probe that throws counts
    as a file that is not exposed, and the check is never a warning.
    Where the security probe gets a response, an exposed file makes
    the verdict of the whole validation false. *)
Theorem sensitive_file_exposure :
  checkSensitiveInfoExposure w =
    Return {| sec_name := "sensitive-info-exposure";
              sec_status := if existsb exposed sensitiveFiles then failed else passed |}
  ∧ (existsb exposed sensitiveFiles = true ↔
       ∃ file response, file ∈ sensitiveFiles
         ∧ fetch w (sensitive_file file) = Return response ∧ ok response = true)
  ∧ (∀ response, fetch w security_probe = Return response →
       existsb exposed sensitiveFiles = true →
       ∃ r, validateDeployment options w url = Return r ∧ success r = false).
Proof.
  assert (Hcheck : checkSensitiveInfoExposure w =
    Return {| sec_name := "sensitive-info-exposure";
              sec_status := if existsb exposed sensitiveFiles then failed else passed |}).
  { unfold checkSensitiveInfoExposure. rewrite sensitiveLoop_exposed.
    by destruct (existsb exposed sensitiveFiles). }
  split; [exact Hcheck|]. split.
  - rewrite existsb_exists. split.
    + intros (file & Hin & Hex). unfold exposed in Hex.
      destruct (fetch w (sensitive_file file)) as [response|] eqn:E; [|done].
      exists file, response. by rewrite list_elem_of_In.
    + intros (file & response & Hin & Hs & Hok). exists file.
      split; [by apply list_elem_of_In|]. unfold exposed. by rewrite Hs.
  - intros response Hs Hexposed.
    destruct (validateDeployment_result options w url) as (r & Hr & _ & Hsec & Hok).
    exists r. split; [exact Hr|]. rewrite Hok, Hsec.
    destruct (securityChecks_response response Hs) as (sensitive & Hsens & ->).
    rewrite Hcheck, Hexposed in Hsens. injection Hsens as <-.
    eapply failed_security_check with
      (c := {| sec_name := "sensitive-info-exposure"; sec_status := failed |});
      [|reflexivity].
    rewrite elem_of_app, !elem_of_cons. auto.
Qed.

Lemma wasmLoop_not_failed paths :
  Forall (λ c, status c ≠ failed) (wasmLoop w paths).1.
Proof.
  induction paths as [|p rest IH]; [constructor|].
  cbn [wasmLoop]. destruct (fetchWithTimeout w (wasm_file p)) as [response|error];
    [|exact IH].
  destruct (ok response); [|exact IH]. cbn [fst].
  repeat constructor;
    match goal with |- context [if ?b then _ else _] => by destruct b end.
Qed.

Lemma wasm_checks_not_failed :
  Forall (λ c, status c ≠ failed) (groupChecks options w wasmGroup).
Proof.
  cbn [groupChecks]. unfold runWasmValidation.
  pose proof (wasmLoop_not_failed wasmUrls) as Hloop.
  destruct (wasmLoop w wasmUrls) as [checks found]. cbn [fst try_catch outcome] in *.
  apply Forall_app. split; [exact Hloop|].
  destruct found; repeat constructor. done.
Qed.

Lemma performance_checks_not_failed :
  Forall (λ c, status c ≠ failed) (groupChecks options w performanceGroup).
Proof.
  cbn [groupChecks]. destruct (skipSlowTests options); [constructor|].
  destruct (measurePerformance w) as [p|]; [|constructor].
  unfold validatePerformanceMetrics. apply Forall_app. split.
  - destruct (0 <? loadTime p); repeat constructor.
    by destruct (loadTime p <? 5000).
  - destruct (0 <? wasmLoadTime p); repeat constructor.
    by destruct (wasmLoadTime p <? 2000).
Qed.

End ValidatorVerdict.

Section ValidatorTolerance.
Import Validator.
Variable options : ValidatorOptions.
Variable url : string.

Lemma forallb_not_failed (cs : list ValidationCheck) :
  Forall (λ c, status c ≠ failed) cs →
  forallb (λ check, negb (isFailed (status check))) cs = true.
Proof.
  intros Hall. apply forallb_forall. intros c Hc.
  rewrite Forall_forall in Hall. specialize (Hall c (proj2 (list_elem_of_In _ _) Hc)).
  by destruct (status c).
Qed.

(** X4.  No check of the WASM group and no check of the performance
    group ever has status 'failed': a WASM binary that is missing,
    unreachable or served with a wrong MIME type, and a load time
    over the targets, are warnings at most.  So in normal mode the
    verdict does not depend on them: two deployments that answer
    alike everywhere but at the WASM files and in the timing
    measurement get the same verdict. *)
Theorem wasm_and_timing_never_fail (w : World) :
  Forall (λ c, status c ≠ failed)
    (groupChecks options w wasmGroup ++ groupChecks options w performanceGroup)
  ∧ (strictMode options = false →
     ∀ w', (∀ g, g ≠ wasmGroup → g ≠ performanceGroup → agreeOn g w w') →
       ∃ r r', validateDeployment options w url = Return r
             ∧ validateDeployment options w' url = Return r'
             ∧ success r' = success r).
Proof.
  split.
  - apply Forall_app. split;
      [apply wasm_checks_not_failed|apply performance_checks_not_failed].
  - intros Hmode w' Hagree.
    destruct (validateDeployment_result options w url) as (r & Hr & Hc & Hs & Hok).
    destruct (validateDeployment_result options w' url)
      as (r' & Hr' & Hc' & Hs' & Hok').
    exists r, r'. split; [exact Hr|]. split; [exact Hr'|].
    rewrite Hok, Hok', Hc, Hc', Hs, Hs'. unfold determineOverallSuccess.
    rewrite Hmode, !forallb_app.
    rewrite (groupChecks_local options w w' connectivity) by (by apply Hagree).
    rewrite (groupChecks_local options w w' assetGroup) by (by apply Hagree).
    rewrite (groupChecks_local options w w' duckdbGroup) by (by apply Hagree).
    rewrite (groupChecks_local options w w' pluginGroup) by (by apply Hagree).
    unfold securityChecks.
    rewrite <- (runSecurityValidation_local w w' url) by (by apply Hagree).
    rewrite !(forallb_not_failed _ (wasm_checks_not_failed options w)),
      !(forallb_not_failed _ (wasm_checks_not_failed options w')),
      !(forallb_not_failed _ (performance_checks_not_failed options w)),
      !(forallb_not_failed _ (performance_checks_not_failed options w')).
    reflexivity.
Qed.

(** [parseInt] on header values: a unit after the digits is dropped,
    a [0x] prefix makes the digits hexadecimal, and a text without a
    digit gives [NaN]. *)
Example parseInt_readings :
  map Validator.parseInt ["2048"; " 42 bytes"; "-7"; "0x1A"; "0x"; "bytes"; ""]
  = [Some 2048; Some 42; Some (-7); Some 26; None; None; None].
Proof. reflexivity. Qed.

End ValidatorTolerance.

(** A deployment served as GitHub Pages serves it: every address
    answers, the sensitive files are absent, and none of the security
    headers is set. *)
Definition pagesHeaders (header : string) : option string :=
  snd <$> find (λ kv, String.eqb (fst kv) header)
    [ ("Access-Control-Allow-Origin", "*");
      ("Cache-Control", "max-age=600");
      ("Content-Type", "application/wasm");
      ("Content-Length", "2048") ].

Definition pagesNetwork (method address : string)
    : Completion Validator.Response :=
  if existsb (λ f, JS.endsWith address ("/" +:+ f)) Validator.sensitiveFiles
  then Return notFound
  else Return {| Validator.ok := true; Validator.http_status := 200;
                 Validator.headers := pagesHeaders;
                 Validator.json := Some healthyBody |}.

Example pages_deployment_never_validates :
  Validator.success <$>
    match Validator.validateDeployment Validator.defaultOptions
            (Validator.worldOf pagesNetwork "https://acme.github.io/site" 120 80)
            "https://acme.github.io/site" with
    | Return r => Some r
    | Throw _ => None
    end = Some false.
Proof. vm_compute. reflexivity. Qed.

(** ** The manifest plugin: the size estimate *)

Section CompressedSize.

(** Below [2^53] the product is not rounded, and is less than one. *)
Lemma floorMul07_small n :
  0 ≤ n → n * 6305039478318694 < 2 ^ 53 → JS.floorMul07 n = 0.
Proof.
  intros Hn Hp. unfold JS.floorMul07. cbv zeta.
  destruct (Z.eq_dec n 0) as [->|Hne]; [reflexivity|].
  assert (Hpos : 0 < n * 6305039478318694) by lia.
  assert (Hlog : Z.log2 (n * 6305039478318694) < 53).
  { apply Z.log2_lt_pow2; lia. }
  destruct (Z.leb_spec (Z.log2 (n * 6305039478318694) + 1) 53); [|lia].
  rewrite Z.shiftr_div_pow2 by lia. apply Z.div_small. lia.
Qed.

(** From [2^53] on the product is rounded to a multiple [v] of the
    unit in the last place [X], at most half a unit away. *)
Lemma floorMul07_rounded n :
  0 ≤ n → 2 ^ 53 ≤ n * 6305039478318694 →
  ∃ v X, JS.floorMul07 n = v / 2 ^ 53 ∧ 0 < X
    ∧ X * 2 ^ 52 ≤ n * 6305039478318694
    ∧ 2 * v ≤ 2 * (n * 6305039478318694) + X
    ∧ 2 * (n * 6305039478318694) ≤ 2 * v + X.
Proof.
  intros Hn Hp. unfold JS.floorMul07. cbv zeta.
  set (p := n * 6305039478318694) in *.
  assert (Hpos : 0 < p) by lia.
  pose proof (Z.log2_spec p Hpos) as [Hlo Hhi].
  assert (Hlog : 53 ≤ Z.log2 p) by (apply Z.log2_le_pow2; lia).
  destruct (Z.leb_spec (Z.log2 p + 1) 53); [lia|].
  set (sh := Z.log2 p + 1 - 53) in *.
  assert (Hsh : 1 ≤ sh) by lia.
  rewrite !Z.shiftr_div_pow2, !Z.shiftl_mul_pow2 by lia.
  set (X := 2 ^ sh).
  assert (HX : 0 < X) by (apply Z.pow_pos_nonneg; lia).
  assert (Hhalf : 2 * 2 ^ (sh - 1) = X).
  { unfold X. replace sh with (Z.succ (sh - 1)) at 2 by lia.
    rewrite Z.pow_succ_r by lia. reflexivity. }
  assert (HX52 : X * 2 ^ 52 = 2 ^ Z.log2 p).
  { unfold X. rewrite <- Z.pow_add_r by lia. f_equal. lia. }
  set (q := p / X).
  assert (Hq : q * X ≤ p < q * X + X).
  { unfold q. pose proof (Z.div_mod p X ltac:(lia)).
    pose proof (Z.mod_pos_bound p X HX). lia. }
  set (half := 2 ^ (sh - 1)) in *.
  set (q' := if (half <? p - q * X) || (p - q * X =? half) && Z.odd q
             then q + 1 else q).
  exists (q' * X), X. rewrite Z.mul_1_l.
  split; [reflexivity|]. split; [exact HX|]. split; [lia|].
  unfold q'.
  destruct (Z.ltb_spec half (p - q * X)); cbn [orb].
  - nia.
  - destruct (Z.eqb_spec (p - q * X) half); cbn [andb]; [destruct (Z.odd q)|]; nia.
Qed.

Lemma floorMul07_bounds n :
  0 ≤ n →
  0 ≤ JS.floorMul07 n ≤ n
  ∧ (n < 2 ^ 51 → 7 * n / 10 - 1 ≤ JS.floorMul07 n ≤ 7 * n / 10).
Proof.
  intros Hn.
  destruct (Z_lt_le_dec (n * 6305039478318694) (2 ^ 53)) as [Hsmall|Hbig].
  - rewrite floorMul07_small by lia.
    assert (n ≤ 1) by lia.
    split; [lia|]. intros _.
    assert (n = 0 ∨ n = 1) as [-> | ->] by lia; split; vm_compute; discriminate.
  - destruct (floorMul07_rounded n Hn Hbig) as (v & X & -> & HX & HX52 & Hup & Hlo).
    change (2 ^ 52) with 4503599627370496 in *.
    change (2 ^ 53) with 9007199254740992 in *.
    change (2 ^ 51) with 2251799813685248 in *.
    assert (Hv0 : 0 ≤ v) by lia.
    split.
    + split; [apply Z.div_pos; lia|].
      apply Z.div_le_upper_bound; [lia|]. lia.
    + intros Hlt.
      pose proof (Z.div_mod (7 * n) 10 ltac:(lia)) as Hdm.
      pose proof (Z.mod_pos_bound (7 * n) 10 ltac:(lia)) as Hmod.
      split.
      * apply Z.div_le_lower_bound; [lia|]. lia.
      * apply Z.lt_succ_r. apply Z.div_lt_upper_bound; [lia|]. lia.
Qed.

End CompressedSize.

Section BuildEstimates.
Import Build.
Context `{Crypto}.

(** X5.  The compressed size [createAssetInfo] estimates,
    [Math.floor(size * 0.7)] in double precision, is never negative
    and never more than the size; for a file under 2 PiB it is the
    integer part of seven tenths of the size or, where the double
    product falls just short of a whole number, one less. *)
Theorem compressedSize_estimate
    (env : Env) (t : nat) (filename source : string) (config : CDNBuildConfig) :
  size (createAssetInfo env t filename source config) = Z.of_nat (String.length source)
  ∧ 0 ≤ compressedSize (createAssetInfo env t filename source config)
      ≤ size (createAssetInfo env t filename source config)
  ∧ (size (createAssetInfo env t filename source config) < 2 ^ 51 →
     7 * size (createAssetInfo env t filename source config) / 10 - 1
       ≤ compressedSize (createAssetInfo env t filename source config)
       ≤ 7 * size (createAssetInfo env t filename source config) / 10).
Proof.
  cbn [createAssetInfo size compressedSize].
  split; [reflexivity|]. apply floorMul07_bounds. lia.
Qed.

(** Every record of the asset map carries the estimate of its own
    size. *)
Definition estimated (m : list (string * AssetInfo)) : Prop :=
  Forall (λ kv, 0 ≤ size kv.2 ∧ compressedSize kv.2 = JS.floorMul07 (size kv.2)) m.

Lemma estimated_mapSet k a m :
  estimated m → 0 ≤ size a → compressedSize a = JS.floorMul07 (size a) →
  estimated (JS.mapSet k a m).
Proof.
  intros Hm H0 Ha. unfold estimated in *. rewrite Forall_forall in *.
  intros [k' a'] Hin. apply elem_of_mapSet in Hin as [Hin|[-> ->]]; [by apply Hm|].
  by split.
Qed.

Lemma estimated_foldl env config bundle st t :
  estimated (assetMap st) →
  estimated (assetMap (foldl (processEntry env config) (st, t) bundle).1).
Proof.
  revert st t. induction bundle as [|e bundle IH]; intros st t Hst; [exact Hst|].
  cbn [foldl]. destruct (processEntry env config (st, t) e) as [st1 t1] eqn:E.
  apply IH. change st1 with (st1, t1).1. rewrite <- E.
  rewrite assetMap_processEntry. apply estimated_mapSet; [exact Hst| |reflexivity].
  cbn [createAssetInfo size]. lia.
Qed.

Lemma sumBy_foldl (f : AssetInfo → Z) (l : list AssetInfo) acc :
  foldl (λ sum a, sum + f a) acc l = acc + sumBy f l.
Proof.
  unfold sumBy. revert acc. induction l as [|a l IH]; intros acc; cbn [foldl]; [lia|].
  rewrite IH, (IH (0 + f a)). lia.
Qed.

Lemma sumBy_cons (f : AssetInfo → Z) a l : sumBy f (a :: l) = f a + sumBy f l.
Proof. unfold sumBy at 1. cbn [foldl]. rewrite sumBy_foldl. lia. Qed.

Lemma estimated_sums m :
  estimated m →
  0 ≤ sumBy compressedSize (JS.mapValues m) ≤ sumBy size (JS.mapValues m)
  ∧ (sumBy size (JS.mapValues m) = 0 ↔ Forall (λ a, size a = 0) (JS.mapValues m)).
Proof.
  unfold JS.mapValues. induction 1 as [|[k a] m [H0 Ha] _ IH]; cbn [map snd].
  - split; [by compute|]. split; [constructor|reflexivity].
  - rewrite !sumBy_cons. cbn [snd] in *.
    destruct IH as [IH1 IH2].
    pose proof (floorMul07_bounds (size a) H0) as [Hb _]. rewrite <- Ha in Hb.
    split; [lia|]. split.
    + intros Hsum. constructor; [lia|]. apply IH2. lia.
    + intros Hall. inversion Hall as [|? ? Hsize Hrest]; subst.
      apply IH2 in Hrest. lia.
Qed.

(** X6.  In the manifest a fresh plugin emits, [totalBundleSize] is
    the sum of the sizes of the assets of the map, and the
    compression ratio is the quotient of the sum of their compressed
    sizes (each the estimate [Math.floor(size * 0.7)]) by it: a
    numerator between 0 and the denominator.  The denominator is 0, and the quotient [0 / 0] (a
    [NaN]), exactly when every asset is empty; an empty bundle is the
    first such case, and its manifest names no core, orchestration or
    plugin-framework asset. *)
Theorem manifest_compression_ratio
    (env : Env) (config : CDNBuildConfig) (t : nat)
    (bundle : list (string * BundleItem)) :
  ∃ manifest,
    emittedManifest (generateBundle env config initialState t bundle).2 = Some manifest
    ∧ totalBundleSize (metadata manifest) =
        sumBy size
          (JS.mapValues (assetMap (generateBundle env config initialState t bundle).1.1))
    ∧ denominator (compressionRatio (metadata manifest))
        = totalBundleSize (metadata manifest)
    ∧ numerator (compressionRatio (metadata manifest)) =
        sumBy compressedSize
          (JS.mapValues (assetMap (generateBundle env config initialState t bundle).1.1))
    ∧ Forall (λ a, compressedSize a = JS.floorMul07 (size a))
        (JS.mapValues (assetMap (generateBundle env config initialState t bundle).1.1))
    ∧ 0 ≤ numerator (compressionRatio (metadata manifest))
        ≤ denominator (compressionRatio (metadata manifest))
    ∧ (denominator (compressionRatio (metadata manifest)) = 0 ↔
         Forall (λ a, size a = 0)
           (JS.mapValues
              (assetMap (generateBundle env config initialState t bundle).1.1)))
    ∧ (bundle = [] →
         compressionRatio (metadata manifest) = {| numerator := 0; denominator := 0 |}
         ∧ core (assets manifest) = None
         ∧ orchestration (assets manifest) = None
         ∧ pluginFramework (assets manifest) = None
         ∧ integrity manifest = ∅).
Proof.
  rewrite !generateBundle_unfold. cbn zeta. cbn [fst snd app emittedManifest].
  eexists. split; [reflexivity|].
  cbn [generateManifest metadata totalBundleSize compressionRatio numerator
         denominator assets core orchestration pluginFramework integrity].
  split; [reflexivity|]. split; [reflexivity|]. split; [reflexivity|].
  assert (Hest : estimated
    (assetMap (foldl (processEntry env config) (initialState, t) bundle).1)).
  { apply estimated_foldl. constructor. }
  destruct (estimated_sums _ Hest) as [Hle Hzero].
  split.
  { unfold JS.mapValues. apply Forall_fmap. eapply Forall_impl; [exact Hest|].
    by intros [k a] [_ Ha]. }
  split; [exact Hle|]. split; [exact Hzero|].
  intros ->. cbn. repeat split; reflexivity.
Qed.

End BuildEstimates.

(** ** The manifest plugin: the state a plugin keeps between builds *)

Section BuildAccumulation.
Import Build.
Context `{Crypto}.

(** The bundle entries [generateBundle] files as WASM assets and as
    plugins: entries of type ['asset'] only, a chunk is neither. *)
Definition isWasmAsset (e : string * BundleItem) : bool :=
  match e.2 with
  | asset _ => JS.endsWith e.1 ".wasm"
  | chunk _ => false
  end.

Definition isPluginAsset (e : string * BundleItem) : bool :=
  match e.2 with
  | asset _ => negb (JS.endsWith e.1 ".wasm") && JS.includes e.1 "plugin"
  | chunk _ => false
  end.

Definition wasmNames (st : PluginState) : list string :=
  map (λ w, filename (wasm_base w)) (wasmAssets st).

Definition pluginNames (st : PluginState) : list string :=
  map (λ p, filename (plugin_base p)) (pluginAssets st).

Lemma processEntry_names env config st t e :
  wasmNames (processEntry env config (st, t) e).1
    = wasmNames st ++ (if isWasmAsset e then [e.1] else [])
  ∧ pluginNames (processEntry env config (st, t) e).1
    = pluginNames st ++ (if isPluginAsset e then [e.1] else []).
Proof.
  unfold wasmNames, pluginNames, isWasmAsset, isPluginAsset.
  destruct e as [f [source|code]]; cbn [processEntry fst snd].
  - destruct (JS.endsWith f ".wasm"); cbn [negb andb fst wasmAssets pluginAssets].
    + rewrite map_app, app_nil_r. split; reflexivity.
    + destruct (JS.includes f "plugin"); cbn [fst wasmAssets pluginAssets];
        rewrite ?map_app, ?app_nil_r; split; reflexivity.
  - by rewrite !app_nil_r.
Qed.

Lemma foldl_names env config bundle st t :
  wasmNames (foldl (processEntry env config) (st, t) bundle).1
    = wasmNames st ++ map fst (List.filter isWasmAsset bundle)
  ∧ pluginNames (foldl (processEntry env config) (st, t) bundle).1
    = pluginNames st ++ map fst (List.filter isPluginAsset bundle).
Proof.
  revert st t. induction bundle as [|e bundle IH]; intros st t.
  - cbn. by rewrite !app_nil_r.
  - cbn [foldl List.filter].
    destruct (processEntry env config (st, t) e) as [st1 t1] eqn:E.
    destruct (IH st1 t1) as [-> ->].
    destruct (processEntry_names env config st t e) as [Hw Hp].
    rewrite E in Hw, Hp. cbn [fst] in Hw, Hp. rewrite Hw, Hp.
    destruct (isWasmAsset e), (isPluginAsset e); cbn [map];
      rewrite <- ?app_assoc, ?app_nil_r; split; reflexivity.
Qed.

Lemma foldl_keys env config bundle st t :
  JS.mapKeys (assetMap st)
    `prefix_of` JS.mapKeys (assetMap (foldl (processEntry env config) (st, t) bundle).1)
  ∧ ∀ k, k ∈ JS.mapKeys (assetMap (foldl (processEntry env config) (st, t) bundle).1)
         ↔ k ∈ JS.mapKeys (assetMap st) ∨ k ∈ map fst bundle.
Proof.
  revert st t. induction bundle as [|e bundle IH]; intros st t.
  - cbn [foldl fst map]. split; [reflexivity|]. intros k. rewrite elem_of_nil. tauto.
  - cbn [foldl map].
    destruct (processEntry env config (st, t) e) as [st1 t1] eqn:E.
    destruct (IH st1 t1) as [Hprefix Hkeys].
    assert (E1 : JS.mapKeys (assetMap st1) =
                 if decide (e.1 ∈ JS.mapKeys (assetMap st))
                 then JS.mapKeys (assetMap st) else JS.mapKeys (assetMap st) ++ [e.1]).
    { change st1 with (st1, t1).1. rewrite <- E.
      by rewrite assetMap_processEntry, mapSet_keys. }
    split.
    + etrans; [|exact Hprefix]. rewrite E1. case_decide; [reflexivity|].
      by apply prefix_app_r.
    + intros k. rewrite Hkeys, E1, elem_of_cons.
      case_decide as Hin; rewrite ?elem_of_app, ?list_elem_of_singleton;
        [|tauto].
      split; [tauto|]. intros [?|[->|?]]; auto.
Qed.

(** X7.  The state a plugin instance closes over is never reset:
    every call of [generateBundle] adds to what the earlier calls
    left.  The asset map keeps the files of the earlier builds at
    their places (a file of the new bundle replaces the record under
    its name or goes last), so a file that is no longer built stays in
    the manifest and in its integrity map; the WASM and plugin lists
    are appended to, so a file built twice is listed twice.  Only
    entries of type ['asset'] are filed as WASM assets (a name ending
    in [.wasm]) or as plugins (another name containing ["plugin"]); a
    chunk is never in either list. *)
Theorem generateBundle_accumulates
    (env : Env) (config : CDNBuildConfig) (st : PluginState) (t : nat)
    (bundle : list (string * BundleItem)) :
  JS.mapKeys (assetMap st)
    `prefix_of` JS.mapKeys (assetMap (generateBundle env config st t bundle).1.1)
  ∧ (∀ k, k ∈ JS.mapKeys (assetMap (generateBundle env config st t bundle).1.1)
          ↔ k ∈ JS.mapKeys (assetMap st) ∨ k ∈ map fst bundle)
  ∧ wasmNames (generateBundle env config st t bundle).1.1
      = wasmNames st ++ map fst (List.filter isWasmAsset bundle)
  ∧ pluginNames (generateBundle env config st t bundle).1.1
      = pluginNames st ++ map fst (List.filter isPluginAsset bundle)
  ∧ ∃ manifest,
      emittedManifest (generateBundle env config st t bundle).2 = Some manifest
      ∧ wasm (assets manifest) = wasmAssets (generateBundle env config st t bundle).1.1
      ∧ plugins (assets manifest)
          = pluginAssets (generateBundle env config st t bundle).1.1
      ∧ dom (integrity manifest)
          = ownKeys (JS.mapKeys (assetMap (generateBundle env config st t bundle).1.1)).
Proof.
  rewrite !generateBundle_unfold. cbn zeta. cbn [fst snd app emittedManifest].
  destruct (foldl_keys env config bundle st t) as [Hprefix Hkeys].
  destruct (foldl_names env config bundle st t) as [Hw Hp].
  split; [exact Hprefix|]. split; [exact Hkeys|].
  split; [exact Hw|]. split; [exact Hp|].
  eexists. split; [reflexivity|].
  cbn [generateManifest assets wasm plugins integrity].
  split; [reflexivity|]. split; [reflexivity|].
  apply generateIntegrityMap_dom.
Qed.

End BuildAccumulation.

Section BuildRebuildExamples.
Import Build.
#[local] Existing Instance nodeCrypto.

(** A file of 90 bytes: [90 * 0.7] is [62.99999999999999] in double
    precision. *)
Example compressedSize_of_90_bytes :
  compressedSize
    (createAssetInfo morning 0 "a.js" (String.concat "" (replicate 90 "x"))
       DEFAULT_CDN_CONFIG) = 62.
Proof. vm_compute. reflexivity. Qed.

(** A watch session: the bundle is built, then built again after
    [app.wasm] was removed from it. *)
Definition firstBuild : PluginState * nat * list Effect :=
  generateBundle morning DEFAULT_CDN_CONFIG initialState 0 sortedBundle.

Definition secondBuild : PluginState * nat * list Effect :=
  generateBundle morning DEFAULT_CDN_CONFIG firstBuild.1.1 firstBuild.1.2
    [ ("core.min.js", chunk "helloworld!") ].

Definition rebuild : PluginState * nat * list Effect :=
  generateBundle morning DEFAULT_CDN_CONFIG firstBuild.1.1 firstBuild.1.2 sortedBundle.

Example removed_file_stays_in_the_manifest :
  JS.mapKeys (assetMap secondBuild.1.1) = ["app.wasm"; "core.min.js"]
  ∧ ((λ m, bool_decide (is_Some (integrity m !! "app.wasm")))
       <$> emittedManifest secondBuild.2) = Some true
  ∧ wasmNames secondBuild.1.1 = ["app.wasm"].
Proof. split; [|split]; vm_compute; reflexivity. Qed.

Example rebuilt_wasm_is_listed_twice :
  wasmNames firstBuild.1.1 = ["app.wasm"]
  ∧ wasmNames rebuild.1.1 = ["app.wasm"; "app.wasm"]
  ∧ JS.mapKeys (assetMap rebuild.1.1) = JS.mapKeys (assetMap firstBuild.1.1).
Proof. split; [|split]; vm_compute; reflexivity. Qed.

End BuildRebuildExamples.

(** ** The orchestrator: what the scan lists *)

Section ScanListing.
Import Deploy.
Context `{Crypto} `{JsonParser}.











End ScanListing.

(** ** The orchestrator: where a configuration value comes from *)

Section ConfigurationPrecedence.
Import Deploy.
Context `{Crypto} `{JsonParser}.

Lemma lookup_objSet k v props :
  Json.lookup k (Json.objSet k v props) = Some v.
Proof.
  unfold Json.lookup, Json.objSet.
  induction props as [|[k' v'] props IH]; cbn [JS.mapSet find fst].
  - by rewrite String.eqb_refl.
  - destruct (String.eqb_spec k' k) as [->|Hne]; cbn [find fst].
    + by rewrite String.eqb_refl.
    + destruct (String.eqb_spec k' k); [done|exact IH].
Qed.

Lemma lookup_objSet_ne k k' v props :
  k ≠ k' → Json.lookup k (Json.objSet k' v props) = Json.lookup k props.
Proof.
  intros Hne. unfold Json.lookup, Json.objSet.
  induction props as [|[k0 v0] props IH]; cbn [JS.mapSet find fst].
  - destruct (String.eqb_spec k' k); [by subst|reflexivity].
  - destruct (String.eqb_spec k0 k') as [->|Hne0]; cbn [find fst].
    + destruct (String.eqb_spec k' k); [by subst|reflexivity].
    + destruct (String.eqb_spec k0 k); [reflexivity|exact IH].
Qed.

Lemma lookup_setIf k k' v config :
  Json.lookup k (setIf k' v config) =
  if decide (k = k') then
    match v with
    | Some s => if JS.truthy s then Some (Json.JStr s) else Json.lookup k config
    | None => Json.lookup k config
    end
  else Json.lookup k config.
Proof.
  unfold setIf. destruct v as [s|]; [|by case_decide].
  destruct (JS.truthy s); [|by case_decide].
  case_decide as Hk; [subst; apply lookup_objSet|by apply lookup_objSet_ne].
Qed.

Lemma lookup_cons k k' v props :
  Json.lookup k ((k', v) :: props) =
  if String.eqb k' k then Some v else Json.lookup k props.
Proof.
  unfold Json.lookup. cbn [find fst]. by destruct (String.eqb k' k).
Qed.

Lemma lookup_absent k props :
  k ∉ map fst props → Json.lookup k props = None.
Proof.
  intros Hk. unfold Json.lookup.
  destruct (find _ props) as [[k0 v0]|] eqn:Hfind; [|done].
  apply find_some in Hfind as [Hin Heq]. cbn [fst] in Heq.
  apply String.eqb_eq in Heq as ->.
  destruct Hk. apply list_elem_of_fmap. exists (k, v0).
  split; [reflexivity|by apply list_elem_of_In].
Qed.

(** Spreading an object whose property names are distinct: its
    properties win over those of the base. *)
Lemma lookup_spread_props k base props :
  NoDup (map fst props) →
  Json.lookup k (foldl (λ acc kv, Json.objSet kv.1 kv.2 acc) base props) =
  match Json.lookup k props with
  | Some v => Some v
  | None => Json.lookup k base
  end.
Proof.
  revert base. induction props as [|[k' v'] props IH]; intros base Hnd; [reflexivity|].
  cbn [map fst] in Hnd. apply NoDup_cons in Hnd as [Hk' Hnd].
  cbn [foldl fst snd]. rewrite IH by exact Hnd. rewrite lookup_cons.
  destruct (String.eqb_spec k' k) as [->|Hne].
  - rewrite (lookup_absent k props Hk'). apply lookup_objSet.
  - destruct (Json.lookup k props); [reflexivity|].
    by apply lookup_objSet_ne.
Qed.

(** The properties of the configuration file, where the call of
    [loadConfiguration] reads one and it holds an object. *)
Definition fileProperties (w : World) (options : DeploymentOptions)
    : option (list (string * Json.t)) :=
  match configFile options with
  | Some f =>
      if JS.truthy f && existsSync w f then
        match fs w f with
        | Some (File _ (Some text)) =>
            match JSON_parse text with
            | Some (Json.JObj props) => Some props
            | _ => None
            end
        | _ => None
        end
      else None
  | None => None
  end.

Definition overridable : list string :=
  ["repository"; "branch"; "customDomain"; "baseUrl"].

Definition optionNamed (options : DeploymentOptions) (k : string) : option string :=
  if String.eqb k "repository" then repository options
  else if String.eqb k "branch" then branch options
  else if String.eqb k "customDomain" then customDomain options
  else if String.eqb k "baseUrl" then baseUrl options
  else None.

Lemma lookup_overrides k options config :
  Json.lookup k
    (setIf "baseUrl" (baseUrl options)
       (setIf "customDomain" (customDomain options)
          (setIf "branch" (branch options)
             (setIf "repository" (repository options) config)))) =
  match optionNamed options k with
  | Some s => if JS.truthy s then Some (Json.JStr s) else Json.lookup k config
  | None => Json.lookup k config
  end.
Proof.
  rewrite !lookup_setIf. unfold optionNamed.
  destruct (String.eqb_spec k "repository") as [->|H1];
    [by rewrite !decide_False, decide_True by done|].
  destruct (String.eqb_spec k "branch") as [->|H2];
    [by rewrite !decide_False, decide_True, decide_False by done|].
  destruct (String.eqb_spec k "customDomain") as [->|H3];
    [by rewrite decide_False, decide_True, !decide_False by done|].
  destruct (String.eqb_spec k "baseUrl") as [->|H4];
    [by rewrite decide_True, !decide_False by done|].
  by rewrite !decide_False by done.
Qed.

(** X9.  Where a loaded configuration takes a value from.  A
    command-line value of [--repository], [--branch],
    [--custom-domain] or [--base-url] that is not empty overrides the
    configuration file and the defaults.  For [target] and
    [environment] it is the other way round: a value in the
    configuration file overrides [--target] and [--environment], which
    count only where the file (an object with distinct property
    names) has no such property, and default to ["github-pages"] and
    ["production"]. *)
Theorem loadConfiguration_precedence
    (w : World) (options : DeploymentOptions) (config : Config) :
  loadConfiguration w options = Return config →
  (∀ k s, k ∈ overridable → optionNamed options k = Some s → JS.truthy s = true →
     Json.lookup k config = Some (Json.JStr s))
  ∧ (∀ props, fileProperties w options = Some props → NoDup (map fst props) →
       (∀ v, Json.lookup "target" props = Some v →
             Json.lookup "target" config = Some v)
       ∧ (∀ v, Json.lookup "environment" props = Some v →
             Json.lookup "environment" config = Some v)
       ∧ (Json.lookup "target" props = None →
             Json.lookup "target" config
               = Some (Json.JStr (JS.orElse (opt_target options) "github-pages")))
       ∧ (Json.lookup "environment" props = None →
             Json.lookup "environment" config
               = Some (Json.JStr (JS.orElse (opt_environment options) "production"))))
  ∧ (configFile options = None →
       Json.lookup "target" config
         = Some (Json.JStr (JS.orElse (opt_target options) "github-pages"))
       ∧ Json.lookup "environment" config
         = Some (Json.JStr (JS.orElse (opt_environment options) "production"))).
Proof.
  unfold loadConfiguration. unfold_bind.
  set (base := Json.objSet "environment" _ _).
  assert (Hbase_t : Json.lookup "target" base
            = Some (Json.JStr (JS.orElse (opt_target options) "github-pages"))).
  { unfold base. rewrite lookup_objSet_ne by done. apply lookup_objSet. }
  assert (Hbase_e : Json.lookup "environment" base
            = Some (Json.JStr (JS.orElse (opt_environment options) "production"))).
  { apply lookup_objSet. }
  match goal with |- cbind ?m _ = _ → _ =>
    destruct m as [loaded|error] eqn:Hloaded end; cbn [cbind]; [|discriminate].
  match goal with |- (if ?b then _ else _) = _ → _ => destruct b end;
    [discriminate|]. intros [= <-].
  split; [|split].
  - intros k s _ Hopt Hs. by rewrite lookup_overrides, Hopt, Hs.
  - intros props Hprops Hnd.
    assert (Hl : loaded = foldl (λ acc kv, Json.objSet kv.1 kv.2 acc) base props).
    { unfold fileProperties in Hprops.
      destruct (configFile options) as [f|]; [|discriminate].
      destruct (JS.truthy f && existsSync w f); [|discriminate].
      destruct (fs w f) as [[? [text|]|?| |]|]; try discriminate.
      destruct (JSON_parse text) as [[| | | | |props']|]; try discriminate.
      injection Hprops as ->. by injection Hloaded as <-. }
    rewrite !lookup_overrides. cbn [optionNamed String.eqb Ascii.eqb Bool.eqb].
    rewrite Hl, !lookup_spread_props by exact Hnd.
    rewrite Hbase_t, Hbase_e.
    repeat split; intros; by simplify_option_eq.
  - intros Hnone. rewrite Hnone in Hloaded. injection Hloaded as <-.
    rewrite !lookup_overrides. cbn [optionNamed String.eqb Ascii.eqb Bool.eqb].
    by rewrite Hbase_t, Hbase_e.
Qed.

End ConfigurationPrecedence.

(** ** The orchestrator: targets without a provider *)

Section UnimplementedTargets.
Import Deploy.
Context `{Crypto} `{JsonParser}.

Definition isRealRun (options : DeploymentOptions) : Prop :=
  dryRun options ≠ Some true.

Lemma deploy_realRun_unfold w options :
  isRealRun options →
  deploy w options =
  rcatch
    (config ← lift (loadConfiguration w options);
     assets ← lift (prepareAssetBundle w (JS.orElse (assetsDir options) "cdn/dist"));
     provider ← getDeploymentProvider config;
     _ ← emit (ProviderCall m_testConnection);
     if negb (provider_testConnection w)
     then lift (Throw "Failed to connect to deployment provider")
     else
       _ ← emit (ProviderCall m_deploy);
       if negb (success (provider_deploy w assets))
       then lift (Throw (JS.orElse (error (provider_deploy w assets)) "Deployment failed"))
       else
         _ ← (if match validate options with Some false => false | _ => true end
              then emit (ValidatorRun (url (provider_deploy w assets)))
              else mret tt);
         mret (provider_deploy w assets))
    (λ error, _ ← emit (ConsoleError error); lift (Throw error)).
Proof.
  intros Hreal. unfold deploy, isRealRun in *.
  destruct (dryRun options) as [[|]|]; [done|reflexivity|reflexivity].
Qed.

(** X10.  Only [github-pages] has a provider.  With a configuration
    that loads and a bundle that is prepared, a run that is not a dry
    run throws for every other target, after the scan and without
    constructing or calling a provider: "Deployment target '...' is
    not yet implemented" for [cloudflare-pages], [netlify] and
    [vercel], "Unknown deployment target" otherwise.  A dry run of the
    same call does not look at the target: it reports success, or,
    where a scanned file is grouped under a key inherited from
    [Object.prototype], rethrows the [TypeError] of the asset
    summary. *)
Theorem deploy_without_provider
    (w : World) (options : DeploymentOptions) (config : Config)
    (assets : AssetBundle) (target : string) :
  loadConfiguration w options = Return config →
  prepareAssetBundle w (JS.orElse (assetsDir options) "cdn/dist") = Return assets →
  Json.lookup "target" config = Some (Json.JStr target) →
  target ≠ "github-pages" →
  (isRealRun options →
     ∃ message,
       deploy w options = ([ConsoleError message], Throw message)
       ∧ message =
           if bool_decide (target ∈ ["cloudflare-pages"; "netlify"; "vercel"])
           then "Deployment target '" +:+ target +:+ "' is not yet implemented"
           else "Unknown deployment target: " +:+ target)
  ∧ (isDryRun options →
       (plainTypes (files assets) →
          deploy w options = ([], Return (dryRunResult config)))
       ∧ (¬ plainTypes (files assets) →
          deploy w options = ([ConsoleError pushTypeError], Throw pushTypeError))).
Proof.
  intros Hconfig Hassets Htarget Hne. split.
  - intros Hreal. rewrite (deploy_realRun_unfold w options Hreal).
    rewrite Hconfig, Hassets.
    cbv [mbind run_bind mret run_ret lift emit]. cbn [rbind app].
    unfold getDeploymentProvider. rewrite Htarget.
    destruct (String.eqb_spec target "github-pages") as [->|_]; [done|].
    destruct (String.eqb_spec target "cloudflare-pages") as [->|H1];
      [eexists; split; reflexivity|].
    destruct (String.eqb_spec target "netlify") as [->|H2];
      [eexists; split; reflexivity|].
    destruct (String.eqb_spec target "vercel") as [->|H3];
      [eexists; split; reflexivity|].
    cbn [orb]. eexists. split; [reflexivity|].
    rewrite bool_decide_eq_false_2; [reflexivity|].
    rewrite !elem_of_cons, elem_of_nil. intros [?|[?|[?|[]]]]; congruence.
  - intros Hdry.
    rewrite (deploy_dryRun_unfold w options Hdry), Hconfig, Hassets.
    split.
    + intros Hplain. by rewrite (printAssetSummary_returns assets Hplain).
    + intros Hnot. by rewrite (printAssetSummary_throws assets Hnot).
Qed.

End UnimplementedTargets.

(** ** The orchestrator: the groups of the asset summary *)

Section AssetGroups.
Import Deploy.
Context `{Crypto} `{JsonParser}.

(** The files of a type, in their order. *)
Definition ofType (k : string) (files : list AssetFile) : list AssetFile :=
  List.filter (λ f, String.eqb (assetType f) k) files.

(** The groups made of the files seen so far. *)
Definition groupsOf (seen : list AssetFile) (groups : list (string * list AssetFile))
    : Prop :=
  NoDup (map fst groups)
  ∧ Forall (λ g, g.2 = ofType g.1 seen ∧ g.2 ≠ []) groups
  ∧ (∀ f, f ∈ seen → assetType f ∈ map fst groups)
  ∧ concat (map snd groups) ≡ₚ seen.

Lemma ofType_snoc k seen f :
  ofType k (seen ++ [f]) =
  ofType k seen ++ (if String.eqb (assetType f) k then [f] else []).
Proof. unfold ofType. rewrite List.filter_app. reflexivity. Qed.

Lemma ofType_unseen k seen :
  (∀ f, f ∈ seen → assetType f ≠ k) → ofType k seen = [].
Proof.
  intros Hno. unfold ofType. induction seen as [|f seen IH]; [reflexivity|].
  cbn [List.filter]. destruct (String.eqb_spec (assetType f) k) as [Heq|_].
  - destruct (Hno f); [by left|exact Heq].
  - apply IH. intros g Hg. apply Hno. by right.
Qed.

Lemma addToGroup_keys type f groups :
  map fst (addToGroup type f groups) =
  if decide (type ∈ map fst groups) then map fst groups else map fst groups ++ [type].
Proof.
  induction groups as [|[k fs] groups IH]; [reflexivity|].
  cbn [addToGroup map fst]. destruct (String.eqb_spec k type) as [->|Hne].
  - by rewrite decide_True by (by left).
  - cbn [map fst]. rewrite IH. destruct (decide (type ∈ map fst groups)).
    + by rewrite decide_True by (by right).
    + rewrite decide_False; [reflexivity|].
      rewrite elem_of_cons. intros [->|?]; done.
Qed.

Lemma addToGroup_files seen f groups :
  NoDup (map fst groups) →
  Forall (λ g, g.2 = ofType g.1 seen ∧ g.2 ≠ []) groups →
  (assetType f ∉ map fst groups → ofType (assetType f) seen = []) →
  Forall (λ g, g.2 = ofType g.1 (seen ++ [f]) ∧ g.2 ≠ [])
    (addToGroup (assetType f) f groups).
Proof.
  induction groups as [|[k fs] groups IH]; intros Hnd Hall Hnew.
  - cbn [addToGroup]. repeat constructor; cbn [fst snd]; [|done].
    rewrite ofType_snoc, String.eqb_refl, Hnew; [reflexivity|apply not_elem_of_nil].
  - cbn [map fst] in Hnd. apply NoDup_cons in Hnd as [Hk Hnd].
    apply Forall_cons in Hall as [[Hfs Hne] Hall]. cbn [fst snd] in Hfs, Hne.
    cbn [addToGroup]. destruct (String.eqb_spec k (assetType f)) as [->|Hkf].
    + constructor; cbn [fst snd].
      * rewrite ofType_snoc, String.eqb_refl, Hfs. split; [reflexivity|].
        by destruct (ofType (assetType f) seen).
      * rewrite Forall_forall in Hall. apply Forall_forall.
        intros [k' fs'] Hin. destruct (Hall _ Hin) as [Hfs' Hne'].
        cbn [fst snd] in *. split; [|exact Hne'].
        rewrite ofType_snoc.
        destruct (String.eqb_spec (assetType f) k') as [<-|_];
          [|by rewrite app_nil_r].
        destruct Hk. apply list_elem_of_fmap. by exists (assetType f, fs').
    + constructor; cbn [fst snd].
      * rewrite ofType_snoc. destruct (String.eqb_spec (assetType f) k) as [<-|_]; [done|].
        by rewrite app_nil_r.
      * apply IH; [exact Hnd|exact Hall|].
        intros Hnot. apply Hnew. cbn [map fst]. rewrite not_elem_of_cons. by split.
Qed.

Lemma addToGroup_concat type f groups :
  concat (map snd (addToGroup type f groups)) ≡ₚ concat (map snd groups) ++ [f].
Proof.
  induction groups as [|[k fs] groups IH]; [reflexivity|].
  cbn [addToGroup]. destruct (String.eqb k type); cbn [map snd concat].
  - rewrite <- !app_assoc. apply Permutation_app_head.
    apply Permutation_app_comm.
  - by rewrite IH, app_assoc.
Qed.

Lemma addToGroup_groupsOf seen f groups :
  groupsOf seen groups →
  groupsOf (seen ++ [f]) (addToGroup (assetType f) f groups).
Proof.
  intros (Hnd & Hall & Hseen & Hperm). split; [|split; [|split]].
  - rewrite addToGroup_keys. case_decide as Hin; [exact Hnd|].
    apply NoDup_app. split; [exact Hnd|]. split; [|apply NoDup_singleton].
    intros k Hk Hk'. apply list_elem_of_singleton in Hk' as ->. done.
  - apply addToGroup_files; [exact Hnd|exact Hall|].
    intros Hnot. apply ofType_unseen. intros g Hg Heq. apply Hnot.
    rewrite <- Heq. by apply Hseen.
  - intros g Hg. rewrite addToGroup_keys.
    apply elem_of_app in Hg as [Hg|Hg].
    + specialize (Hseen g Hg). case_decide; [exact Hseen|].
      apply elem_of_app. by left.
    + apply list_elem_of_singleton in Hg as ->.
      case_decide as Hin; [exact Hin|]. apply elem_of_app. right. by left.
  - by rewrite addToGroup_concat, Hperm.
Qed.

Lemma groupFiles_groupsOf files :
  ∀ seen groups groups',
    groupsOf seen groups → groupFiles files groups = Return groups' →
    groupsOf (seen ++ files) groups' ∧ plainTypes files.
Proof.
  induction files as [|f files IH]; intros seen groups groups' Hinv Hrun.
  - cbn [groupFiles] in Hrun. injection Hrun as <-. rewrite app_nil_r.
    split; [exact Hinv|constructor].
  - cbn [groupFiles] in Hrun. revert Hrun. unfold groupStep. unfold_bind.
    destruct (JS.inheritedKey (assetType f)) eqn:Hkey; cbn [cbind]; [discriminate|].
    intros Hrun.
    destruct (IH (seen ++ [f]) _ groups' (addToGroup_groupsOf seen f groups Hinv) Hrun)
      as [Hgroups Hplain].
    rewrite <- app_assoc in Hgroups. split; [exact Hgroups|].
    by constructor.
Qed.

(** The strings of ASCII characters: on them [JS.toLowerCase] is the
    [toLowerCase] of JavaScript, which outside ASCII lower-cases
    further letters. *)
Fixpoint asciiText (s : string) : bool :=
  match s with
  | EmptyString => true
  | String c s' => (N_of_ascii c <? 128)%N && asciiText s'
  end.

Definition asciiPaths (files : list AssetFile) : Prop :=
  Forall (λ f, asciiText (path f) = true) files.

(** X11.  For files with ASCII paths, [groupAssetsByType] returns
    exactly when no file has a type key that a plain object inherits
    ([constructor], [__proto__]), and throws a [TypeError] otherwise.
    The groups it returns partition the files: the keys are distinct,
    the group of a key holds the files of that type, all of them and
    in their order, no group is empty, every file is in the group of
    its type, and the groups together hold the files and nothing
    else. *)
Theorem groupAssetsByType_partition (files : list AssetFile) :
  asciiPaths files →
  ((∃ groups, groupAssetsByType files = Return groups) ↔ plainTypes files)
  ∧ (¬ plainTypes files → groupAssetsByType files = Throw pushTypeError)
  ∧ ∀ groups, groupAssetsByType files = Return groups →
      NoDup (map fst groups)
      ∧ (∀ k fs, (k, fs) ∈ groups → fs = ofType k files ∧ fs ≠ [])
      ∧ (∀ f, f ∈ files → ∃ fs, (assetType f, fs) ∈ groups ∧ f ∈ fs)
      ∧ concat (map snd groups) ≡ₚ files.
Proof.
  assert (Hinit : groupsOf [] []).
  { split; [constructor|]. split; [constructor|]. split; [|reflexivity].
    intros f Hf. by apply elem_of_nil in Hf. }
  intros _. split; [|split].
  - split.
    + intros [groups Hrun]. by destruct (groupFiles_groupsOf files [] [] groups Hinit Hrun).
    + intros Hplain. by apply groupFiles_returns.
  - intros Hnot. by apply groupFiles_throws.
  - intros groups Hrun.
    destruct (groupFiles_groupsOf files [] [] groups Hinit Hrun)
      as [(Hnd & Hall & Hseen & Hperm) _].
    cbn [app] in *. rewrite Forall_forall in Hall.
    split; [exact Hnd|]. split; [|split; [|exact Hperm]].
    + intros k fs Hin. exact (Hall (k, fs) Hin).
    + intros f Hf. specialize (Hseen f Hf).
      apply list_elem_of_fmap in Hseen as ([k fs] & Hk & Hin). cbn [fst] in Hk. subst k.
      exists fs. split; [exact Hin|].
      destruct (Hall _ Hin) as [Hfs _]. cbn [fst snd] in Hfs. rewrite Hfs.
      unfold ofType. apply list_elem_of_In, filter_In.
      split; [by apply list_elem_of_In|apply String.eqb_refl].
Qed.
End AssetGroups.

(** ** The provider's validations *)

Section ProviderChecks.
Import Validator.
Import ProviderValidation.
Variable w : ProviderValidation.World.

Definition rejectsAt (s : Site) : Prop :=
  ∃ error, ProviderValidation.fetch w s = Throw error.

Lemma validateConnectivity_returns :
  ∃ c, validateConnectivity w = Return c
     ∧ (rejectsAt connectivity_probe →
          c = {| name := "connectivity"; status := failed |})
     ∧ (∀ response, ProviderValidation.fetch w connectivity_probe = Return response →
          c = {| name := CORS_HEADERS;
                 status := if ok response then passed else failed |}).
Proof.
  unfold validateConnectivity, rejectsAt.
  destruct (ProviderValidation.fetch w connectivity_probe) as [response|error];
    cbn; eexists; (split; [reflexivity|]); split.
  - intros [? [=]].
  - by intros ? [= <-].
  - reflexivity.
  - intros ? [=].
Qed.

Lemma validateCORSHeaders_returns :
  ∃ c, validateCORSHeaders w = Return c ∧ name c = CORS_HEADERS.
Proof.
  unfold validateCORSHeaders.
  destruct (ProviderValidation.fetch w cors_options); cbn; eauto.
Qed.

Lemma validateCacheHeaders_returns :
  ∃ c, validateCacheHeaders w = Return c ∧ name c = CACHE_HEADERS.
Proof.
  unfold validateCacheHeaders.
  destruct (ProviderValidation.fetch w cache_get); cbn; eauto.
Qed.

(** [contentType === 'application/wasm'] *)
Definition wasmMime (response : Response) : bool :=
  match headers response "Content-Type" with
  | Some ct => String.eqb ct "application/wasm"
  | None => false
  end.

Lemma validateWasmLoading_returns :
  ∃ c, validateWasmLoading w = Return c ∧ name c = WASM_LOADING
     ∧ (rejectsAt wasm_get → status c = failed)
     ∧ (∀ response, ProviderValidation.fetch w wasm_get = Return response →
          status c = if ok response && wasmMime response then passed else warning).
Proof.
  unfold validateWasmLoading, rejectsAt, wasmMime.
  destruct (ProviderValidation.fetch w wasm_get) as [response|error];
    unfold_bind; cbn [cbind try_catch].
  - destruct (ok response) eqn:Hok; cbn [try_catch andb];
      eexists; (split; [reflexivity|]); (split; [reflexivity|]);
      (split; [intros [? [=]]|]); intros ? [= <-]; rewrite Hok; reflexivity.
  - eexists. split; [reflexivity|]. split; [reflexivity|]. split; [done|].
    intros ? [=].
Qed.

Lemma missingHeaders_none response :
  (length (missingHeaders response) =? 0)%nat
  = forallb (λ h, headerTruthy (headers response h)) securityHeaderNames.
Proof.
  unfold missingHeaders. induction securityHeaderNames as [|h hs IH]; [reflexivity|].
  cbn [List.filter forallb]. destruct (headerTruthy (headers response h)); cbn; auto.
Qed.

Lemma validateSecurityHeaders_returns :
  ∃ c, validateSecurityHeaders w = Return c ∧ name c = SECURITY
     ∧ (rejectsAt security_get → status c = failed)
     ∧ (∀ response, ProviderValidation.fetch w security_get = Return response →
          status c =
            if forallb (λ h, headerTruthy (headers response h)) securityHeaderNames
            then passed else warning).
Proof.
  unfold validateSecurityHeaders, rejectsAt.
  destruct (ProviderValidation.fetch w security_get) as [response|error];
    unfold_bind; cbn [cbind try_catch].
  - eexists. split; [reflexivity|]. split; [reflexivity|]. split.
    + intros [? [=]].
    + intros ? [= <-]. cbn [status]. by rewrite missingHeaders_none.
  - eexists. split; [reflexivity|]. split; [reflexivity|]. split; [done|].
    intros ? [=].
Qed.

Lemma runCommonValidations_returns :
  ∃ c1 c2 c3 c4 c5, runCommonValidations w = Return [c1; c2; c3; c4; c5].
Proof.
  unfold runCommonValidations.
  destruct validateConnectivity_returns as (c1 & -> & _).
  destruct validateCORSHeaders_returns as (c2 & -> & _).
  destruct validateCacheHeaders_returns as (c3 & -> & _).
  destruct validateWasmLoading_returns as (c4 & -> & _).
  destruct validateSecurityHeaders_returns as (c5 & -> & _).
  by exists c1, c2, c3, c4, c5.
Qed.

(** X12.  [runCommonValidations] always returns five checks, one per
    validation and in their order, and never the check
    [validation-error] of its [catch] block: every validation catches
    its own errors.  The second to fifth check are named
    [cors-headers], [cache-headers], [wasm-loading] and [security].
    The connectivity check is named [connectivity] only when its
    request throws; when the request gets a response, the check is
    named [cors-headers] like the one after it, passed for an [ok]
    response and failed otherwise.  The WASM check and the security
    check fail exactly when their request throws: with a response,
    the WASM check passes for an [ok] response of content type
    [application/wasm] and is a warning otherwise, and the security
    check passes when all five security headers are there and is a
    warning otherwise. *)
Theorem runCommonValidations_five_checks :
  ∃ c1 c2 c3 c4 c5,
    runCommonValidations w = Return [c1; c2; c3; c4; c5]
    ∧ map name [c2; c3; c4; c5]
        = [CORS_HEADERS; CACHE_HEADERS; WASM_LOADING; SECURITY]
    ∧ Forall (λ c, name c ≠ "validation-error") [c1; c2; c3; c4; c5]
    ∧ (rejectsAt connectivity_probe →
         c1 = {| name := "connectivity"; status := failed |})
    ∧ (∀ response, ProviderValidation.fetch w connectivity_probe = Return response →
         c1 = {| name := CORS_HEADERS;
                 status := if ok response then passed else failed |})
    ∧ (rejectsAt wasm_get → status c4 = failed)
    ∧ (∀ response, ProviderValidation.fetch w wasm_get = Return response →
         status c4 = if ok response && wasmMime response then passed else warning)
    ∧ (rejectsAt security_get → status c5 = failed)
    ∧ (∀ response, ProviderValidation.fetch w security_get = Return response →
         status c5 =
           if forallb (λ h, headerTruthy (headers response h)) securityHeaderNames
           then passed else warning).
Proof.
  unfold runCommonValidations.
  destruct validateConnectivity_returns as (c1 & -> & H1t & H1r).
  destruct validateCORSHeaders_returns as (c2 & -> & H2).
  destruct validateCacheHeaders_returns as (c3 & -> & H3).
  destruct validateWasmLoading_returns as (c4 & -> & H4 & H4t & H4r).
  destruct validateSecurityHeaders_returns as (c5 & -> & H5 & H5t & H5r).
  exists c1, c2, c3, c4, c5. split; [reflexivity|].
  split; [cbn [map]; by rewrite H2, H3, H4, H5|].
  split.
  { repeat constructor; rewrite ?H2, ?H3, ?H4, ?H5; try discriminate.
    destruct (ProviderValidation.fetch w connectivity_probe) as [response|error] eqn:E.
    - by rewrite (H1r response eq_refl).
    - rewrite H1t by (by exists error). discriminate. }
  auto 10.
Qed.

Lemma measurePerformance_returns' :
  ∃ metrics, ProviderValidation.measurePerformance w = Return metrics
    ∧ (rejectsAt timing_main →
         metrics = {| loadTime := -1; wasmLoadTime := -1; totalSize := Some 0;
                      estimated := false |})
    ∧ (∀ response, ProviderValidation.fetch w timing_main = Return response →
         loadTime metrics = elapsed_main w
         ∧ estimated metrics = true
         ∧ (rejectsAt timing_wasm → wasmLoadTime metrics = 0)).
Proof.
  unfold ProviderValidation.measurePerformance, rejectsAt.
  destruct (ProviderValidation.fetch w timing_main) as [response|error]; cbn.
  - eexists. split; [reflexivity|]. split; [intros [? [=]]|].
    intros ? _. split; [reflexivity|]. split; [reflexivity|].
    intros [e ->]. reflexivity.
  - eexists. split; [reflexivity|]. split; [reflexivity|]. intros ? [=].
Qed.

Lemma validateGitHubPagesSpecific_returns :
  ∃ c, validateGitHubPagesSpecific w = Return c ∧ name c = "github-pages-config".
Proof.
  unfold validateGitHubPagesSpecific.
  destruct (ProviderValidation.fetch w nojekyll_get); cbn; eauto.
Qed.

Lemma validateAssetIntegrity_returns :
  ∃ c, ProviderValidation.validateAssetIntegrity w = Return c
     ∧ name c = "asset-integrity"
     ∧ (rejectsAt manifest_get' → status c = failed)
     ∧ (∀ response, ProviderValidation.fetch w manifest_get' = Return response →
          (ok response = false → status c = warning)
          ∧ (ok response = true → json response = None → status c = failed)
          ∧ (ok response = true →
             ∀ props, json response = Some (Json.JObj props) →
               Json.lookup "assets" props = None → status c = passed)).
Proof.
  unfold ProviderValidation.validateAssetIntegrity, rejectsAt.
  assert (Hleaf : ∀ (st : Status) (out : Completion Response),
    (∀ error, out = Throw error → st = failed) →
    (∀ response, out = Return response →
       (ok response = false → st = warning)
       ∧ (ok response = true → json response = None → st = failed)
       ∧ (ok response = true →
          ∀ props, json response = Some (Json.JObj props) →
            Json.lookup "assets" props = None → st = passed)) →
    ∃ c, Return {| name := "asset-integrity"; status := st |} = Return c
       ∧ name c = "asset-integrity"
       ∧ ((∃ error, out = Throw error) → status c = failed)
       ∧ (∀ response, out = Return response →
            (ok response = false → status c = warning)
            ∧ (ok response = true → json response = None → status c = failed)
            ∧ (ok response = true →
               ∀ props, json response = Some (Json.JObj props) →
                 Json.lookup "assets" props = None → status c = passed))).
  { intros st out Ht Hr. eexists. split; [reflexivity|]. split; [reflexivity|].
    split; [intros [error He]; by apply (Ht error)|exact Hr]. }
  destruct (ProviderValidation.fetch w manifest_get') as [response|error];
    cbn [try_catch]; unfold_bind; cbn [cbind];
    [|apply Hleaf; [done|intros ? [=]]].
  destruct (ok response) eqn:Hok; cbn [negb cbind try_catch];
    [|apply Hleaf; [intros ? [=]|intros ? [= <-]; repeat split; congruence]].
  destruct (json response) as [manifest|] eqn:Hj; cbn [cbind try_catch];
    [|apply Hleaf; [intros ? [=]|intros ? [= <-]; repeat split; congruence]].
  destruct manifest as [| | | | |props]; cbn [Json.getProp cbind try_catch];
    try (apply Hleaf; [intros ? [=]|intros ? [= <-]; repeat split; congruence]).
  destruct (Json.lookup "assets" props) as [assets|] eqn:Ha;
    [|cbn [cbind try_catch];
      apply Hleaf; [intros ? [=]|intros ? [= <-]; repeat split; congruence]].
  assert (Hrest : ∀ st : Status,
    ∃ c, Return {| name := "asset-integrity"; status := st |} = Return c
       ∧ name c = "asset-integrity"
       ∧ ((∃ error, Return response = Throw error) → status c = failed)
       ∧ (∀ response0, Return response = Return response0 →
            (ok response0 = false → status c = warning)
            ∧ (ok response0 = true → json response0 = None → status c = failed)
            ∧ (ok response0 = true →
               ∀ props0, json response0 = Some (Json.JObj props0) →
                 Json.lookup "assets" props0 = None → status c = passed))).
  { intros st. apply Hleaf; [intros ? [=]|].
    intros ? [= <-]. repeat split; congruence. }
  destruct assets as [| | | | |aprops]; cbn [cbind try_catch]; try apply Hrest.
  destruct (Json.lookup "core" aprops) as [core|]; cbn [try_catch]; [|apply Hrest].
  destruct (Json.truthy core); [|apply Hrest].
  destruct (ProviderValidation.fetch w (core_get (coreFilename core)));
    cbn [cbind try_catch]; apply Hrest.
Qed.

(** X13.  [GitHubPagesProvider.validate] never throws and never adds
    the check [validation-error]: it returns the five common checks,
    the check [github-pages-config] and the check [asset-integrity],
    in this order, with [success] true exactly when none of the seven
    has failed (warnings are tolerated), and with performance metrics
    in every case: a measurement whose main request throws gives
    [loadTime = wasmLoadTime = -1], one whose WASM request alone
    throws gives [wasmLoadTime = 0].  An asset manifest that does not
    answer [ok] is a warning, one that is not JSON fails, and one
    without an [assets] property passes. *)
Theorem provider_validate_result :
  ∃ c1 c2 c3 c4 c5 pages integrity metrics,
    ProviderValidation.validate w =
      Return {| ProviderValidation.success :=
                  forallb (λ check, negb (isFailed (status check)))
                    [c1; c2; c3; c4; c5; pages; integrity];
                ProviderValidation.checks := [c1; c2; c3; c4; c5; pages; integrity];
                ProviderValidation.performance := Some metrics |}
    ∧ runCommonValidations w = Return [c1; c2; c3; c4; c5]
    ∧ name pages = "github-pages-config"
    ∧ name integrity = "asset-integrity"
    ∧ (forallb (λ check, negb (isFailed (status check)))
         [c1; c2; c3; c4; c5; pages; integrity] = true
       ↔ Forall (λ c, status c ≠ failed) [c1; c2; c3; c4; c5; pages; integrity])
    ∧ (rejectsAt timing_main →
         metrics = {| loadTime := -1; wasmLoadTime := -1; totalSize := Some 0;
                      estimated := false |})
    ∧ (∀ response, ProviderValidation.fetch w timing_main = Return response →
         loadTime metrics = elapsed_main w
         ∧ (rejectsAt timing_wasm → wasmLoadTime metrics = 0))
    ∧ (rejectsAt manifest_get' → status integrity = failed)
    ∧ (∀ response, ProviderValidation.fetch w manifest_get' = Return response →
         (ok response = false → status integrity = warning)
         ∧ (ok response = true → json response = None → status integrity = failed)
         ∧ (ok response = true →
            ∀ props, json response = Some (Json.JObj props) →
              Json.lookup "assets" props = None → status integrity = passed)).
Proof.
  destruct runCommonValidations_returns as (c1 & c2 & c3 & c4 & c5 & Hcommon).
  destruct validateGitHubPagesSpecific_returns as (pages & Hpages & Hpn).
  destruct measurePerformance_returns' as (metrics & Hperf & Hpt & Hpr).
  destruct validateAssetIntegrity_returns as (integrity & Hint & Hin & Hit & Hir).
  exists c1, c2, c3, c4, c5, pages, integrity, metrics.
  split.
  { unfold ProviderValidation.validate. rewrite Hcommon, Hpages, Hperf, Hint.
    reflexivity. }
  split; [exact Hcommon|]. split; [exact Hpn|]. split; [exact Hin|].
  split.
  { rewrite forallb_forall, Forall_forall.
    setoid_rewrite <- list_elem_of_In.
    split; intros Hall c Hc; specialize (Hall c Hc); by destruct (status c). }
  split; [exact Hpt|]. split; [|split; [exact Hit|exact Hir]].
  intros response Hr. destruct (Hpr response Hr) as (Hl & _ & Hw). by split.
Qed.

End ProviderChecks.

(** ** The command line *)

Section CommandLine.
Import Cli.

(** The properties [parseArgs] can assign, with the values each can
    get from the arguments [args]. *)
Definition valueKeys : list string :=
  [ "target"; "environment"; "repository"; "branch"; "customDomain";
    "assetsDir"; "configFile"; "baseUrl" ].

Definition assignable (args : list string) (k : string) (v : Value) : Prop :=
  (k ∈ valueKeys ∧ (v = VUndefined ∨ ∃ s, v = VString s ∧ s ∈ args))
  ∨ (k = "dryRun" ∧ v = VBool true ∧ "--dry-run" ∈ args)
  ∨ (k = "validate" ∧ v = VBool false ∧ "--no-validate" ∈ args)
  ∨ (k = "force" ∧ v = VBool true ∧ "--force" ∈ args).

Lemma valueOption_key arg key : valueOption arg = Some key → key ∈ valueKeys.
Proof.
  unfold valueOption, valueKeys.
  repeat match goal with
         | |- context [String.eqb arg ?s] => destruct (String.eqb arg s)
         end; intros [= <-]; set_solver.
Qed.

Lemma setOption_assignable all k v options :
  (∀ k' v', (k', v') ∈ options → assignable all k' v') →
  assignable all k v →
  ∀ k' v', (k', v') ∈ setOption k v options → assignable all k' v'.
Proof.
  intros Hopts Hkv k' v' Hin. unfold setOption in Hin.
  apply elem_of_mapSet in Hin as [Hin|[-> ->]]; auto.
Qed.

Lemma parseLoop_assignable all n :
  ∀ args options,
    (length args ≤ n)%nat →
    (∀ s, s ∈ args → s ∈ all) →
    (∀ k v, (k, v) ∈ options → assignable all k v) →
    ∀ k v, (k, v) ∈ parseLoop args options → assignable all k v.
Proof.
  induction n as [|n IH]; intros args options Hlen Hsub Hopts.
  - destruct args; [exact Hopts|cbn in Hlen; lia].
  - destruct args as [|arg rest]; [exact Hopts|].
    cbn [length] in Hlen. cbn [parseLoop].
    assert (Harg : arg ∈ all) by (apply Hsub; by left).
    assert (Hrest : ∀ s, s ∈ rest → s ∈ all) by (intros s Hs; apply Hsub; by right).
    destruct (valueOption arg) as [key|] eqn:Hkey.
    + pose proof (valueOption_key arg key Hkey) as Hk.
      destruct rest as [|nextArg rest'].
      * apply setOption_assignable; [exact Hopts|]. left. auto.
      * cbn [length] in Hlen. apply IH; [lia| |].
        -- intros s Hs. apply Hrest. by right.
        -- apply setOption_assignable; [exact Hopts|]. left. split; [exact Hk|].
           right. exists nextArg. split; [reflexivity|]. apply Hrest. by left.
    + destruct (String.eqb_spec arg "--dry-run") as [->|_];
        [apply IH; [lia|exact Hrest|];
         apply setOption_assignable; [exact Hopts|]; right; left; auto|].
      destruct (String.eqb_spec arg "--no-validate") as [->|_];
        [apply IH; [lia|exact Hrest|];
         apply setOption_assignable; [exact Hopts|]; right; right; left; auto|].
      destruct (String.eqb_spec arg "--force") as [->|_];
        [apply IH; [lia|exact Hrest|];
         apply setOption_assignable; [exact Hopts|]; right; right; right; auto|].
      apply IH; [lia|exact Hrest|exact Hopts].
Qed.

Lemma getOption_elem k v options :
  getOption k options = Some v → (k, v) ∈ options.
Proof.
  unfold getOption. destruct (find _ options) as [[k' v']|] eqn:Hfind; [|done].
  intros [= <-]. apply find_some in Hfind as [Hin Heq]. cbn [fst] in Heq.
  apply String.eqb_eq in Heq as ->. by apply list_elem_of_In.
Qed.

(** X14.  [parseArgs] assigns only the eleven properties of its
    switch, and only these values: one of the eight value options
    holds an argument of the command line or [undefined]; [dryRun]
    and [force] are never anything but [true], and [validate] never
    anything but [false], each only when its flag is among the
    arguments.  No argument assigns [strict]: the [--strict] of the
    usage text is not parsed, so the [validate] command always runs
    the validator in normal mode. *)
Theorem parseArgs_assigns (args : list string) :
  (∀ k v, (k, v) ∈ parseArgs args → assignable args k v)
  ∧ getOption "strict" (parseArgs args) = None
  ∧ (∀ command url strict,
       main (command :: args) = CallValidate url strict →
       strict = None
       ∧ Validator.strictMode (validatorOptions strict) = false).
Proof.
  assert (Hall : ∀ l k v, (k, v) ∈ parseArgs l → assignable l k v).
  { intros l k v. unfold parseArgs.
    apply (parseLoop_assignable l (length l)); [lia|auto|].
    intros k' v' Hin. by apply elem_of_nil in Hin. }
  assert (Hstrict : ∀ l, getOption "strict" (parseArgs l) = None).
  { intros l. destruct (getOption "strict" (parseArgs l)) as [v|] eqn:E; [|done].
    apply getOption_elem, Hall in E.
    destruct E as [[Hk _]|[[? _]|[[? _]|[? _]]]]; try discriminate.
    unfold valueKeys in Hk. set_solver. }
  split; [apply Hall|]. split; [apply Hstrict|].
  intros command url strict. unfold main. cbv zeta.
  change ((command :: args) !! 0%nat) with (Some command).
  change ((command :: args) !! 1%nat) with (args !! 0%nat).
  change (default "" (Some command)) with command. cbn [tail].
  destruct (negb (GitHubPages.truthyOpt (Some command))); [done|].
  destruct (String.eqb command "deploy"); [done|].
  destruct (String.eqb command "validate").
  - destruct (negb (GitHubPages.truthyOpt (args !! 0%nat))); [done|].
    intros [= _ <-]. by rewrite Hstrict.
  - destruct (String.eqb command "rollback"); [by destruct (negb _)|].
    by destruct (String.eqb command "list").
Qed.

(** Arguments that end where the loop is between two options: no
    value option is left waiting for its value. *)
Fixpoint complete (args : list string) : bool :=
  match args with
  | [] => true
  | arg :: rest =>
      match valueOption arg with
      | Some _ =>
          match rest with
          | [] => false
          | _ :: rest' => complete rest'
          end
      | None => complete rest
      end
  end.

Lemma parseLoop_app n :
  ∀ before after options,
    (length before ≤ n)%nat → complete before = true →
    parseLoop (before ++ after) options = parseLoop after (parseLoop before options).
Proof.
  induction n as [|n IH]; intros before after options Hlen Hc.
  - destruct before; [reflexivity|cbn in Hlen; lia].
  - destruct before as [|arg rest]; [reflexivity|].
    cbn [length] in Hlen. cbn [complete] in Hc. cbn [app parseLoop].
    destruct (valueOption arg) as [key|].
    + destruct rest as [|nextArg rest']; [discriminate|].
      cbn [length] in Hlen. cbn [app]. apply IH; [lia|exact Hc].
    + destruct (String.eqb arg "--dry-run"); [apply IH; [lia|exact Hc]|].
      destruct (String.eqb arg "--no-validate"); [apply IH; [lia|exact Hc]|].
      destruct (String.eqb arg "--force"); apply IH; (lia || exact Hc).
Qed.

Lemma getOption_setOption k v options :
  getOption k (setOption k v options) = Some v.
Proof.
  unfold getOption, setOption.
  induction options as [|[k' v'] options IH]; cbn [JS.mapSet find fst].
  - by rewrite String.eqb_refl.
  - destruct (String.eqb_spec k' k) as [->|Hne]; cbn [find fst].
    + by rewrite String.eqb_refl.
    + destruct (String.eqb_spec k' k); [done|exact IH].
Qed.

(** X15.  How the arguments compose.  After arguments that leave no
    value option waiting, a value option takes the argument that
    follows it, whatever it is (a flag such as [--dry-run] in that
    place is the value, not a flag), and the parse goes on behind it;
    the last occurrence of an option decides its value; and a value
    option that is the last argument assigns [undefined], so that the
    option reads as not given even where an earlier occurrence gave
    it a value. *)
Theorem parseArgs_composes (before : list string) (flag key : string) :
  complete before = true →
  valueOption flag = Some key →
  (∀ value after,
     parseArgs (before ++ flag :: value :: after)
       = parseLoop after (setOption key (VString value) (parseArgs before)))
  ∧ (∀ value, getOption key (parseArgs (before ++ [flag; value]))
                = Some (VString value))
  ∧ getOption key (parseArgs (before ++ [flag])) = Some VUndefined
  ∧ stringOption key (parseArgs (before ++ [flag])) = None.
Proof.
  intros Hc Hflag.
  assert (Happ : ∀ after, parseArgs (before ++ after)
                          = parseLoop after (parseArgs before)).
  { intros after. unfold parseArgs. by apply (parseLoop_app (length before)). }
  assert (Hlast : getOption key (parseArgs (before ++ [flag])) = Some VUndefined).
  { rewrite Happ. cbn [parseLoop]. rewrite Hflag. apply getOption_setOption. }
  split; [|split; [|split]].
  - intros value after. rewrite Happ. cbn [parseLoop]. by rewrite Hflag.
  - intros value. rewrite Happ. cbn [parseLoop]. rewrite Hflag.
    apply getOption_setOption.
  - exact Hlast.
  - unfold stringOption. by rewrite Hlast.
Qed.

Lemma parseArgs_composes_witness :
  complete ["--repository"; "acme/site"] = true
  ∧ valueOption "--branch" = Some "branch"
  ∧ parseArgs ["--repository"; "acme/site"; "--branch"; "--dry-run"]
      = [ ("repository", VString "acme/site"); ("branch", VString "--dry-run") ]
  ∧ getOption "branch" (parseArgs ["--repository"; "acme/site"; "--branch"])
      = Some VUndefined.
Proof.
  split; [reflexivity|]. split; [reflexivity|].
  destruct (parseArgs_composes ["--repository"; "acme/site"] "--branch" "branch"
              eq_refl eq_refl) as (Hvalue & _ & Hlast & _).
  split; [exact (Hvalue "--dry-run" [])|exact Hlast].
Defined.

End CommandLine.

(** ** The GitHub Pages provider: what a deployment does *)

Section ProviderDeployment.
Import GitHubPages.
Context `{PathLib}.
Variable w : World.
Variable gh : Provider.

Definition succeeded (a : Action) : Prop := fails w a = None.

(** The actions of the phases of [deploy], in the order the source
    makes them. *)
Definition copyActions (tempDir : string) (files : list Deploy.AssetFile)
    : list Action :=
  file ← files;
  let filePath := path_join [tempDir; Deploy.path file] in
  [ MakeDir (path_dirname filePath);
    WriteFile filePath (Text (Deploy.content file)) ].

Definition prepareActions (assets : Deploy.AssetBundle) : list Action :=
  [ MakeDir (tempDirectory w) ]
  ++ copyActions (tempDirectory w) (Deploy.files assets)
  ++ [ WriteFile (path_join [tempDirectory w; "manifest.json"])
         (Stringified (Deploy.manifest assets)) ].

Definition configureActions (deployDir : string) (config : Deploy.Config)
    : list Action :=
  [ WriteFile (path_join [deployDir; ".nojekyll"]) (Text "") ]
  ++ (if truthyOpt (gh_customDomain gh) && gh_cname gh
      then [ WriteFile (path_join [deployDir; "CNAME"])
               (Text (text (gh_customDomain gh))) ]
      else [])
  ++ [ WriteFile (path_join [deployDir; "README.md"]) (Text (readme w gh config));
       WriteFile (path_join [deployDir; "_headers"]) (Text headersFile) ].

Definition gitCommands (deploymentId : string) : list string :=
  [ "git init"; "git checkout -b " +:+ text (gh_branch gh) ]
  ++ (if truthyOpt (gh_username gh)
      then [ "git config user.name " +:+ Build.dq +:+ text (gh_username gh)
             +:+ Build.dq ]
      else [])
  ++ (if truthyOpt (gh_email gh)
      then [ "git config user.email " +:+ Build.dq +:+ text (gh_email gh)
             +:+ Build.dq ]
      else [])
  ++ [ "git add .";
       "git commit -m " +:+ Build.dq +:+ commitMessage w deploymentId +:+ Build.dq;
       "git remote add origin " +:+ remoteUrl w gh;
       "git push --force origin " +:+ text (gh_branch gh) ].

Definition gitActions (deployDir deploymentId : string) : list Action :=
  (λ command, Exec command (Some deployDir)) <$> gitCommands deploymentId.

(** All of them, but for the removal of the temporary directory. *)
Definition deploymentPlan (assets : Deploy.AssetBundle) (config : Deploy.Config)
    : list Action :=
  [ Exec ("git ls-remote " +:+ repoUrl gh) None ]
  ++ prepareActions assets
  ++ configureActions (tempDirectory w) config
  ++ gitActions (tempDirectory w)
       (generateDeploymentId (deploy_ms w) (deploy_random w)).

(** The token [deployToGitHubPages] uses. *)
Definition usedToken : option string :=
  if truthyOpt (gh_token gh) then gh_token gh else GITHUB_TOKEN w.

(** A computation follows a plan: it makes the plan's actions in
    order, stops at the first that throws, and returns only after all
    of them went well. *)
Definition follows {A} (plan : list Action) (post : A → Prop) (m : Run A) : Prop :=
  match m with
  | (acts, _, Return v) => acts = plan ∧ Forall succeeded plan ∧ post v
  | (acts, _, Throw _) => acts `prefix_of` plan
  end.

(** The same for the [try] block as a whole, whose last action (the
    removal) may throw unnoticed and whose last step is the
    [afterDeploy] hook. *)
Definition finishes {A} (plan cleanup : list Action)
    (hook : option (Completion unit)) (post : A → Prop) (m : Run A) : Prop :=
  match m with
  | (acts, _, Return v) => acts = plan ++ cleanup ∧ Forall succeeded plan ∧ post v
  | (acts, _, Throw e) =>
      acts `prefix_of` plan
      ∨ (acts = plan ++ cleanup ∧ Forall succeeded plan ∧ hook = Some (Throw e))
  end.

Lemma follows_bind {A B} p1 p2 (post : A → Prop) (post' : B → Prop) m k :
  follows p1 post m →
  (∀ x, post x → follows p2 post' (k x)) →
  follows (p1 ++ p2) post' (bind m k).
Proof.
  destruct m as [[a1 l1] [x|e]]; cbn [follows bind].
  - intros (-> & Hp1 & Hx) Hk. specialize (Hk x Hx).
    destruct (k x) as [[a2 l2] [y|e]]; cbn [follows] in *.
    + destruct Hk as (-> & Hp2 & Hy). split; [reflexivity|].
      split; [by apply Forall_app|exact Hy].
    + by apply prefix_app.
  - intros Hpre _. by apply prefix_app_r.
Qed.

Lemma finishes_bind {A B} p1 p2 c h (post : A → Prop) (post' : B → Prop) m k :
  follows p1 post m →
  (∀ x, post x → finishes p2 c h post' (k x)) →
  finishes (p1 ++ p2) c h post' (bind m k).
Proof.
  destruct m as [[a1 l1] [x|e]]; cbn [follows finishes bind].
  - intros (-> & Hp1 & Hx) Hk. specialize (Hk x Hx).
    destruct (k x) as [[a2 l2] [y|e]]; cbn [finishes] in *.
    + destruct Hk as (-> & Hp2 & Hy). split; [by rewrite app_assoc|].
      split; [by apply Forall_app|exact Hy].
    + destruct Hk as [Hpre|(-> & Hp2 & Hh)].
      * left. by apply prefix_app.
      * right. split; [by rewrite app_assoc|]. split; [by apply Forall_app|exact Hh].
  - intros Hpre _. left. by apply prefix_app_r.
Qed.

Lemma follows_plan {A} p p' (post : A → Prop) m :
  p = p' → follows p' post m → follows p post m.
Proof. by intros ->. Qed.

Lemma finishes_plan {A} p p' c h (post : A → Prop) m :
  p = p' → finishes p' c h post m → finishes p c h post m.
Proof. by intros ->. Qed.

Lemma follows_ret {A} (post : A → Prop) v : post v → follows [] post (ret v).
Proof. intros Hv. cbn. auto. Qed.

Lemma follows_pushLog line : follows [] (λ _, True) (pushLog line).
Proof. cbn. auto. Qed.

Lemma follows_callHook hook : follows [] (λ _, True) (callHook hook).
Proof. destruct hook as [[[]|e]|]; cbn; auto. Qed.

Lemma follows_perform a : follows [a] (λ _, True) (perform w a).
Proof.
  unfold perform, follows. destruct (fails w a) eqn:Ha; [done|].
  split; [reflexivity|]. split; [|done]. by apply Forall_singleton.
Qed.

Lemma follows_when (cond : bool) a :
  follows (if cond then [a] else []) (λ _, True)
    (if cond then perform w a else ret tt).
Proof. destruct cond; [apply follows_perform|by apply follows_ret]. Qed.

Lemma validateConfig_follows :
  follows [ Exec ("git ls-remote " +:+ repoUrl gh) None ]
    (λ _, JS.truthy (gh_repository gh) = true
          ∧ ∃ token, usedToken = Some token ∧ JS.truthy token = true)
    (validateConfig w gh).
Proof.
  unfold validateConfig, usedToken.
  destruct (JS.truthy (gh_repository gh)); cbn [negb]; [|apply prefix_nil].
  destruct (truthyOpt (gh_token gh)) eqn:Htoken; cbn [negb andb].
  - unfold testConnection, perform.
    destruct (fails w _) eqn:Hls; cbn; [by exists []|].
    split; [reflexivity|]. split; [by apply Forall_singleton|].
    split; [reflexivity|].
    destruct (gh_token gh) as [token|]; [by exists token|done].
  - destruct (truthyOpt (GITHUB_TOKEN w)) eqn:Henv; cbn [negb]; [|apply prefix_nil].
    unfold testConnection, perform.
    destruct (fails w _) eqn:Hls; cbn; [by exists []|].
    split; [reflexivity|]. split; [by apply Forall_singleton|].
    split; [reflexivity|].
    destruct (GITHUB_TOKEN w) as [token|]; [by exists token|done].
Qed.

Lemma copyFiles_follows tempDir files :
  follows (copyActions tempDir files) (λ _, True) (copyFiles w tempDir files).
Proof.
  induction files as [|file files IH]; [by apply follows_ret|].
  cbn [copyFiles]. unfold copyFile.
  apply (follows_bind
           [ MakeDir (path_dirname (path_join [tempDir; Deploy.path file]));
             WriteFile (path_join [tempDir; Deploy.path file])
               (Text (Deploy.content file)) ]
           (copyActions tempDir files) (λ _, True)); [|intros _ _; exact IH].
  apply (follows_bind [_] [_] (λ _, True));
    [apply follows_perform|intros _ _; apply follows_perform].
Qed.

Lemma prepareDeploymentDirectory_follows assets :
  follows (prepareActions assets) (λ deployDir, deployDir = tempDirectory w)
    (prepareDeploymentDirectory w assets).
Proof.
  unfold prepareDeploymentDirectory, prepareActions.
  apply (follows_bind _ _ (λ _, True)); [apply follows_perform|intros _ _].
  apply (follows_bind _ _ (λ _, True)); [apply copyFiles_follows|intros _ _].
  apply (follows_plan _
           ([ WriteFile (path_join [tempDirectory w; "manifest.json"])
                (Stringified (Deploy.manifest assets)) ] ++ [])); [reflexivity|].
  apply (follows_bind _ _ (λ _, True)); [apply follows_perform|intros _ _].
  by apply follows_ret.
Qed.

Lemma configureGitHubPages_follows deployDir config :
  follows (configureActions deployDir config) (λ _, True)
    (configureGitHubPages w gh deployDir config).
Proof.
  unfold configureGitHubPages, configureActions.
  apply (follows_bind _ _ (λ _, True)); [apply follows_perform|intros _ _].
  apply (follows_bind _ _ (λ _, True)); [apply follows_when|intros _ _].
  apply (follows_bind [_] [_] (λ _, True));
    [apply follows_perform|intros _ _; apply follows_perform].
Qed.

Lemma deployToGitHubPages_follows deployDir deploymentId :
  follows (gitActions deployDir deploymentId) (λ url, url = getDeploymentUrl gh)
    (deployToGitHubPages w gh deployDir deploymentId).
Proof.
  unfold deployToGitHubPages, gitActions, gitCommands. cbv zeta.
  rewrite !fmap_app.
  apply (follows_plan _
           ([Exec "git init" (Some deployDir)]
            ++ [Exec ("git checkout -b " +:+ text (gh_branch gh)) (Some deployDir)]
            ++ (if truthyOpt (gh_username gh)
                then [Exec ("git config user.name " +:+ Build.dq
                            +:+ text (gh_username gh) +:+ Build.dq) (Some deployDir)]
                else [])
            ++ (if truthyOpt (gh_email gh)
                then [Exec ("git config user.email " +:+ Build.dq
                            +:+ text (gh_email gh) +:+ Build.dq) (Some deployDir)]
                else [])
            ++ [Exec "git add ." (Some deployDir)]
            ++ [Exec ("git commit -m " +:+ Build.dq
                      +:+ commitMessage w deploymentId +:+ Build.dq) (Some deployDir)]
            ++ [Exec ("git remote add origin " +:+ remoteUrl w gh) (Some deployDir)]
            ++ [Exec ("git push --force origin " +:+ text (gh_branch gh))
                  (Some deployDir)]
            ++ [])).
  { by destruct (truthyOpt (gh_username gh)), (truthyOpt (gh_email gh)). }
  apply (follows_bind _ _ (λ _, True)); [apply follows_perform|intros _ _].
  apply (follows_bind _ _ (λ _, True)); [apply follows_perform|intros _ _].
  apply (follows_bind _ _ (λ _, True)); [apply follows_when|intros _ _].
  apply (follows_bind _ _ (λ _, True)); [apply follows_when|intros _ _].
  apply (follows_bind _ _ (λ _, True)); [apply follows_perform|intros _ _].
  apply (follows_bind _ _ (λ _, True)); [apply follows_perform|intros _ _].
  apply (follows_bind _ _ (λ _, True)); [apply follows_perform|intros _ _].
  apply (follows_bind _ _ (λ _, True)); [apply follows_perform|intros _ _].
  by apply follows_ret.
Qed.

(** The result of a deployment that went through. *)
Definition successResult (assets : Deploy.AssetBundle) (deploymentId : string)
    : Deploy.DeploymentResult :=
  {| Deploy.success := true;
     Deploy.deploymentId := deploymentId;
     Deploy.url := Json.JStr (getDeploymentUrl gh);
     Deploy.logs := [];
     Deploy.metrics :=
       Some {| Deploy.buildTime := 0;
               Deploy.deployTime := elapsed w;
               Deploy.totalFiles := Z.of_nat (length (Deploy.files assets));
               Deploy.metrics_totalSize := Deploy.totalSize assets |};
     Deploy.error := None |}.

Lemma deployAttempt_finishes assets config :
  let deploymentId := generateDeploymentId (deploy_ms w) (deploy_random w) in
  finishes (deploymentPlan assets config) [RemoveDir (tempDirectory w)]
    (afterDeploy (gh_hooks gh))
    (λ result, result = successResult assets deploymentId
               ∧ JS.truthy (gh_repository gh) = true
               ∧ ∃ token, usedToken = Some token ∧ JS.truthy token = true)
    (deployAttempt w gh assets config deploymentId).
Proof.
  intros deploymentId. unfold deployAttempt, deploymentPlan. fold deploymentId.
  apply (finishes_bind [] _ _ _ (λ _, True)); [apply follows_callHook|intros _ _].
  apply (finishes_bind [] _ _ _ (λ _, True)); [apply follows_pushLog|intros _ _].
  apply (finishes_bind _ _ _ _ _ _ _ _ validateConfig_follows).
  intros _ [Hrepo Htoken].
  apply (finishes_bind [] _ _ _ (λ _, True)); [apply follows_pushLog|intros _ _].
  apply (finishes_bind _ _ _ _ _ _ _ _ (prepareDeploymentDirectory_follows assets)).
  intros deployDir ->.
  apply (finishes_bind [] _ _ _ (λ _, True)); [apply follows_pushLog|intros _ _].
  apply (finishes_bind _ _ _ _ _ _ _ _
           (configureGitHubPages_follows (tempDirectory w) config)).
  intros _ _.
  apply (finishes_bind [] _ _ _ (λ _, True)); [apply follows_pushLog|intros _ _].
  apply (finishes_plan _ (gitActions (tempDirectory w) deploymentId ++ []));
    [by rewrite app_nil_r|].
  apply (finishes_bind _ _ _ _ _ _ _ _
           (deployToGitHubPages_follows (tempDirectory w) deploymentId)).
  intros url ->.
  unfold pushLog, cleanupDeploymentDirectory, perform, successResult.
  destruct (fails w (RemoveDir (tempDirectory w)));
    destruct (afterDeploy (gh_hooks gh)) as [[[]|e]|]; cbn; auto 10.
Qed.

(** X16.  What [deploy] does to the machine.  It throws only the
    error its [onError] hook throws.  A deployment that succeeds has
    made exactly the actions of the plan, each without an error, and
    then removed the temporary directory (an error of the removal
    goes unnoticed).  One that fails has stopped somewhere in the
    plan, or has made the whole plan, pushed, removed the directory
    and then seen its [afterDeploy] hook throw. *)
Theorem deploy_follows_the_plan (assets : Deploy.AssetBundle) (config : Deploy.Config) :
  let plan := deploymentPlan assets config in
  let pushed acts :=
    acts = plan ++ [RemoveDir (tempDirectory w)] ∧ Forall succeeded plan in
  match deploy w gh assets config with
  | (acts, Return result) =>
      if Deploy.success result
      then pushed acts
           ∧ Deploy.url result = Json.JStr (getDeploymentUrl gh)
           ∧ Deploy.error result = None
      else (acts `prefix_of` plan
            ∨ (pushed acts ∧ ∃ e, afterDeploy (gh_hooks gh) = Some (Throw e)))
           ∧ is_Some (Deploy.error result)
           ∧ ∀ e, onError (gh_hooks gh) ≠ Some (Throw e)
  | (acts, Throw e) => onError (gh_hooks gh) = Some (Throw e)
  end.
Proof.
  intros plan pushed. pose proof (deployAttempt_finishes assets config) as Hrun.
  cbv zeta in Hrun. unfold deploy. cbv zeta.
  destruct (deployAttempt w gh assets config _) as [[acts logs] [result|message]];
    cbn [finishes] in Hrun.
  - destruct Hrun as (Hacts & Hplan & -> & _). cbn. by repeat split.
  - assert (Hfailed : acts `prefix_of` plan
                      ∨ (pushed acts ∧ ∃ e, afterDeploy (gh_hooks gh) = Some (Throw e))).
    { destruct Hrun as [Hpre|(Hacts & Hplan & Hhook)]; [by left|right].
      split; [by split|by exists message]. }
    destruct (onError (gh_hooks gh)) as [[[]|hookError]|]; cbn; try done.
    all: split; [exact Hfailed|]; split; [by eexists|done].
Qed.

Lemma not_removal_plan assets config d :
  RemoveDir d ∉ deploymentPlan assets config.
Proof.
  unfold deploymentPlan, prepareActions, configureActions, gitActions, copyActions.
  rewrite !elem_of_app, !list_elem_of_singleton, list_elem_of_fmap, list_elem_of_bind.
  intros [?|[[?|[(file & Hin & _)|?]]|[[?|[Hin|Hin]]|(c & ? & _)]]]; try done.
  - cbv zeta in Hin. set_solver.
  - destruct (truthyOpt (gh_customDomain gh) && gh_cname gh); set_solver.
  - set_solver.
Qed.

(** X17.  Credentials and leftovers.  A deployment that succeeds has
    run [git remote add origin] with the token written into the
    address, and [git push --force] to the provider's branch, both in
    the temporary directory, into which it had written every file of
    the bundle; its last action removes that directory.  A deployment
    that fails, other than by its [afterDeploy] hook, removes
    nothing: what it has written to the temporary directory stays. *)
Theorem deploy_credentials_and_leftovers
    (assets : Deploy.AssetBundle) (config : Deploy.Config) :
  let acts := (deploy w gh assets config).1 in
  let success :=
    match (deploy w gh assets config).2 with
    | Return result => Deploy.success result
    | Throw _ => false
    end in
  (success = true →
     (∃ token,
        usedToken = Some token ∧ JS.truthy token = true
        ∧ Exec ("git remote add origin https://" +:+ token +:+ "@github.com/"
                +:+ gh_repository gh +:+ ".git") (Some (tempDirectory w)) ∈ acts)
     ∧ Exec ("git push --force origin " +:+ text (gh_branch gh))
         (Some (tempDirectory w)) ∈ acts
     ∧ (∀ file, file ∈ Deploy.files assets →
          WriteFile (path_join [tempDirectory w; Deploy.path file])
            (Text (Deploy.content file)) ∈ acts)
     ∧ last acts = Some (RemoveDir (tempDirectory w)))
  ∧ (success = false →
     (∀ e, afterDeploy (gh_hooks gh) ≠ Some (Throw e)) →
     ∀ d, RemoveDir d ∉ acts).
Proof.
  intros acts success. subst acts success.
  pose proof (deployAttempt_finishes assets config) as Hrun.
  cbv zeta in Hrun. unfold deploy. cbv zeta.
  destruct (deployAttempt w gh assets config _) as [[acts logs] [result|message]];
    cbn [finishes] in Hrun.
  - destruct Hrun as (-> & Hplan & -> & Hrepo & token & Htoken & Htruthy).
    cbn [fst snd successResult Deploy.success]. split; [intros _|done].
    split; [|split; [|split]].
    + exists token. split; [exact Htoken|]. split; [exact Htruthy|].
      apply elem_of_app. left. unfold deploymentPlan, gitActions, gitCommands.
      rewrite !elem_of_app. do 3 right. apply list_elem_of_fmap.
      eexists. split; [reflexivity|]. rewrite !elem_of_app. do 3 right.
      unfold remoteUrl. unfold usedToken in Htoken. rewrite Htoken.
      cbn [truthyOpt text default]. rewrite Htruthy. set_solver.
    + apply elem_of_app. left. unfold deploymentPlan, gitActions, gitCommands.
      rewrite !elem_of_app. do 3 right. apply list_elem_of_fmap.
      eexists. split; [reflexivity|]. rewrite !elem_of_app. do 3 right.
      set_solver.
    + intros file Hfile. apply elem_of_app. left.
      unfold deploymentPlan, prepareActions, copyActions.
      rewrite !elem_of_app. right. left. right. left.
      apply list_elem_of_bind. exists file. split; [|exact Hfile].
      cbv zeta. set_solver.
    + apply last_snoc.
  - assert (Hacts : (∀ e, afterDeploy (gh_hooks gh) ≠ Some (Throw e)) →
                    ∀ d, RemoveDir d ∉ acts).
    { intros Hhook d Hd. destruct Hrun as [[rest Hplan]|(_ & _ & Hthrows)].
      - apply (not_removal_plan assets config d). rewrite Hplan, elem_of_app. by left.
      - by apply (Hhook message). }
    destruct (onError (gh_hooks gh)) as [[[]|hookError]|];
      cbn [fst snd Deploy.success]; (split; [done|intros _; exact Hacts]).
Qed.

End ProviderDeployment.

(** ** The GitHub Pages provider: its address, its options, its rollback *)

Section DeploymentAddress.
Import GitHubPages.

(** The strings without the character [c]. *)
Fixpoint lacks (c : ascii) (s : string) : bool :=
  match s with
  | EmptyString => true
  | String x s' => negb (Ascii.eqb x c) && lacks c s'
  end.

Lemma append_cons (x : ascii) (a b : string) :
  String x a +:+ b = String x (a +:+ b).
Proof. reflexivity. Qed.

Lemma rev_app_append (s acc b : string) :
  String.rev_app s acc +:+ b = String.rev_app s (acc +:+ b).
Proof.
  revert acc. induction s as [|x s IH]; intros acc; [reflexivity|].
  cbn [String.rev_app]. by rewrite IH.
Qed.

Lemma rev_cons (x : ascii) (cur segment : string) :
  String.rev (String x cur) +:+ segment = String.rev cur +:+ String x segment.
Proof. unfold String.rev. cbn [String.rev_app]. by rewrite !rev_app_append. Qed.

Lemma append_empty (a : string) : a +:+ "" = a.
Proof.
  induction a as [|x a IH]; [reflexivity|].
  by rewrite append_cons, IH.
Qed.

Lemma split_go_segment sep segment rest :
  lacks sep segment = true →
  ∀ cur, JS.split_go sep cur (segment +:+ String sep rest)
         = (String.rev cur +:+ segment) :: JS.split_go sep "" rest.
Proof.
  induction segment as [|x segment IH]; cbn [lacks]; intros Hlacks cur.
  - change ("" +:+ String sep rest) with (String sep rest). cbn [JS.split_go].
    by rewrite Ascii.eqb_refl, append_empty.
  - apply andb_true_iff in Hlacks as [Hx Hlacks]. apply negb_true_iff in Hx.
    rewrite append_cons. cbn [JS.split_go]. rewrite Hx, (IH Hlacks).
    by rewrite rev_cons.
Qed.

Lemma split_go_last sep segment :
  lacks sep segment = true →
  ∀ cur, JS.split_go sep cur segment = [String.rev cur +:+ segment].
Proof.
  induction segment as [|x segment IH]; cbn [lacks]; intros Hlacks cur.
  - cbn [JS.split_go]. by rewrite append_empty.
  - apply andb_true_iff in Hlacks as [Hx Hlacks]. apply negb_true_iff in Hx.
    cbn [JS.split_go]. rewrite Hx, (IH Hlacks). by rewrite rev_cons.
Qed.

(** X18.  The address of a deployment.  A custom domain that is not
    empty decides it alone.  Without one it is made of what stands
    before the first and between the first and the second slash of
    the repository: [owner/repo] gives [https://owner.github.io/repo],
    whatever follows a second slash is dropped, and a repository
    without a slash (which the constructor accepts) gives an address
    that ends in [/undefined]. *)
Theorem getDeploymentUrl_cases (gh : Provider) :
  (∀ domain,
     gh_customDomain gh = Some domain → JS.truthy domain = true →
     getDeploymentUrl gh = "https://" +:+ domain)
  ∧ (truthyOpt (gh_customDomain gh) = false →
     (∀ owner repo,
        lacks "/" owner = true → lacks "/" repo = true →
        gh_repository gh = owner +:+ "/" +:+ repo →
        getDeploymentUrl gh = "https://" +:+ owner +:+ ".github.io/" +:+ repo)
     ∧ (∀ owner repo rest,
          lacks "/" owner = true → lacks "/" repo = true →
          gh_repository gh = owner +:+ "/" +:+ repo +:+ "/" +:+ rest →
          getDeploymentUrl gh = "https://" +:+ owner +:+ ".github.io/" +:+ repo)
     ∧ (lacks "/" (gh_repository gh) = true →
        getDeploymentUrl gh
          = "https://" +:+ gh_repository gh +:+ ".github.io/undefined")).
Proof.
  unfold getDeploymentUrl, JS.split. split.
  - intros domain Hdomain Htruthy. rewrite Hdomain. cbn [truthyOpt text default].
    by rewrite Htruthy.
  - intros ->. split; [|split].
    + intros owner repo Howner Hrepo ->.
      change (owner +:+ "/" +:+ repo) with (owner +:+ String "/" repo).
      rewrite (split_go_segment _ _ _ Howner), (split_go_last _ _ Hrepo).
      reflexivity.
    + intros owner repo rest Howner Hrepo ->.
      change (owner +:+ "/" +:+ repo +:+ "/" +:+ rest)
        with (owner +:+ String "/" (repo +:+ String "/" rest)).
      rewrite (split_go_segment _ _ _ Howner), (split_go_segment _ _ _ Hrepo).
      reflexivity.
    + intros Hrepository. rewrite (split_go_last _ _ Hrepository). reflexivity.
Qed.

(** The provider's [rollback]: the search for the previous deployment
    finds nothing, so every call returns this failure. *)
Lemma provider_rollback_fails (gh : Provider) (deploymentId : string) :
  rollback gh deploymentId
  = {| Deploy.success := false;
       Deploy.deploymentId := "rollback_" +:+ deploymentId;
       Deploy.url := Json.JStr "";
       Deploy.logs :=
         ["Rollback failed: Cannot find previous deployment to rollback from "
          +:+ deploymentId];
       Deploy.metrics := None;
       Deploy.error :=
         Some ("Cannot find previous deployment to rollback from " +:+ deploymentId) |}.
Proof. reflexivity. Qed.

End DeploymentAddress.

Section OrchestratedProvider.
Import GitHubPages.
Context `{Crypto} `{JsonParser} `{PathLib}.

(** The configuration before the configuration file and the command
    line are laid over it. *)
Definition baseConfiguration (options : Deploy.DeploymentOptions) : Deploy.Config :=
  Json.objSet "environment"
    (Json.JStr (JS.orElse (Deploy.opt_environment options) "production"))
    (Json.objSet "target"
       (Json.JStr (JS.orElse (Deploy.opt_target options) "github-pages"))
       Deploy.DEFAULT_DEPLOYMENT_CONFIG).

Lemma lookup_baseConfiguration options k :
  Json.lookup k (baseConfiguration options)
  = Json.lookup k
      [ ("environment",
         Json.JStr (JS.orElse (Deploy.opt_environment options) "production"));
        ("branch", Json.JStr "main");
        ("outputDir", Json.JStr "cdn/dist");
        ("headers", Json.JObj
           [ ("Cache-Control", Json.JStr "public, max-age=31536000");
             ("X-Content-Type-Options", Json.JStr "nosniff");
             ("X-Frame-Options", Json.JStr "DENY") ]);
        ("target",
         Json.JStr (JS.orElse (Deploy.opt_target options) "github-pages")) ].
Proof. reflexivity. Qed.

Definition overridden (options : Deploy.DeploymentOptions) (config : Deploy.Config)
    : Deploy.Config :=
  Deploy.setIf "baseUrl" (Deploy.baseUrl options)
    (Deploy.setIf "customDomain" (Deploy.customDomain options)
       (Deploy.setIf "branch" (Deploy.branch options)
          (Deploy.setIf "repository" (Deploy.repository options) config))).

Lemma lookup_target_overridden options :
  Json.lookup "target" (overridden options (baseConfiguration options))
  = Some (Json.JStr (JS.orElse (Deploy.opt_target options) "github-pages")).
Proof.
  unfold overridden. rewrite lookup_overrides.
  change (optionNamed options "target") with (@None string).
  by rewrite lookup_baseConfiguration.
Qed.

(** The configuration [loadConfiguration] makes without a
    configuration file. *)
Lemma loadConfiguration_without_file w options config :
  Deploy.configFile options = None →
  Deploy.loadConfiguration w options = Return config →
  config = overridden options (baseConfiguration options)
  ∧ (JS.orElse (Deploy.opt_target options) "github-pages" = "github-pages" →
     Json.truthyOpt (Json.lookup "repository" config) = true).
Proof.
  intros Hfile. unfold Deploy.loadConfiguration. rewrite Hfile. unfold_bind.
  cbn [cbind]. cbv zeta.
  fold (baseConfiguration options).
  fold (overridden options (baseConfiguration options)).
  rewrite lookup_target_overridden.
  destruct (Json.truthyOpt
              (Json.lookup "repository"
                 (overridden options (baseConfiguration options)))) eqn:Hrepo.
  - rewrite andb_false_r. intros [= <-]. split; [reflexivity|]. by rewrite Hrepo.
  - rewrite andb_true_r.
    destruct (String.eqb_spec
                (JS.orElse (Deploy.opt_target options) "github-pages")
                "github-pages") as [Hpages|Hother]; [done|].
    intros [= <-]. split; [reflexivity|]. intros Hpages. by destruct Hother.
Qed.

(** The provider [getDeploymentProvider] makes for such a
    configuration. *)
Definition orchestratedProvider (w : Deploy.World) (options : Deploy.DeploymentOptions)
    (repository : string) : Provider :=
  {| gh_repository := repository;
     gh_branch := Some (JS.orElse (Deploy.branch options) "main");
     gh_token := Deploy.env w "GITHUB_TOKEN";
     gh_username :=
       Some (JS.orElse (Deploy.env w "GIT_USERNAME") "github-actions[bot]");
     gh_email :=
       Some (JS.orElse (Deploy.env w "GIT_EMAIL")
               "github-actions[bot]@users.noreply.github.com");
     gh_customDomain :=
       match Deploy.customDomain options with
       | Some domain => if JS.truthy domain then Some domain else None
       | None => None
       end;
     gh_cname := true;
     gh_hooks := noHooks |}.

Lemma provider_of_configuration w options config :
  Deploy.configFile options = None →
  JS.orElse (Deploy.opt_target options) "github-pages" = "github-pages" →
  Deploy.loadConfiguration w options = Return config →
  ∃ repository,
    Deploy.repository options = Some repository
    ∧ JS.truthy repository = true
    ∧ (Deploy.getDeploymentProvider config).2 = Return "github-pages"
    ∧ construct (providerOptions config (Deploy.env w))
      = Return (orchestratedProvider w options repository).
Proof.
  intros Hfile Htarget Hload.
  destruct (loadConfiguration_without_file w options config Hfile Hload)
    as [-> Hrepo].
  specialize (Hrepo Htarget).
  unfold overridden in *.
  rewrite lookup_overrides, lookup_baseConfiguration in Hrepo. cbn in Hrepo.
  assert (Hgiven : ∃ repository, Deploy.repository options = Some repository
                                 ∧ JS.truthy repository = true).
  { destruct (Deploy.repository options) as [repository|]; [|done].
    destruct (JS.truthy repository) eqn:Htruthy; [by exists repository|done]. }
  clear Hrepo. destruct Hgiven as (repository & Hrepository & Htruthy).
  exists repository. split; [exact Hrepository|]. split; [exact Htruthy|]. split.
  - unfold Deploy.getDeploymentProvider.
    pose proof (lookup_target_overridden options) as Hlookup.
    unfold overridden in Hlookup. rewrite Hlookup, Htarget. reflexivity.
  - unfold construct, providerOptions, stringAt, orchestratedProvider.
    cbn [gh_repository GitHubPages.repository].
    rewrite !lookup_overrides, !lookup_baseConfiguration. cbn.
    rewrite ?Hrepository, ?Htruthy. cbn. rewrite ?Htruthy. cbn.
    destruct (Deploy.branch options) as [branch|]; cbn;
      [destruct (JS.truthy branch)|]; cbn;
      (destruct (Deploy.customDomain options) as [domain|]; cbn;
       [destruct (JS.truthy domain)|]; reflexivity).
Qed.

(** X19.  The provider the orchestrator makes.  Without a
    configuration file, and for the target [github-pages], a loaded
    configuration always gives a provider: for the repository of the
    command line, with the token and the author of the environment,
    with [cname] on, and with the branch of the command line or
    [main].  The configuration's default branch is given to the
    constructor, so the provider's own default [gh-pages] never
    applies: a deployment without [--branch] force-pushes to
    [main]. *)
Theorem orchestrated_provider
    (w : Deploy.World) (options : Deploy.DeploymentOptions) (config : Deploy.Config) :
  Deploy.configFile options = None →
  JS.orElse (Deploy.opt_target options) "github-pages" = "github-pages" →
  Deploy.loadConfiguration w options = Return config →
  ∃ repository,
    Deploy.repository options = Some repository
    ∧ JS.truthy repository = true
    ∧ construct (providerOptions config (Deploy.env w))
      = Return (orchestratedProvider w options repository)
    ∧ ∀ pw deploymentId,
        last (gitCommands pw (orchestratedProvider w options repository) deploymentId)
        = Some ("git push --force origin "
                +:+ JS.orElse (Deploy.branch options) "main").
Proof.
  intros Hfile Htarget Hload.
  destruct (provider_of_configuration w options config Hfile Htarget Hload)
    as (repository & Hrepository & Htruthy & _ & Hconstruct).
  exists repository. split; [exact Hrepository|]. split; [exact Htruthy|].
  split; [exact Hconstruct|].
  intros pw deploymentId. unfold gitCommands. rewrite !app_assoc.
  apply (last_app_cons _ [_; _; _]).
Qed.

(** X20.  The [rollback] command.  Without a configuration file, no
    call of the orchestrator's [rollback] returns a success: it
    throws, or it returns the provider's failure, and it does return
    it for the target [github-pages] and a repository that is not
    empty. *)
Theorem rollback_command_never_succeeds
    (w : Deploy.World) (deploymentId : string) (options : Deploy.DeploymentOptions) :
  Deploy.configFile options = None →
  match Cli.rollback w deploymentId options with
  | Return result =>
      Deploy.success result = false
      ∧ Deploy.error result
        = Some ("Cannot find previous deployment to rollback from " +:+ deploymentId)
  | Throw _ => True
  end
  ∧ (JS.orElse (Deploy.opt_target options) "github-pages" = "github-pages" →
     ∀ repository,
       Deploy.repository options = Some repository → JS.truthy repository = true →
       ∃ result, Cli.rollback w deploymentId options = Return result).
Proof.
  intros Hfile. split.
  - unfold Cli.rollback. unfold_bind.
    destruct (Deploy.loadConfiguration w options) as [config|]; cbn [cbind]; [|done].
    destruct (Deploy.getDeploymentProvider config).2; cbn [cbind]; [|done].
    destruct (construct _) as [provider|]; cbn [cbind]; [|done].
    by rewrite provider_rollback_fails.
  - intros Htarget repository Hrepository Htruthy. unfold Cli.rollback. unfold_bind.
    destruct (Deploy.loadConfiguration w options) as [config|message] eqn:Hload.
    + destruct (provider_of_configuration w options config Hfile Htarget Hload)
        as (repository' & _ & _ & Hprovider & Hconstruct).
      cbn [cbind]. rewrite Hprovider. cbn [cbind]. rewrite Hconstruct.
      cbn [cbind]. by eexists.
    + exfalso. revert Hload. unfold Deploy.loadConfiguration. rewrite Hfile.
      unfold_bind. cbn [cbind]. cbv zeta.
      fold (baseConfiguration options).
      rewrite (lookup_overrides "repository"), Hrepository. cbn [optionNamed].
      change (optionNamed options "repository") with (Deploy.repository options).
      rewrite Hrepository, Htruthy. cbn [Json.truthyOpt Json.truthy].
      rewrite Htruthy. by rewrite andb_false_r.
Qed.

End OrchestratedProvider.

(** ** The Jekyll plugin *)

Section JekyllTemplates.
Import Jekyll.
Context `{PathLib}.
Variable w : World.
Variable p : Plugin.

Definition templatePath (file : string) : string := path_join [p_templateDir p; file].

(** The write that copies the template [file]. *)
Definition copyOf (file : string) (a : GitHubPages.Action) : Prop :=
  existsSync w (templatePath file) = true
  ∧ ∃ content,
      readFileSync w (templatePath file) = Return content
      ∧ a = GitHubPages.WriteFile (path_join [outputDir p; file])
              (GitHubPages.Text content).

Lemma copyTemplate_acts file acts outcome :
  copyTemplate w p file = (acts, outcome) →
  (∀ a, a ∈ acts → copyOf file a)
  ∧ (outcome = Return tt → existsSync w (templatePath file) = true →
     ∃ a, a ∈ acts ∧ copyOf file a).
Proof.
  unfold copyTemplate, copyOf, templatePath. cbv zeta.
  destruct (existsSync w _) eqn:Hexists.
  - destruct (readFileSync w _) as [content|error] eqn:Hread.
    + unfold perform. intros [= <- <-]. split.
      * intros a ->%list_elem_of_singleton. split; [reflexivity|]. by exists content.
      * intros _ _. eexists. split; [by apply list_elem_of_singleton|].
        split; [reflexivity|]. by exists content.
    + intros [= <- <-]. split; [by intros a ?%elem_of_nil|done].
  - intros [= <- <-]. split; [by intros a ?%elem_of_nil|done].
Qed.

Lemma copyTemplates_acts files :
  ∀ acts outcome,
    copyTemplates w p files = (acts, outcome) →
    (∀ a, a ∈ acts → ∃ file, file ∈ files ∧ copyOf file a)
    ∧ (outcome = Return tt →
       ∀ file, file ∈ files → existsSync w (templatePath file) = true →
       ∃ a, a ∈ acts ∧ copyOf file a).
Proof.
  induction files as [|file files IH]; intros acts outcome; cbn [copyTemplates].
  - intros [= <- <-]. split; [by intros a ?%elem_of_nil|].
    by intros _ file' ?%elem_of_nil.
  - destruct (copyTemplate w p file) as [acts1 [[]|error]] eqn:Hfirst.
    + destruct (copyTemplate_acts _ _ _ Hfirst) as [Hacts1 Hall1].
      destruct (copyTemplates w p files) as [acts2 outcome2] eqn:Hrest.
      destruct (IH _ _ eq_refl) as [Hacts2 Hall2].
      intros [= <- <-]. split.
      * intros a [Ha|Ha]%elem_of_app.
        -- exists file. split; [by left|by apply Hacts1].
        -- destruct (Hacts2 a Ha) as (file' & Hin & Hcopy).
           exists file'. split; [by right|exact Hcopy].
      * intros Hdone file' [->|Hin]%elem_of_cons Hexists.
        -- destruct (Hall1 eq_refl Hexists) as (a & Ha & Hcopy).
           exists a. split; [apply elem_of_app; by left|exact Hcopy].
        -- destruct (Hall2 Hdone file' Hin Hexists) as (a & Ha & Hcopy).
           exists a. split; [apply elem_of_app; by right|exact Hcopy].
    + destruct (copyTemplate_acts _ _ _ Hfirst) as [Hacts1 _].
      intros [= <- <-]. split; [|done].
      intros a Ha. exists file. split; [by left|by apply Hacts1].
Qed.

(** X21.  What the [writeBundle] hook of the Jekyll plugin writes.  A
    disabled plugin does nothing.  An enabled one makes the output
    directory if it is not there, and apart from that only writes
    copies of existing templates of its three names into the output
    directory; a template that does not exist is passed over without
    an error, and where the hook returns, every one that exists has
    been copied. *)
Theorem writeBundle_copies_templates :
  let acts := (writeBundle w p).1 in
  let outcome := (writeBundle w p).2 in
  (p_enabled p = false → acts = [] ∧ outcome = Return tt)
  ∧ (∀ a, a ∈ acts →
       (a = GitHubPages.MakeDir (outputDir p) ∧ existsSync w (outputDir p) = false)
       ∨ ∃ file, file ∈ filesToCopy ∧ copyOf file a)
  ∧ (p_enabled p = true → outcome = Return tt →
     ∀ file, file ∈ filesToCopy → existsSync w (templatePath file) = true →
     ∃ a, a ∈ acts ∧ copyOf file a)
  ∧ ((∀ file, file ∈ filesToCopy → existsSync w (templatePath file) = false) →
     outcome = Return tt ∨ ∃ e, fails w (GitHubPages.MakeDir (outputDir p)) = Some e
                                ∧ outcome = Throw e).
Proof.
  intros acts outcome. subst acts outcome. unfold writeBundle.
  destruct (p_enabled p); cbn [negb].
  2: { cbn. split; [done|]. split; [by intros a ?%elem_of_nil|].
       split; [done|]. intros _. by left. }
  split; [done|].
  destruct (copyTemplates w p filesToCopy) as [acts2 outcome2] eqn:Hcopies.
  destruct (copyTemplates_acts _ _ _ Hcopies) as [Hacts Hall].
  assert (Hnone : (∀ file, file ∈ filesToCopy →
                     existsSync w (templatePath file) = false) →
                  outcome2 = Return tt).
  { intros Hmissing. revert Hcopies. unfold filesToCopy, copyTemplates, copyTemplate.
    cbv zeta. fold (templatePath "_config.yml") (templatePath ".nojekyll")
      (templatePath "index.html").
    rewrite !Hmissing by (unfold filesToCopy; set_solver).
    by intros [= <- <-]. }
  destruct (existsSync w (outputDir p)) eqn:Hdir; cbn [negb].
  - cbn [app fst snd]. split; [|split].
    + intros a Ha. right. by apply Hacts.
    + intros _. exact Hall.
    + intros Hmissing. left. by apply Hnone.
  - unfold perform.
    destruct (fails w (GitHubPages.MakeDir (outputDir p))) as [e|] eqn:Hmkdir;
      cbn [fst snd].
    + split; [|split].
      * intros a ->%list_elem_of_singleton. by left.
      * by intros _ ?.
      * intros _. right. by exists e.
    + split; [|split].
      * intros a [->%list_elem_of_singleton|Ha]%elem_of_app; [by left|right].
        by apply Hacts.
      * intros _ Hdone file Hin Hexists.
        destruct (Hall Hdone file Hin Hexists) as (a & Ha & Hcopy).
        exists a. split; [apply elem_of_app; by right|exact Hcopy].
      * intros Hmissing. left. by apply Hnone.
Qed.

End JekyllTemplates.

(** ** Scenarios for the properties of Part III *)

Section ProviderExamples.
Import Deploy.
#[local] Existing Instance nodeCrypto.
#[local] Existing Instance exampleParser.

(** [join] and [dirname] of Node on the paths of the scenarios:
    segments without [.], [..] or a slash at their ends. *)
#[local] Instance posixPath : PathLib :=
  {| path_join := String.concat "/";
     path_dirname := λ p,
       match removelast (JS.split "/" p) with
       | [] => "."
       | segments => String.concat "/" segments
       end |}.


Lemma loadConfiguration_precedence_witness :
  loadConfiguration (worldWith (Some scenarioTree)) dryRunOptions = Return scenarioConfig
  ∧ Json.lookup "repository" scenarioConfig = Some (Json.JStr "acme/site")
  ∧ Json.lookup "target" scenarioConfig = Some (Json.JStr "github-pages").
Proof.
  split; [exact scenario_configured|].
  destruct (loadConfiguration_precedence (worldWith (Some scenarioTree)) dryRunOptions
              scenarioConfig scenario_configured) as (Hoverride & _ & Hdefault).
  split.
  - apply (Hoverride "repository" "acme/site"); [by left|reflexivity|reflexivity].
  - exact (proj1 (Hdefault eq_refl)).
Defined.

(** A real run for a target without a provider. *)
Definition netlifyOptions : DeploymentOptions :=
  {| opt_target := Some "netlify"; opt_environment := None; dryRun := None;
     validate := None; force := None; configFile := None; assetsDir := None;
     baseUrl := None; repository := None; branch := None; customDomain := None |}.

Definition netlifyConfig : Config :=
  Eval vm_compute in
    match loadConfiguration (worldWith (Some scenarioTree)) netlifyOptions with
    | Return config => config
    | Throw _ => []
    end.

Lemma deploy_without_provider_witness :
  loadConfiguration (worldWith (Some scenarioTree)) netlifyOptions = Return netlifyConfig
  ∧ Json.lookup "target" netlifyConfig = Some (Json.JStr "netlify")
  ∧ isRealRun netlifyOptions
  ∧ deploy (worldWith (Some scenarioTree)) netlifyOptions
      = ([ConsoleError "Deployment target 'netlify' is not yet implemented"],
         Throw "Deployment target 'netlify' is not yet implemented").
Proof.
  assert (Hload : loadConfiguration (worldWith (Some scenarioTree)) netlifyOptions
                  = Return netlifyConfig) by (vm_compute; reflexivity).
  assert (Hreal : isRealRun netlifyOptions) by discriminate.
  split; [exact Hload|]. split; [reflexivity|]. split; [exact Hreal|].
  destruct (deploy_without_provider (worldWith (Some scenarioTree)) netlifyOptions
              netlifyConfig scenarioBundle "netlify" Hload scenario_prepared eq_refl
              ltac:(discriminate)) as [Hrun _].
  destruct (Hrun Hreal) as (message & Hdeploy & Hmessage).
  rewrite Hdeploy, Hmessage. reflexivity.
Defined.

Lemma groupAssetsByType_partition_witness :
  asciiPaths (files scenarioBundle)
  ∧ ∃ groups,
      groupAssetsByType (files scenarioBundle) = Return groups
      ∧ NoDup (map fst groups)
      ∧ concat (map snd groups) ≡ₚ files scenarioBundle.
Proof.
  assert (Hascii : asciiPaths (files scenarioBundle)) by (by repeat constructor).
  split; [exact Hascii|].
  destruct (groupAssetsByType_partition (files scenarioBundle) Hascii)
    as (Hreturns & _ & Hgroups).
  destruct (proj2 Hreturns scenario_plainTypes) as [groups Hrun].
  exists groups. split; [exact Hrun|].
  destruct (Hgroups groups Hrun) as (Hnd & _ & _ & Hperm). by split.
Defined.

Lemma orchestrated_provider_witness :
  configFile dryRunOptions = None
  ∧ loadConfiguration (worldWith (Some scenarioTree)) dryRunOptions
      = Return scenarioConfig
  ∧ GitHubPages.gh_branch
      <$> match GitHubPages.construct
                  (GitHubPages.providerOptions scenarioConfig
                     (env (worldWith (Some scenarioTree)))) with
          | Return provider => Some provider
          | Throw _ => None
          end
    = Some (Some "main").
Proof.
  split; [reflexivity|]. split; [exact scenario_configured|].
  destruct (orchestrated_provider (worldWith (Some scenarioTree)) dryRunOptions
              scenarioConfig eq_refl eq_refl scenario_configured)
    as (repository & _ & _ & Hconstruct & _).
  rewrite Hconstruct. reflexivity.
Defined.

Lemma rollback_command_never_succeeds_witness :
  configFile dryRunOptions = None
  ∧ ∃ result,
      Cli.rollback (worldWith (Some scenarioTree)) "deploy_1735718400000_k3j9x2"
        dryRunOptions = Return result
      ∧ success result = false.
Proof.
  split; [reflexivity|].
  destruct (rollback_command_never_succeeds (worldWith (Some scenarioTree))
              "deploy_1735718400000_k3j9x2" dryRunOptions eq_refl) as [Hfailure Hreturns].
  destruct (Hreturns eq_refl "acme/site" eq_refl eq_refl) as [result Hresult].
  exists result. split; [exact Hresult|].
  rewrite Hresult in Hfailure. exact (proj1 Hfailure).
Defined.

(** The machine of a deployment: a token in the environment, and the
    actions [failing] that throw. *)
Definition pagesWorld (failing : GitHubPages.Action → option string)
    : GitHubPages.World :=
  {| GitHubPages.process_cwd := "/work";
     GitHubPages.GITHUB_TOKEN := Some "ghp_example";
     GitHubPages.deploy_ms := 1735718400000;
     GitHubPages.deploy_random := "0.k3j9x2abcde";
     GitHubPages.temp_ms := 1735718400001;
     GitHubPages.temp_random := "0.z8y7w6vutsr";
     GitHubPages.readme_date := "2025-01-01T08:00:00.001Z";
     GitHubPages.commit_date := "2025-01-01T08:00:00.002Z";
     GitHubPages.elapsed := 1200;
     GitHubPages.fails := failing |}.

Definition scenarioProvider : GitHubPages.Provider :=
  orchestratedProvider (worldWith (Some scenarioTree)) dryRunOptions "acme/site".

Definition execCommands (acts : list GitHubPages.Action) : list string :=
  omap (λ a, match a with GitHubPages.Exec command _ => Some command | _ => None end)
    acts.

Definition isPush (a : GitHubPages.Action) : bool :=
  match a with
  | GitHubPages.Exec command _ => JS.startsWith command "git push"
  | _ => false
  end.

(** The deployment of the scenario where nothing throws: 19 actions,
    the force push to [main] as the last command, the token in the
    address of the remote, and the removal at the end. *)
Example deployment_of_the_scenario :
  let run := GitHubPages.deploy (pagesWorld (λ _, None)) scenarioProvider
               scenarioBundle scenarioConfig in
  (λ result, (success result, url result, error result))
    <$> match run.2 with Return result => Some result | Throw _ => None end
    = Some (true, Json.JStr "https://acme.github.io/site", None)
  ∧ length run.1 = 19%nat
  ∧ head (execCommands run.1) = Some "git ls-remote https://github.com/acme/site.git"
  ∧ execCommands run.1 !! 2%nat = Some "git checkout -b main"
  ∧ execCommands run.1 !! 7%nat
    = Some "git remote add origin https://ghp_example@github.com/acme/site.git"
  ∧ last (execCommands run.1) = Some "git push --force origin main"
  ∧ last run.1
    = Some (GitHubPages.RemoveDir "/work/.deploy-temp/deploy_1735718400001_z8y7w6").
Proof. vm_compute. repeat split; reflexivity. Qed.

(** The same deployment with a push that is rejected: a failure, and
    the temporary directory (with the token in its git configuration)
    is not removed. *)
Example rejected_push_leaves_the_directory :
  let run := GitHubPages.deploy
               (pagesWorld (λ a, if isPush a then Some "rejected" else None))
               scenarioProvider scenarioBundle scenarioConfig in
  (λ result, (success result, error result))
    <$> match run.2 with Return result => Some result | Throw _ => None end
    = Some (false, Some "rejected")
  ∧ length run.1 = 18%nat
  ∧ last (execCommands run.1) = Some "git push --force origin main"
  ∧ last run.1
    = Some (GitHubPages.Exec "git push --force origin main"
              (Some "/work/.deploy-temp/deploy_1735718400001_z8y7w6")).
Proof. vm_compute. repeat split; reflexivity. Qed.

(** A repository without a slash passes the configuration and the
    constructor; its address ends in [/undefined]. *)
Example repository_without_a_slash :
  GitHubPages.getDeploymentUrl
    (orchestratedProvider (worldWith (Some scenarioTree)) dryRunOptions "site")
  = "https://site.github.io/undefined".
Proof. vm_compute. reflexivity. Qed.

(** [deploy --repository acme/site --repository]: the second, empty
    [--repository] erases the first, and the deployment stops at the
    configuration. *)
Example trailing_flag_erases_the_repository :
  deploy (worldWith (Some scenarioTree))
    (Cli.deploymentOptions
       (Cli.parseArgs ["--repository"; "acme/site"; "--dry-run"; "--repository"]))
  = ([ConsoleError "GitHub repository is required for GitHub Pages deployment"],
     Throw "GitHub repository is required for GitHub Pages deployment").
Proof. vm_compute. reflexivity. Qed.

(** [validate https://acme.github.io/site --strict] runs the
    validator in normal mode. *)
Example strict_flag_is_ignored :
  Cli.main ["validate"; "https://acme.github.io/site"; "--strict"]
    = Cli.CallValidate "https://acme.github.io/site" None
  ∧ Validator.strictMode (Cli.validatorOptions None) = false.
Proof. split; reflexivity. Qed.

(** A plugin whose template directory holds [.nojekyll] alone. *)
Definition jekyllWorld : Jekyll.World :=
  {| Jekyll.existsSync := λ p, String.eqb p "templates/.nojekyll";
     Jekyll.readFileSync := λ p,
       if String.eqb p "templates/.nojekyll" then Return ""
       else Throw "ENOENT: no such file or directory";
     Jekyll.fails := λ _, None;
     Jekyll.defaultTemplateDir := "/work/tools/build/jekyll-templates" |}.

Example jekyll_copies_what_exists :
  Jekyll.writeBundle jekyllWorld
    (Jekyll.configResolved
       (Jekyll.jekyllPlugin jekyllWorld
          {| Jekyll.enabled := None; Jekyll.templateDir := Some "templates";
             Jekyll.outDir := Some "out" |})
       (Some "dist"))
  = ([ GitHubPages.MakeDir "dist";
       GitHubPages.WriteFile "dist/.nojekyll" (GitHubPages.Text "") ],
     Return tt).
Proof. vm_compute. reflexivity. Qed.

End ProviderExamples.
